(** * ALIGNIFYC: strip stitcher and tiled warp engine

    A shallow embedding of

      - [include/alinify/common/types.h]          (Image, ScanStrip, ...),
      - [src/stitching/strip_stitcher.cpp]        (StripStitcher),
      - [src/gpu_warp/cuda_warper.cpp]            (CudaWarper),
      - [src/printer/printer_interface.cpp]       (PrinterInterface),
      - [src/preprocessing/image_processor.cpp]   (ImageProcessor),
      - [src/camera/gidel_camera.cpp]             (GidelCamera::processBuffer),
      - [src/registration/elastix_wrapper.cpp]    (ElastixWrapper),

    followed by the properties of the specification that concern them and
    by further properties of the code.

    Conventions.  C++ [int] values are integers of [Z].  Signed overflow
    is undefined behaviour in C++: the loop counters of [generateTiles],
    which the loops themselves can drive out of the range of [int], are
    checked against that range and an overflow yields no result; no other
    integer expression is checked.  A [std::vector<byte_t>]
    is a [list Z] of values in 0..255.  Reads outside a buffer (undefined
    behaviour in C++) yield 0 and writes outside a buffer are dropped, so
    that every function below is total; the theorems carry the
    well-formedness hypotheses under which every access is in range.  C++
    [float] is IEEE-754 binary32 with round-to-nearest-even
    ([Float32]); [double] values that only travel through the code
    (offsets, correlation scores) are rationals, and the [double]
    expressions that the code computes, the kernel sizes of
    image_processor.cpp, are binary64 ([Float64]).  Memory exhaustion
    ([std::bad_alloc]) is not modelled.  The two libraries the
    code calls, OpenCV and libtorch, are not part of the repository: OpenCV
    is an interface record whose fields are the calls' results, libtorch's
    tensor operations are written out from their documentation over exact
    rationals.  The printer DLL and the frame grabber are likewise
    interface records or plain data handed to the code. *)

From stdpp Require Import base list strings gmap pretty.
From Stdlib Require Import ZArith QArith Qround Qminmax Lia.
From Stdlib Require Import Floats.SpecFloat.

#[local] Open Scope Z_scope.

(* ===================================================================== *)
(** * Part I: the program                                                 *)
(* ===================================================================== *)

(** ** Byte buffers *)

Module Buffer.

Definition get (d : list Z) (i : Z) : Z :=
  if i <? 0 then 0 else default 0 (d !! Z.to_nat i).

Definition set (d : list Z) (i : Z) (v : Z) : list Z :=
  if i <? 0 then d else <[Z.to_nat i := v]> d.

(** [std::memcpy(dst + d, src + s, n)], byte by byte. *)
Fixpoint memcpy (n : nat) (dst : list Z) (d : Z) (src : list Z) (s : Z)
  : list Z :=
  match n with
  | O => dst
  | S k => memcpy k (set dst d (get src s)) (d + 1) src (s + 1)
  end.

(** [std::vector::resize] on a fresh vector: [n] zero bytes. *)
Definition zeros (n : Z) : list Z := replicate (Z.to_nat n) 0.

End Buffer.

(** ** IEEE-754 binary32, the C++ [float] *)

Module Float32.

Definition prec : Z := 24.
Definition emax : Z := 128.
Definition float := spec_float.

(** [static_cast<float>(n)] for an integer [n]. *)
Definition of_int (n : Z) : float := binary_normalize prec emax n 0 false.

Definition one : float := of_int 1.
Definition add : float -> float -> float := SFadd prec emax.
Definition sub : float -> float -> float := SFsub prec emax.
Definition mul : float -> float -> float := SFmul prec emax.
Definition div : float -> float -> float := SFdiv prec emax.

(** [static_cast<int>(f)]: the fractional part is discarded (truncation
    toward zero). *)
Definition to_int (f : float) : Z :=
  match f with
  | S754_finite s m e =>
      let v := if 0 <=? e then Z.pos m * 2 ^ e else Z.pos m / 2 ^ (- e) in
      if s then - v else v
  | _ => 0
  end.

(** [static_cast<byte_t>(f)]: the truncated value, stored in 8 bits.  For a
    value outside 0..255 the conversion is undefined in C++; the model
    keeps the low 8 bits of the truncated value, which is what the x86-64
    build stores. *)
Definition to_byte (f : float) : Z := to_int f mod 256.

End Float32.

(** ** IEEE-754 binary64, the C++ [double] *)

Module Float64.

Definition prec : Z := 53.
Definition emax : Z := 1024.
Definition float := spec_float.

(** The conversion of an [int] operand to [double]. *)
Definition of_int (n : Z) : float := binary_normalize prec emax n 0 false.

Definition add : float -> float -> float := SFadd prec emax.
Definition mul : float -> float -> float := SFmul prec emax.

(** [static_cast<int>(d)]: truncation toward zero. *)
Definition to_int (d : float) : Z := Float32.to_int d.

End Float64.

(** ** The C++ [int] *)

(** The range of a 32-bit [int]. *)
Definition int_min : Z := - 2 ^ 31.
Definition int_max : Z := 2 ^ 31 - 1.

Definition in_int (z : Z) : bool := (int_min <=? z) && (z <=? int_max).

(** [x += (tile - overlap)] on [int]s: the new value of [x], or [None]
    when the difference or the sum is outside the range of [int], where
    the behaviour of the C++ program is undefined. *)
Definition advance (x tile overlap : Z) : option Z :=
  if in_int (tile - overlap) && in_int (x + (tile - overlap))
  then Some (x + (tile - overlap))
  else None.

(** ** types.h *)

Inductive StatusCode : Type :=
| SUCCESS
| ERROR_CAMERA_INIT
| ERROR_CAMERA_START
| ERROR_BUFFER_OVERFLOW
| ERROR_STITCHING_FAILED
| ERROR_REGISTRATION_FAILED
| ERROR_GPU_OUT_OF_MEMORY
| ERROR_PRINTER_COMMUNICATION
| ERROR_INVALID_CONFIG
| ERROR_FILE_IO
| ERROR_UNKNOWN.

(** [Image<byte_t>]; the acquisition timestamp plays no role and is left
    out. *)
Record Image : Type := mkImage {
  data : list Z;
  width : Z;
  height : Z;
  channels : Z;
  bit_depth : Z
}.

(** [Image()] *)
Definition Image_default : Image :=
  {| data := []; width := 0; height := 0; channels := 1; bit_depth := 8 |}.

(** [Image(w, h, c, bits)]: the buffer has [w * h * c] zero bytes.  (For a
    negative product the constructor of the vector throws; the model has
    an empty buffer there, and the theorems that build images do so with
    non-negative sizes.) *)
Definition Image_new (w h c bits : Z) : Image :=
  {| data := Buffer.zeros (w * h * c);
     width := w; height := h; channels := c; bit_depth := bits |}.

Definition index_of (img : Image) (x y c : Z) : Z :=
  (y * width img + x) * channels img + c.

(** [img.at(x, y, c)] as an rvalue *)
Definition at_ (img : Image) (x y c : Z) : Z :=
  Buffer.get (data img) (index_of img x y c).

(** [img.at(x, y, c) = v] *)
Definition set_at (img : Image) (x y c : Z) (v : Z) : Image :=
  {| data := Buffer.set (data img) (index_of img x y c) v;
     width := width img; height := height img;
     channels := channels img; bit_depth := bit_depth img |}.

Definition with_data (img : Image) (d : list Z) : Image :=
  {| data := d; width := width img; height := height img;
     channels := channels img; bit_depth := bit_depth img |}.

Record ScanStrip : Type := mkScanStrip {
  image : Image;
  strip_id : Z;
  physical_position : Q;
  is_left_to_right : bool
}.

Record ScanningParams : Type := mkScanningParams {
  max_length_mm : Q;
  strip_width_mm : Q;
  overlap_pixels : Z;
  bidirectional : bool
}.

(** [ScanningParams()] *)
Definition ScanningParams_default : ScanningParams :=
  {| max_length_mm := 1800; strip_width_mm := 42;
     overlap_pixels := 100; bidirectional := true |}.

Record GPUConfig : Type := mkGPUConfig {
  device_id : Z;
  max_vram_bytes : Z;
  tile_width : Z;
  tile_height : Z;
  tile_overlap : Z;
  batch_size : Z
}.

(** [GPUConfig()] *)
Definition GPUConfig_default : GPUConfig :=
  {| device_id := 0; max_vram_bytes := 15 * 1024 * 1024 * 1024;
     tile_width := 4096; tile_height := 4096; tile_overlap := 128;
     batch_size := 4 |}.

(** [DeformationField]: [dx], [dy] are float vectors; the values used below
    are rationals. *)
Record DeformationField : Type := mkDeformationField {
  dx : list Q;
  dy : list Q;
  field_width : Z;
  field_height : Z
}.

(** ** OpenCV, as the stitcher sees it *)

(** A [cv::Mat] header of type CV_8UC1 over a byte buffer. *)
Record Mat : Type := mkMat {
  rows : Z;
  cols : Z;
  pixels : list Z
}.

(** The two library calls of [phaseCorrelation].  [None] stands for a
    thrown [cv::Exception]. *)
Record OpenCV : Type := mkOpenCV {
  (** [cv::phaseCorrelate(a, b)]: the estimated shift *)
  phaseCorrelate : Mat -> Mat -> option (Q * Q);
  (** [cv::matchTemplate(a, b, result, cv::TM_CCORR_NORMED)] followed by
      [cv::minMaxLoc(result, &min_val, &max_val)]: [max_val] *)
  matchTemplate_max : Mat -> Mat -> option Q
}.

(** [cv::Mat m(img.height, img.width, CV_8UC1, img.ptr())] *)
Definition Mat_of_image (img : Image) : Mat :=
  {| rows := height img; cols := width img; pixels := data img |}.

(** [m(cv::Rect(x, y, w, h))]: the sub-matrix, or an exception when the
    rectangle does not lie inside the matrix. *)
Definition Mat_roi (m : Mat) (x y w h : Z) : option Mat :=
  if (0 <=? x) && (0 <=? w) && (x + w <=? cols m)
     && (0 <=? y) && (0 <=? h) && (y + h <=? rows m)
  then Some {| rows := h; cols := w;
               pixels := flat_map
                 (fun r => map (fun c => Buffer.get (pixels m)
                                           ((y + r) * cols m + (x + c)))
                               (seqZ 0 w))
                 (seqZ 0 h) |}
  else None.

(** ** strip_stitcher.h / strip_stitcher.cpp *)

Module Stitcher.

(** [AlignmentStats]: plain doubles without initialisers; [None] is a
    field that was never assigned. *)
Record AlignmentStats : Type := mkAlignmentStats {
  offset_x : option Q;
  offset_y : option Q;
  correlation : option Q;
  success : bool
}.

Record StripStitcher : Type := mkStripStitcher {
  params_ : ScanningParams;
  min_correlation_ : Q;
  blending_enabled_ : bool;
  strips_ : list ScanStrip;
  stitched_image_ : Image;
  last_alignment_ : AlignmentStats;
  current_height_ : Z;
  initialized_ : bool
}.

Definition AlignmentStats_unset : AlignmentStats :=
  {| offset_x := None; offset_y := None; correlation := None;
     success := false |}.

(** [AlignmentStats{}] *)
Definition AlignmentStats_zero : AlignmentStats :=
  {| offset_x := Some 0%Q; offset_y := Some 0%Q; correlation := Some 0%Q;
     success := false |}.

(** [StripStitcher::StripStitcher()] *)
Definition StripStitcher_new : StripStitcher :=
  {| params_ := ScanningParams_default;
     min_correlation_ := 7 # 10;
     blending_enabled_ := true;
     strips_ := [];
     stitched_image_ := Image_default;
     last_alignment_ := AlignmentStats_unset;
     current_height_ := 0;
     initialized_ := false |}.

Definition initialize (st : StripStitcher) (params : ScanningParams)
  : StatusCode * StripStitcher :=
  (SUCCESS,
   {| params_ := params;
      min_correlation_ := min_correlation_ st;
      blending_enabled_ := blending_enabled_ st;
      strips_ := strips_ st;
      stitched_image_ := stitched_image_ st;
      last_alignment_ := last_alignment_ st;
      current_height_ := current_height_ st;
      initialized_ := true |}).

Definition setCorrelationThreshold (st : StripStitcher) (threshold : Q)
  : StripStitcher :=
  {| params_ := params_ st;
     min_correlation_ := threshold;
     blending_enabled_ := blending_enabled_ st;
     strips_ := strips_ st;
     stitched_image_ := stitched_image_ st;
     last_alignment_ := last_alignment_ st;
     current_height_ := current_height_ st;
     initialized_ := initialized_ st |}.

Definition setBlendingEnabled (st : StripStitcher) (enabled : bool)
  : StripStitcher :=
  {| params_ := params_ st;
     min_correlation_ := min_correlation_ st;
     blending_enabled_ := enabled;
     strips_ := strips_ st;
     stitched_image_ := stitched_image_ st;
     last_alignment_ := last_alignment_ st;
     current_height_ := current_height_ st;
     initialized_ := initialized_ st |}.

Definition reset (st : StripStitcher) : StripStitcher :=
  {| params_ := params_ st;
     min_correlation_ := min_correlation_ st;
     blending_enabled_ := blending_enabled_ st;
     strips_ := [];
     stitched_image_ := Image_default;
     last_alignment_ := AlignmentStats_zero;
     current_height_ := 0;
     initialized_ := initialized_ st |}.

Definition getStitchedImage (st : StripStitcher) : Image :=
  stitched_image_ st.

Definition getLastAlignmentStats (st : StripStitcher) : AlignmentStats :=
  last_alignment_ st.

(** The two overlap bands handed to OpenCV by [phaseCorrelation]. *)
Definition overlap_height (st : StripStitcher) (img1 img2 : Image) : Z :=
  Z.min (overlap_pixels (params_ st)) (Z.min (height img1) (height img2)).

Definition overlap_bands (st : StripStitcher) (img1 img2 : Image)
  : option (Mat * Mat) :=
  let mat1 := Mat_of_image img1 in
  let mat2 := Mat_of_image img2 in
  let oh := overlap_height st img1 img2 in
  match Mat_roi mat1 0 (height img1 - oh) (width img1) oh with
  | None => None
  | Some overlap1 =>
      match Mat_roi mat2 0 0 (width img2) oh with
      | None => None
      | Some overlap2 => Some (overlap1, overlap2)
      end
  end.

(** [StripStitcher::phaseCorrelation].  [stats] starts with only
    [success] assigned; the other fields are assigned after the last
    library call has returned, so an exception leaves them unset. *)
Definition phaseCorrelation (cv : OpenCV) (st : StripStitcher)
           (img1 img2 : Image) : AlignmentStats :=
  match overlap_bands st img1 img2 with
  | None => AlignmentStats_unset
  | Some (overlap1, overlap2) =>
      match phaseCorrelate cv overlap1 overlap2 with
      | None => AlignmentStats_unset
      | Some shift =>
          match matchTemplate_max cv overlap1 overlap2 with
          | None => AlignmentStats_unset
          | Some max_val =>
              {| offset_x := Some (fst shift);
                 offset_y := Some (snd shift);
                 correlation := Some max_val;
                 success := Qle_bool (min_correlation_ st) max_val |}
          end
      end
  end.

(** [StripStitcher::alignStrips] *)
Definition alignStrips (cv : OpenCV) (st : StripStitcher)
           (prev current : Image) : AlignmentStats :=
  phaseCorrelation cv st prev current.

(** The blend weight of source row [y]. *)
Definition blend_alpha (y blend_height : Z) : Float32.float :=
  if y <? blend_height
  then Float32.div (Float32.of_int y) (Float32.of_int blend_height)
  else Float32.one.

(** [static_cast<byte_t>(alpha * source_val + (1.0f - alpha) * target_val)] *)
Definition linear_blend (alpha : Float32.float) (source_val target_val : Z)
  : Z :=
  Float32.to_byte
    (Float32.add
       (Float32.mul alpha (Float32.of_int source_val))
       (Float32.mul (Float32.sub Float32.one alpha)
                    (Float32.of_int target_val))).

(** Body of the inner loop of [blendOverlapRegion]. *)
Definition blend_pixel (alpha : Float32.float) (source : Image)
           (offset_x target_y y : Z) (target : Image) (x : Z) : Image :=
  let target_x := x + offset_x in
  if (target_x <? 0) || (width target <=? target_x) then target
  else
    let source_val := at_ source x y 0 in
    let target_val := at_ target target_x target_y 0 in
    set_at target target_x target_y 0
           (linear_blend alpha source_val target_val).

(** Body of the outer loop of [blendOverlapRegion]. *)
Definition blend_row (blend_height : Z) (source : Image)
           (offset_x offset_y : Z) (target : Image) (y : Z) : Image :=
  let target_y := offset_y + y in
  if (target_y <? 0) || (height target <=? target_y) then target
  else
    fold_left (blend_pixel (blend_alpha y blend_height) source
                           offset_x target_y y)
              (seqZ 0 (width source)) target.

(** [StripStitcher::blendOverlapRegion] *)
Definition blendOverlapRegion (st : StripStitcher) (target source : Image)
           (offset_x offset_y : Z) : Image :=
  fold_left (blend_row (overlap_pixels (params_ st)) source
                       offset_x offset_y)
            (seqZ 0 (height source)) target.

(** The "expand stitched image" block of [addStrip]: a fresh zeroed image
    of the new height, then [memcpy] of the whole old buffer. *)
Definition expand (img : Image) (new_height : Z) : Image :=
  let expanded :=
    Image_new (width img) new_height (channels img) (bit_depth img) in
  with_data expanded
    (Buffer.memcpy (length (data img)) (data expanded) 0 (data img) 0).

(** Body of the "simple copy" loop of [addStrip]. *)
Definition copy_row (src : Image) (insert_y : Z) (dst : Image) (y : Z)
  : Image :=
  let dst_y := insert_y + y in
  if (0 <=? dst_y) && (dst_y <? height dst)
  then with_data dst
         (Buffer.memcpy (Z.to_nat (width src))
                        (data dst) (index_of dst 0 dst_y 0)
                        (data src) (index_of src 0 y 0))
  else dst.

Definition simple_copy (dst src : Image) (insert_y : Z) : Image :=
  fold_left (copy_row src insert_y) (seqZ 0 (height src)) dst.

(** [static_cast<int>(align_stats.offset_x)] *)
Definition double_to_int (d : option Q) : Z :=
  match d with
  | Some q => Z.quot (Qnum q) (Z.pos (Qden q))
  | None => 0
  end.

(** The blocks of [addStrip] after a successful alignment. *)

Definition new_height (st : StripStitcher) (strip : ScanStrip) : Z :=
  current_height_ st + height (image strip) - overlap_pixels (params_ st).

(** "Expand stitched image if needed" *)
Definition grow_composite (st : StripStitcher) (strip : ScanStrip) : Image :=
  if height (stitched_image_ st) <? new_height st strip
  then expand (stitched_image_ st) (new_height st strip)
  else stitched_image_ st.

Definition insert_y (st : StripStitcher) : Z :=
  current_height_ st - overlap_pixels (params_ st).

(** "Blend/copy new strip" *)
Definition fuse_strip (st : StripStitcher) (strip : ScanStrip)
           (align_stats : AlignmentStats) (grown : Image) : Image :=
  if blending_enabled_ st && (0 <? overlap_pixels (params_ st))
  then blendOverlapRegion st grown (image strip)
         (double_to_int (offset_x align_stats)) (insert_y st)
  else simple_copy grown (image strip) (insert_y st).

(** [StripStitcher::addStrip] *)
Definition addStrip (cv : OpenCV) (st : StripStitcher) (strip : ScanStrip)
  : StatusCode * StripStitcher :=
  if negb (initialized_ st) then (ERROR_INVALID_CONFIG, st)
  else
    match last (strips_ st) with
    | None =>
        (SUCCESS,
         {| params_ := params_ st;
            min_correlation_ := min_correlation_ st;
            blending_enabled_ := blending_enabled_ st;
            strips_ := strips_ st ++ [strip];
            stitched_image_ := image strip;
            last_alignment_ := last_alignment_ st;
            current_height_ := height (image strip);
            initialized_ := initialized_ st |})
    | Some prev_strip =>
        let align_stats :=
          alignStrips cv st (image prev_strip) (image strip) in
        if negb (success align_stats)
        then
          (ERROR_STITCHING_FAILED,
           {| params_ := params_ st;
              min_correlation_ := min_correlation_ st;
              blending_enabled_ := blending_enabled_ st;
              strips_ := strips_ st;
              stitched_image_ := stitched_image_ st;
              last_alignment_ := align_stats;
              current_height_ := current_height_ st;
              initialized_ := initialized_ st |})
        else
          (SUCCESS,
           {| params_ := params_ st;
              min_correlation_ := min_correlation_ st;
              blending_enabled_ := blending_enabled_ st;
              strips_ := strips_ st ++ [strip];
              stitched_image_ :=
                fuse_strip st strip align_stats (grow_composite st strip);
              last_alignment_ := align_stats;
              current_height_ := new_height st strip;
              initialized_ := initialized_ st |})
    end.

(** Feeding a sequence of strips, as the pipeline's processing loop does;
    the statuses are returned in order. *)
Fixpoint addStrips (cv : OpenCV) (st : StripStitcher) (l : list ScanStrip)
  : list StatusCode * StripStitcher :=
  match l with
  | [] => ([], st)
  | s :: rest =>
      let '(code, st1) := addStrip cv st s in
      let '(codes, st2) := addStrips cv st1 rest in
      (code :: codes, st2)
  end.

(** Well-formed image: the buffer holds exactly
    [width * height * channels] samples. *)
Definition wf_image (img : Image) : Prop :=
  0 <= width img /\ 0 <= height img /\ 1 <= channels img /\
  Z.of_nat (length (data img)) = width img * height img * channels img.

End Stitcher.

(** ** cuda_warper.h / cuda_warper.cpp: the tile plan *)

(** [CudaWarper::Tile] *)
Module Tile.
Record t : Type := mk {
  x : Z;
  y : Z;
  width : Z;
  height : Z;
  overlap : Z
}.
End Tile.

Module Tiling.

(** Body of the inner loop of [generateTiles]. *)
Definition make_tile (config : GPUConfig) (width height x y : Z) : Tile.t :=
  {| Tile.x := x;
     Tile.y := y;
     Tile.width := Z.min (tile_width config) (width - x);
     Tile.height := Z.min (tile_height config) (height - y);
     Tile.overlap := tile_overlap config |}.

(** [for (int x = ...; x < width; x += (tile_w - overlap))].  The loop may
    run forever, so it is given fuel.  [None] means that the loop returns
    nothing: the fuel ran out, or the counter left the range of [int]. *)
Fixpoint tiles_row (fuel : nat) (config : GPUConfig) (width height y x : Z)
         (tiles : list Tile.t) : option (list Tile.t) :=
  if x <? width then
    match fuel with
    | O => None
    | S fuel' =>
        match advance x (tile_width config) (tile_overlap config) with
        | None => None
        | Some x' =>
            tiles_row fuel' config width height y x'
                      (tiles ++ [make_tile config width height x y])
        end
    end
  else Some tiles.

(** [for (int y = ...; y < height; y += (tile_h - overlap))] *)
Fixpoint tiles_rows (fuel : nat) (config : GPUConfig) (width height y : Z)
         (tiles : list Tile.t) : option (list Tile.t) :=
  if y <? height then
    match fuel with
    | O => None
    | S fuel' =>
        match tiles_row fuel' config width height y 0 tiles with
        | None => None
        | Some tiles' =>
            match advance y (tile_height config) (tile_overlap config) with
            | None => None
            | Some y' => tiles_rows fuel' config width height y' tiles'
            end
        end
    end
  else Some tiles.

(** [CudaWarper::generateTiles] *)
Definition generateTiles (fuel : nat) (config : GPUConfig) (width height : Z)
  : option (list Tile.t) :=
  tiles_rows fuel config width height 0 [].

(** The loop steps. *)
Definition step_x (config : GPUConfig) : Z :=
  tile_width config - tile_overlap config.
Definition step_y (config : GPUConfig) : Z :=
  tile_height config - tile_overlap config.

(** Number of iterations of a loop from 0 to [n] by [step]. *)
Definition steps (n step : Z) : Z := (n + step - 1) / step.

(** The value of the counter when such a loop ends: the first multiple of
    [step] that is not below [n]. *)
Definition counter_end (n step : Z) : Z := steps n step * step.

(** The plan in closed form: row-major, one tile per multiple of the
    steps. *)
Definition tile_plan (config : GPUConfig) (width height : Z) : list Tile.t :=
  seqZ 0 (steps height (step_y config)) ≫= fun j =>
    (fun i => make_tile config width height
                        (i * step_x config) (j * step_y config))
      <$> seqZ 0 (steps width (step_x config)).

(** The pixels a tile's warp result is written to by [warpImageTiled]: the
    whole extent of the tile. *)
Definition extent_covers (t : Tile.t) (px py : Z) : Prop :=
  Tile.x t <= px < Tile.x t + Tile.width t /\
  Tile.y t <= py < Tile.y t + Tile.height t.

Definition extent_coversb (px py : Z) (t : Tile.t) : bool :=
  (Tile.x t <=? px) && (px <? Tile.x t + Tile.width t)
  && (Tile.y t <=? py) && (py <? Tile.y t + Tile.height t).

(** The leading part of a tile, up to where the next tile starts. *)
Definition cell_covers (config : GPUConfig) (t : Tile.t) (px py : Z) : Prop :=
  Tile.x t <= px < Tile.x t + step_x config /\
  Tile.y t <= py < Tile.y t + step_y config.

Definition in_image (width height : Z) (t : Tile.t) : Prop :=
  0 <= Tile.x t /\ 0 <= Tile.y t /\
  Tile.x t + Tile.width t <= width /\ Tile.y t + Tile.height t <= height.

(** [image_size_bytes] of [warpImage]: a float per sample; the direct path
    is taken when three such tensors (input, output, grid) fit.  (The code
    computes in [size_t]; the products are exact below 2^64.) *)
Definition tensor_bytes (w h c : Z) : Z := w * h * c * 4.
Definition working_set_bytes (w h c : Z) : Z := tensor_bytes w h c * 3.

End Tiling.

(** ** libtorch, as the warper sees it *)

(** Tensors of rank 3 over exact rationals (libtorch computes in binary32;
    the inputs of the examples below are chosen so that every intermediate
    value is exactly representable, or is multiplied by a zero sample).
    Shape errors ([c10::Error]) are not modelled: the displacement field is
    taken to have the size of the image. *)
Module Torch.

Record Tensor : Type := mkTensor {
  dim0 : Z;
  dim1 : Z;
  dim2 : Z;
  elem : Z -> Z -> Z -> Q
}.

Inductive Interpolation : Type := Bilinear | Nearest.

(** The meaning of the integer interpolation codes 0 and 1 passed to
    [torch::grid_sampler].  libtorch's enumeration is
    [{Bilinear, Nearest, Bicubic}] ([enum_torch]); the comments of
    cuda_warper.cpp read code 0 as nearest and code 1 as bilinear
    ([enum_commented]). *)
Record InterpolationCodes : Type := mkCodes {
  code0 : Interpolation;
  code1 : Interpolation
}.

Definition enum_torch : InterpolationCodes :=
  {| code0 := Bilinear; code1 := Nearest |}.
Definition enum_commented : InterpolationCodes :=
  {| code0 := Nearest; code1 := Bilinear |}.

(** [torch::linspace(-1, 1, n)[i]] *)
Definition linspace (n i : Z) : Q :=
  if n =? 1 then (-1)%Q
  else (-1 + inject_Z (2 * i) / inject_Z (n - 1))%Q.

(** [t.index({Slice(a0, b0), Slice(a1, b1), Slice(a2, b2)})]; bounds are
    clamped to the dimension. *)
Definition slice_dim (n a b : Z) : Z := Z.max 0 (Z.min b n - Z.min a n).

Definition slice (t : Tensor) (a0 b0 a1 b1 a2 b2 : Z) : Tensor :=
  {| dim0 := slice_dim (dim0 t) a0 b0;
     dim1 := slice_dim (dim1 t) a1 b1;
     dim2 := slice_dim (dim2 t) a2 b2;
     elem := fun i j k => elem t (a0 + i) (a1 + j) (a2 + k) |}.

(** From a normalised coordinate in [-1, 1] to a pixel coordinate. *)
Definition unnormalize (coord : Q) (size : Z) (align_corners : bool) : Q :=
  if align_corners
  then ((coord + 1) / 2 * inject_Z (size - 1))%Q
  else (((coord + 1) * inject_Z size - 1) / 2)%Q.

(** [std::nearbyint]: to the nearest integer, ties to even. *)
Definition nearbyint (q : Q) : Z :=
  let f := Qfloor q in
  match (q - inject_Z f ?= 1 # 2)%Q with
  | Lt => f
  | Gt => f + 1
  | Eq => if Z.even f then f else f + 1
  end.

(** A sample of channel [c] at integer position, zero outside the input
    (padding mode "zeros"). *)
Definition sample_at (input : Tensor) (c ix iy : Z) : Q :=
  if (0 <=? ix) && (ix <? dim2 input) && (0 <=? iy) && (iy <? dim1 input)
  then elem input c iy ix else 0%Q.

Definition sample_nearest (input : Tensor) (c : Z) (ix iy : Q) : Q :=
  sample_at input c (nearbyint ix) (nearbyint iy).

Definition sample_bilinear (input : Tensor) (c : Z) (ix iy : Q) : Q :=
  let x0 := Qfloor ix in
  let y0 := Qfloor iy in
  let x1 := x0 + 1 in
  let y1 := y0 + 1 in
  let wx1 := (ix - inject_Z x0)%Q in
  let wx0 := (inject_Z x1 - ix)%Q in
  let wy1 := (iy - inject_Z y0)%Q in
  let wy0 := (inject_Z y1 - iy)%Q in
  (sample_at input c x0 y0 * (wx0 * wy0)
   + sample_at input c x1 y0 * (wx1 * wy0)
   + sample_at input c x0 y1 * (wx0 * wy1)
   + sample_at input c x1 y1 * (wx1 * wy1))%Q.

(** [torch::grid_sampler(input, grid, mode, 0, align_corners)] on an input
    [C, H, W] and a grid [H', W', 2] (batch dimension dropped): the output
    is [C, H', W']. *)
Definition grid_sampler (input grid : Tensor) (mode : Interpolation)
           (align_corners : bool) : Tensor :=
  {| dim0 := dim0 input;
     dim1 := dim0 grid;
     dim2 := dim1 grid;
     elem := fun c y x =>
       let ix := unnormalize (elem grid y x 0) (dim2 input) align_corners in
       let iy := unnormalize (elem grid y x 1) (dim1 input) align_corners in
       match mode with
       | Nearest => sample_nearest input c ix iy
       | Bilinear => sample_bilinear input c ix iy
       end |}.

End Torch.

(** ** cuda_warper.cpp: the warp *)

Module Warper.

Record CudaWarper : Type := mkCudaWarper {
  config_ : GPUConfig;
  initialized_ : bool;
  interpolation_mode_ : String.string
}.

Definition setInterpolationMode (w : CudaWarper) (mode : String.string)
  : CudaWarper :=
  {| config_ := config_ w; initialized_ := initialized_ w;
     interpolation_mode_ := mode |}.

(** [CudaWarper::imageToTensor] *)
Definition imageToTensor (img : Image) : Torch.Tensor :=
  {| Torch.dim0 := channels img;
     Torch.dim1 := height img;
     Torch.dim2 := width img;
     Torch.elem := fun c y x => (inject_Z (at_ img x y c) / 255)%Q |}.

(** [DeformationField::getDisplacement] *)
Definition getDisplacement (field : DeformationField) (x y : Z) : Q * Q :=
  let idx := y * field_width field + x in
  if idx <? 0 then (0%Q, 0%Q)
  else (default 0%Q (dx field !! Z.to_nat idx),
        default 0%Q (dy field !! Z.to_nat idx)).

(** [CudaWarper::deformationToTensor] *)
Definition deformationToTensor (field : DeformationField) : Torch.Tensor :=
  {| Torch.dim0 := field_height field;
     Torch.dim1 := field_width field;
     Torch.dim2 := 2;
     Torch.elem := fun y x k =>
       if k =? 0 then fst (getDisplacement field x y)
       else snd (getDisplacement field x y) |}.

(** [CudaWarper::createSamplingGrid] *)
Definition createSamplingGrid (height width : Z) (deformation : Torch.Tensor)
  : Torch.Tensor :=
  {| Torch.dim0 := height;
     Torch.dim1 := width;
     Torch.dim2 := 2;
     Torch.elem := fun y x k =>
       if k =? 0
       then (Torch.linspace width x
             + Torch.elem deformation y x 0 / (inject_Z width / 2))%Q
       else (Torch.linspace height y
             + Torch.elem deformation y x 1 / (inject_Z height / 2))%Q |}.

(** [static_cast<byte_t>(std::clamp(val, 0.0f, 255.0f))] *)
Definition clamp_to_byte (val : Q) : Z :=
  Qfloor (Qmax 0 (Qmin 255 val)).

(** The three nested loops [for c, for y, for x] writing into an image. *)
Definition for_cyx (nc ny nx : Z) (body : Image -> Z -> Z -> Z -> Image)
           (img : Image) : Image :=
  fold_left (fun img1 c =>
    fold_left (fun img2 y =>
      fold_left (fun img3 x => body img3 c y x) (seqZ 0 nx) img2)
      (seqZ 0 ny) img1)
    (seqZ 0 nc) img.

(** [CudaWarper::tensorToImage] *)
Definition tensorToImage (tensor : Torch.Tensor) : Image :=
  let C := Torch.dim0 tensor in
  let H := Torch.dim1 tensor in
  let W := Torch.dim2 tensor in
  for_cyx C H W
    (fun img c y x =>
       set_at img x y c (clamp_to_byte (Torch.elem tensor c y x * 255)%Q))
    (Image_new W H C 8).

(** The body of the [try] block of [warpImage]: the direct path. *)
Definition warp_direct (codes : Torch.InterpolationCodes) (w : CudaWarper)
           (input : Image) (deformation : DeformationField) : Image :=
  let input_tensor := imageToTensor input in
  let deformation_tensor := deformationToTensor deformation in
  let grid := createSamplingGrid (height input) (width input)
                                 deformation_tensor in
  let output_tensor :=
    if String.eqb (interpolation_mode_ w) "nearest"%string
    then Torch.grid_sampler input_tensor grid (Torch.code0 codes) false
    else Torch.grid_sampler input_tensor grid (Torch.code1 codes) true in
  tensorToImage output_tensor.

(** The body of the loop over tiles in [warpImageTiled]. *)
Definition warp_tile (codes : Torch.InterpolationCodes) (input : Image)
           (input_tensor deformation_tensor : Torch.Tensor)
           (output : Image) (tile : Tile.t) : Image :=
  let tile_input :=
    Torch.slice input_tensor
      0 (Torch.dim0 input_tensor)
      (Tile.y tile) (Tile.y tile + Tile.height tile)
      (Tile.x tile) (Tile.x tile + Tile.width tile) in
  let tile_deform :=
    Torch.slice deformation_tensor
      (Tile.y tile) (Tile.y tile + Tile.height tile)
      (Tile.x tile) (Tile.x tile + Tile.width tile)
      0 (Torch.dim2 deformation_tensor) in
  let tile_grid :=
    createSamplingGrid (Tile.height tile) (Tile.width tile) tile_deform in
  let tile_output :=
    Torch.grid_sampler tile_input tile_grid (Torch.code1 codes) true in
  for_cyx (channels input) (Tile.height tile) (Tile.width tile)
    (fun out c y x =>
       let out_x := Tile.x tile + x in
       let out_y := Tile.y tile + y in
       if (out_x <? width out) && (out_y <? height out)
       then set_at out out_x out_y c
              (clamp_to_byte (Torch.elem tile_output c y x * 255)%Q)
       else out)
    output.

(** [CudaWarper::warpImageTiled]; [None] when tile generation does not
    return. *)
Definition warpImageTiled (codes : Torch.InterpolationCodes) (fuel : nat)
           (w : CudaWarper) (input : Image) (deformation : DeformationField)
  : option (StatusCode * Image) :=
  match Tiling.generateTiles fuel (config_ w) (width input) (height input) with
  | None => None
  | Some tiles =>
      let output := Image_new (width input) (height input)
                              (channels input) (bit_depth input) in
      let input_tensor := imageToTensor input in
      let deformation_tensor := deformationToTensor deformation in
      Some (SUCCESS,
            fold_left (warp_tile codes input input_tensor deformation_tensor)
                      tiles output)
  end.

(** [CudaWarper::warpImage].  [free_bytes] is what [getMemoryInfo] reports;
    [output] is the caller's image, returned untouched on the error path. *)
Definition warpImage (codes : Torch.InterpolationCodes) (fuel : nat)
           (w : CudaWarper) (free_bytes : Z)
           (input : Image) (deformation : DeformationField) (output : Image)
  : option (StatusCode * Image) :=
  if negb (initialized_ w) then Some (ERROR_INVALID_CONFIG, output)
  else
    let image_size_bytes :=
      Tiling.tensor_bytes (width input) (height input) (channels input) in
    if free_bytes <? image_size_bytes * 3
    then warpImageTiled codes fuel w input deformation
    else Some (SUCCESS, warp_direct codes w input deformation).

End Warper.

(** ** Predicates and reference definitions used in the statements *)

(** Same geometry and buffer length. *)
Definition same_shape (a b : Image) : Prop :=
  width a = width b /\ height a = height b /\ channels a = channels b /\
  bit_depth a = bit_depth b /\ length (data a) = length (data b).
(** Two buffers hold the same bytes at every index below [b]. *)
Definition agree_below (b : Z) (d1 d2 : list Z) : Prop :=
  forall i, i < b -> Buffer.get d1 i = Buffer.get d2 i.
(** [cv::phaseCorrelate] begins with
    [CV_Assert(src1.type() == CV_32FC1 || src1.type() == CV_64FC1)]
    (OpenCV, imgproc/phasecorr.cpp; its documentation asks for
    floating-point arrays).  Every [Mat] of this model is a CV_8UC1
    header, as [phaseCorrelation] builds them, so a library that makes the
    assertion raises on every call the stitcher makes. *)
Definition asserts_float_input (cv : OpenCV) : Prop :=
  forall a b, phaseCorrelate cv a b = None.
(** A library that raises on a first band without rows; one that makes
    the assertion above does. *)
Definition raises_on_empty (cv : OpenCV) : Prop :=
  forall a b, rows a = 0 -> phaseCorrelate cv a b = None.
(** All samples of the image are equal (zero variance). *)
Definition is_blank (img : Image) : bool :=
  match data img with
  | [] => true
  | v :: rest => forallb (Z.eqb v) rest
  end.
(** The seam blend as section 4.3 of the specification words it, in exact
    arithmetic: [alpha = y / overlap_pixels] and
    [alpha * incoming + (1 - alpha) * existing], rounded to the nearest
    integer and clamped to 0..255.  It is the reference the code's
    [linear_blend] is compared with. *)
Definition seam_blend_spec (y overlap incoming existing : Z) : Z :=
  let num := y * incoming + (overlap - y) * existing in
  Z.max 0 (Z.min 255 ((2 * num + overlap) / (2 * overlap))).
(** ** Concrete inputs used in the examples *)

(** *** Library behaviours *)

(** A library that finds a perfect match at zero shift, and one whose
    correlation score is 0. *)
Definition cv_accept : OpenCV :=
  {| phaseCorrelate := fun _ _ => Some (0%Q, 0%Q);
     matchTemplate_max := fun _ _ => Some 1%Q |}.
Definition cv_reject : OpenCV :=
  {| phaseCorrelate := fun _ _ => Some (0%Q, 0%Q);
     matchTemplate_max := fun _ _ => Some 0%Q |}.
(** A library that raises [cv::Exception] on an empty matrix and otherwise
    reports a perfect match at zero shift. *)
Definition cv_accept_nonempty : OpenCV :=
  {| phaseCorrelate := fun a _ =>
       if (rows a <=? 0) || (cols a <=? 0) then None else Some (0%Q, 0%Q);
     matchTemplate_max := fun a _ =>
       if (rows a <=? 0) || (cols a <=? 0) then None else Some 1%Q |}.
(** A library whose [phaseCorrelate] makes the type assertion, and so
    raises on the 8-bit bands; [matchTemplate], which takes 8-bit input,
    would report a perfect match. *)
Definition cv_type_checked : OpenCV :=
  {| phaseCorrelate := fun _ _ => None;
     matchTemplate_max := fun _ _ => Some 1%Q |}.
(** *** Images, strips and stitchers *)

(** A single-channel [w] x [h] image whose sample at (x, y) is
    [(base + x + y) mod 256]. *)
Definition gradient_image (w h base : Z) : Image :=
  {| data := flat_map (fun y => map (fun x => (base + x + y) mod 256)
                                    (seqZ 0 w))
                      (seqZ 0 h);
     width := w; height := h; channels := 1; bit_depth := 8 |}.
Definition gradient_strip (w h id : Z) : ScanStrip :=
  {| image := gradient_image w h id; strip_id := id;
     physical_position := 0; is_left_to_right := true |}.
(** A single-channel [w] x [h] image of constant value [v], and a strip
    carrying it. *)
Definition constant_image (w h v : Z) : Image :=
  {| data := replicate (Z.to_nat (w * h)) v;
     width := w; height := h; channels := 1; bit_depth := 8 |}.
Definition constant_strip (w h v id : Z) : ScanStrip :=
  {| image := constant_image w h v; strip_id := id;
     physical_position := 0; is_left_to_right := true |}.
Definition params_with_overlap (n : Z) : ScanningParams :=
  {| max_length_mm := 1800; strip_width_mm := 42;
     overlap_pixels := n; bidirectional := true |}.
(** An initialized stitcher with the given overlap, and the same after its
    first strip (4 x 3 samples). *)
Definition stitcher_with_overlap (n : Z) : Stitcher.StripStitcher :=
  snd (Stitcher.initialize Stitcher.StripStitcher_new (params_with_overlap n)).
Definition seeded_stitcher (n : Z) : Stitcher.StripStitcher :=
  snd (Stitcher.addStrip cv_accept (stitcher_with_overlap n)
                         (gradient_strip 4 3 0)).
(** An initialized stitcher with overlap [n] whose first strip is the
    constant strip [w] x [h] of value [v]. *)
Definition constant_seeded_stitcher (n w h v : Z) : Stitcher.StripStitcher :=
  snd (Stitcher.addStrip cv_accept (stitcher_with_overlap n)
                         (constant_strip w h v 0)).
(** The end-to-end scenario of the specification: five strips of
    100 x 50 samples with gradient content, [overlap_pixels = 10] and a
    correlation threshold of 0.5. *)
Definition scenario_strips : list ScanStrip :=
  gradient_strip 100 50 <$> [0; 1; 2; 3; 4].
Definition scenario_stitcher : Stitcher.StripStitcher :=
  Stitcher.setCorrelationThreshold (stitcher_with_overlap 10) (1 # 2).
(** *** Warper configurations, fields and images *)

(** The tiling scenario of the specification: 4096 x 4096 tiles with a halo
    of 128 and a budget of 64 MB. *)
Definition GPUConfig_64MB : GPUConfig :=
  {| device_id := 0; max_vram_bytes := 64 * 1024 * 1024;
     tile_width := 4096; tile_height := 4096; tile_overlap := 128;
     batch_size := 4 |}.

Definition GPUConfig_tiles (w h o : Z) : GPUConfig :=
  {| device_id := 0; max_vram_bytes := 15 * 1024 * 1024 * 1024;
     tile_width := w; tile_height := h; tile_overlap := o;
     batch_size := 4 |}.

(** [DeformationField(w, h)]: all displacements zero. *)
Definition zero_field (w h : Z) : DeformationField :=
  {| dx := replicate (Z.to_nat (w * h)) 0%Q;
     dy := replicate (Z.to_nat (w * h)) 0%Q;
     field_width := w; field_height := h |}.
(** An initialized warper with the given tiles and interpolation mode. *)
Definition warper_with (config : GPUConfig) (mode : String.string)
  : Warper.CudaWarper :=
  {| Warper.config_ := config; Warper.initialized_ := true;
     Warper.interpolation_mode_ := mode |}.
(** The failing input of the tiled warp: a 5 x 1 image whose only non-zero
    sample is 255 at x = 3, and a field that moves pixel 1 by 2.5 to the
    right. *)
Definition one_row_image : Image :=
  {| data := [0; 0; 0; 255; 0];
     width := 5; height := 1; channels := 1; bit_depth := 8 |}.
Definition one_row_field : DeformationField :=
  {| dx := [0; 5 # 2; 0; 0; 0]%Q; dy := [0; 0; 0; 0; 0]%Q;
     field_width := 5; field_height := 1 |}.
(** ** Further code of types.h, strip_stitcher.cpp and cuda_warper.cpp *)

(** Coordinates that address a sample of the image. *)
Definition in_bounds (img : Image) (x y c : Z) : Prop :=
  0 <= x < width img /\ 0 <= y < height img /\ 0 <= c < channels img.

(** Every sample is a byte. *)
Definition bytes (d : list Z) : Prop := Forall (fun v => 0 <= v <= 255) d.

(** [DeformationField::setDisplacement] *)
Definition setDisplacement (field : DeformationField) (x y : Z) (in_dx in_dy : Q)
  : DeformationField :=
  let idx := y * field_width field + x in
  if idx <? 0 then field
  else {| dx := <[Z.to_nat idx := in_dx]> (dx field);
          dy := <[Z.to_nat idx := in_dy]> (dy field);
          field_width := field_width field;
          field_height := field_height field |}.

(** A field whose two vectors hold [width * height] displacements. *)
Definition wf_field (field : DeformationField) : Prop :=
  0 <= field_width field /\ 0 <= field_height field /\
  Z.of_nat (length (dx field)) = field_width field * field_height field /\
  Z.of_nat (length (dy field)) = field_width field * field_height field.

(** A well-formed field of the size of the image, as the tensor
    operations of the warp need it. *)
Definition field_matches (img : Image) (field : DeformationField) : Prop :=
  wf_field field /\
  field_width field = width img /\ field_height field = height img.

(** [status == StatusCode::SUCCESS] *)
Definition is_SUCCESS (code : StatusCode) : bool :=
  match code with SUCCESS => true | _ => false end.

(** The strips of a run that [addStrip] answered with [SUCCESS]. *)
Fixpoint accepted_strips (codes : list StatusCode) (l : list ScanStrip)
  : list ScanStrip :=
  match codes, l with
  | SUCCESS :: codes', s :: l' => s :: accepted_strips codes' l'
  | _ :: codes', _ :: l' => accepted_strips codes' l'
  | _, _ => []
  end.

(** *** cuda_warper.cpp, continued *)

(** The conversions between images and tensors, with the binary32 elements
    the code has. *)
Module TensorF32.

Record Tensor : Type := mkTensor {
  dim0 : Z;
  dim1 : Z;
  dim2 : Z;
  elem : Z -> Z -> Z -> Float32.float
}.

(** [CudaWarper::imageToTensor]: [image.at(x, y, c) / 255.0f] *)
Definition imageToTensor (img : Image) : Tensor :=
  {| dim0 := channels img;
     dim1 := height img;
     dim2 := width img;
     elem := fun c y x =>
       Float32.div (Float32.of_int (at_ img x y c)) (Float32.of_int 255) |}.

(** [std::clamp(v, lo, hi)]: [(v < lo) ? lo : (hi < v) ? hi : v] *)
Definition clamp (v lo hi : Float32.float) : Float32.float :=
  if SFltb v lo then lo else if SFltb hi v then hi else v.

(** [static_cast<byte_t>(std::clamp(val, 0.0f, 255.0f))] *)
Definition clamp_to_byte (val : Float32.float) : Z :=
  Float32.to_byte (clamp val (Float32.of_int 0) (Float32.of_int 255)).

(** [CudaWarper::tensorToImage] *)
Definition tensorToImage (tensor : Tensor) : Image :=
  let C := dim0 tensor in
  let H := dim1 tensor in
  let W := dim2 tensor in
  Warper.for_cyx C H W
    (fun img c y x =>
       set_at img x y c
              (clamp_to_byte (Float32.mul (elem tensor c y x)
                                          (Float32.of_int 255))))
    (Image_new W H C 8).

End TensorF32.

(** The copy loop that ends the body of the loop over tiles in
    [warpImageTiled]; [tile_output] is what [torch::grid_sampler] returned
    for the tile. *)
Definition copy_tile (nc : Z) (tile_output : TensorF32.Tensor)
           (output : Image) (tile : Tile.t) : Image :=
  Warper.for_cyx nc (Tile.height tile) (Tile.width tile)
    (fun out c y x =>
       let out_x := Tile.x tile + x in
       let out_y := Tile.y tile + y in
       if (out_x <? width out) && (out_y <? height out)
       then set_at out out_x out_y c
              (TensorF32.clamp_to_byte
                 (Float32.mul (TensorF32.elem tile_output c y x)
                              (Float32.of_int 255)))
       else out)
    output.

(** [CudaWarper::warpImageTiled] with the calls into libtorch left open:
    [sampler tile] stands for the tensor that the two slices,
    [createSamplingGrid] and [torch::grid_sampler] produce for the tile
    from the input and the displacement field, whatever its elements
    are. *)
Definition warpImageTiled_with (sampler : Tile.t -> TensorF32.Tensor)
           (fuel : nat) (w : Warper.CudaWarper) (input : Image)
  : option (StatusCode * Image) :=
  match Tiling.generateTiles fuel (Warper.config_ w)
                             (width input) (height input) with
  | None => None
  | Some tiles =>
      let output := Image_new (width input) (height input)
                              (channels input) (bit_depth input) in
      Some (SUCCESS,
            fold_left (fun out tile =>
                         copy_tile (channels input) (sampler tile) out tile)
                      tiles output)
  end.

(** *** strip_stitcher.cpp, continued *)

(** [StripStitcher::linearBlend] on the two buffers *)
Definition linearBlend (target_ptr source_ptr : list Z) (width height : Z)
           (alpha : Float32.float) : list Z :=
  fold_left (fun target i =>
               Buffer.set target i
                 (Stitcher.linear_blend alpha (Buffer.get source_ptr i)
                                        (Buffer.get target i)))
            (seqZ 0 (width * height)) target_ptr.

(** ** printer_interface.h / printer_interface.cpp *)

Module Printer.

(** The operating system and the printer DLL, as the interface sees them.
    A handle or function pointer is a number; [None] is the null
    pointer. *)
Record DLL : Type := mkDLL {
  (** [LoadLibraryA(path)] *)
  LoadLibraryA : string -> option Z;
  (** [GetProcAddress(handle, name)] *)
  GetProcAddress : Z -> string -> option Z;
  (** the [int] a loaded [SendImage] returns for an image *)
  call_SendImage : Z -> Image -> Z
}.

Record PrinterStatus : Type := mkPrinterStatus {
  connected : bool;
  printing : bool;
  queue_size : Z;
  last_error : string
}.

Record PrinterInterface : Type := mkPrinterInterface {
  dll_handle_ : option Z;
  send_image_func_ : option Z;
  get_status_func_ : option Z;
  initialized_ : bool;
  status_ : PrinterStatus
}.

(** [PrinterInterface()] *)
Definition PrinterInterface_new : PrinterInterface :=
  {| dll_handle_ := None;
     send_image_func_ := None;
     get_status_func_ := None;
     initialized_ := false;
     status_ := {| connected := false; printing := false;
                   queue_size := 0; last_error := "" |} |}.

(** [PrinterInterface::close] *)
Definition close (p : PrinterInterface) : PrinterInterface :=
  {| dll_handle_ := None;
     send_image_func_ := send_image_func_ p;
     get_status_func_ := get_status_func_ p;
     initialized_ := false;
     status_ := {| connected := false;
                   printing := printing (status_ p);
                   queue_size := queue_size (status_ p);
                   last_error := last_error (status_ p) |} |}.

(** [PrinterInterface::initialize] *)
Definition initialize (dll : DLL) (p : PrinterInterface)
           (dll_path config_file : string)
  : StatusCode * PrinterInterface :=
  match LoadLibraryA dll dll_path with
  | None => (ERROR_PRINTER_COMMUNICATION, p)
  | Some h =>
      let p1 :=
        {| dll_handle_ := Some h;
           send_image_func_ := GetProcAddress dll h "SendImage";
           get_status_func_ := GetProcAddress dll h "GetStatus";
           initialized_ := initialized_ p;
           status_ := status_ p |} in
      match send_image_func_ p1, get_status_func_ p1 with
      | Some _, Some _ =>
          (SUCCESS,
           {| dll_handle_ := dll_handle_ p1;
              send_image_func_ := send_image_func_ p1;
              get_status_func_ := get_status_func_ p1;
              initialized_ := true;
              status_ := {| connected := true;
                            printing := printing (status_ p1);
                            queue_size := queue_size (status_ p1);
                            last_error := last_error (status_ p1) |} |})
      | _, _ => (ERROR_PRINTER_COMMUNICATION, close p1)
      end
  end.

(** [PrinterInterface::sendImage]; [None] is a call through a null
    function pointer. *)
Definition sendImage (dll : DLL) (p : PrinterInterface) (image : Image)
  : option StatusCode :=
  if negb (initialized_ p) then Some ERROR_PRINTER_COMMUNICATION
  else
    match send_image_func_ p with
    | None => None
    | Some f =>
        if call_SendImage dll f image =? 0 then Some SUCCESS
        else Some ERROR_PRINTER_COMMUNICATION
    end.

(** [PrinterInterface::isReady] *)
Definition isReady (p : PrinterInterface) : bool :=
  initialized_ p && connected (status_ p) && negb (printing (status_ p)).

(** [PrinterInterface::getStatus] *)
Definition getStatus (p : PrinterInterface) : PrinterStatus := status_ p.

(** The interfaces a program can hold: a fresh one, and what
    [initialize] and [close] make of one ([sendImage], [isReady] and
    [getStatus] change nothing). *)
Inductive reachable (dll : DLL) : PrinterInterface -> Prop :=
| reachable_new : reachable dll PrinterInterface_new
| reachable_initialize p dll_path config_file :
    reachable dll p ->
    reachable dll (snd (initialize dll p dll_path config_file))
| reachable_close p :
    reachable dll p -> reachable dll (close p).

End Printer.

(** What [initialize] and [close] maintain: [connected] follows
    [initialized_], [printing] is never set, and an initialized interface
    holds the library handle and both function pointers. *)
Definition printer_invariant (p : Printer.PrinterInterface) : Prop :=
  Printer.connected (Printer.status_ p) = Printer.initialized_ p /\
  Printer.printing (Printer.status_ p) = false /\
  (Printer.initialized_ p = true ->
   is_Some (Printer.dll_handle_ p) /\
   is_Some (Printer.send_image_func_ p) /\
   is_Some (Printer.get_status_func_ p)).

(** ** image_processor.h / image_processor.cpp *)

Module Preprocessing.

(** The OpenCV filters, as the processor sees them: the output matrix, or
    [None] for a thrown [cv::Exception]. *)
Record Filters : Type := mkFilters {
  (** [cv::GaussianBlur(src, dst, Size(k, k), sigma)] *)
  GaussianBlur : Mat -> Z -> Float64.float -> option Mat;
  (** [cv::bilateralFilter(src, dst, d, sigmaColor, sigmaSpace)] *)
  bilateralFilter : Mat -> Z -> Float64.float -> Float64.float -> option Mat;
  (** [cv::medianBlur(src, dst, ksize)] *)
  medianBlur : Mat -> Z -> option Mat;
  (** [cv::equalizeHist(src, dst)] *)
  equalizeHist : Mat -> option Mat;
  (** [cv::normalize(src, dst, 0, 255, cv::NORM_MINMAX)] *)
  normalize_minmax : Mat -> option Mat
}.

(** [output = Image<byte_t>(m.cols, m.rows, 1, 8)] followed by
    [memcpy(output.ptr(), m.data, output.size())] *)
Definition image_of_mat (m : Mat) : Image :=
  let output := Image_new (cols m) (rows m) 1 8 in
  with_data output
    (Buffer.memcpy (length (data output)) (data output) 0 (pixels m) 0).

(** [if (kernel_size % 2 == 0) kernel_size++] *)
Definition make_odd (kernel_size : Z) : Z :=
  if Z.rem kernel_size 2 =? 0 then kernel_size + 1 else kernel_size.

(** [static_cast<int>(6 * sigma + 1)], computed in binary64 and made
    odd *)
Definition gaussian_kernel_size (sigma : Float64.float) : Z :=
  make_odd (Float64.to_int
              (Float64.add (Float64.mul (Float64.of_int 6) sigma)
                           (Float64.of_int 1))).

(** [ImageProcessor::gaussianBlur]; the second component is [output]
    after the call. *)
Definition gaussianBlur (cv : Filters) (input output : Image)
           (sigma : Float64.float) : StatusCode * Image :=
  match GaussianBlur cv (Mat_of_image input) (gaussian_kernel_size sigma)
                     sigma with
  | Some output_mat => (SUCCESS, image_of_mat output_mat)
  | None => (ERROR_UNKNOWN, output)
  end.

(** [ImageProcessor::bilateralFilter] *)
Definition bilateralFilter_ (cv : Filters) (input output : Image)
           (spatial_sigma intensity_sigma : Float64.float)
  : StatusCode * Image :=
  let d := Float64.to_int
             (Float64.add (Float64.mul (Float64.of_int 2) spatial_sigma)
                          (Float64.of_int 1)) in
  match bilateralFilter cv (Mat_of_image input) d intensity_sigma
                        spatial_sigma with
  | Some output_mat => (SUCCESS, image_of_mat output_mat)
  | None => (ERROR_UNKNOWN, output)
  end.

(** [ImageProcessor::medianFilter] *)
Definition medianFilter (cv : Filters) (input output : Image)
           (kernel_size : Z) : StatusCode * Image :=
  match medianBlur cv (Mat_of_image input) (make_odd kernel_size) with
  | Some output_mat => (SUCCESS, image_of_mat output_mat)
  | None => (ERROR_UNKNOWN, output)
  end.

(** [ImageProcessor::histogramEqualization] *)
Definition histogramEqualization (cv : Filters) (input output : Image)
  : StatusCode * Image :=
  match equalizeHist cv (Mat_of_image input) with
  | Some output_mat => (SUCCESS, image_of_mat output_mat)
  | None => (ERROR_UNKNOWN, output)
  end.

(** [ImageProcessor::histogramMatching] *)
Definition histogramMatching (input reference output : Image)
  : StatusCode * Image :=
  (SUCCESS, input).

(** [ImageProcessor::normalize] *)
Definition normalize (cv : Filters) (input output : Image)
  : StatusCode * Image :=
  match normalize_minmax cv (Mat_of_image input) with
  | Some output_mat => (SUCCESS, image_of_mat output_mat)
  | None => (ERROR_UNKNOWN, output)
  end.

Record PreprocessingConfig : Type := mkPreprocessingConfig {
  enable_gaussian : bool;
  gaussian_sigma : Float64.float;
  enable_bilateral : bool;
  bilateral_spatial_sigma : Float64.float;
  bilateral_intensity_sigma : Float64.float;
  enable_histogram_eq : bool;
  enable_normalize : bool
}.

(** One stage of [applyPipeline]: [if (enable) { if (f(temp, temp) !=
    SUCCESS) return ERROR_UNKNOWN; }].  [None] is the early return. *)
Definition stage (enable : bool) (f : Image -> Image -> StatusCode * Image)
           (temp : Image) : option Image :=
  if enable then
    let '(status, temp') := f temp temp in
    if is_SUCCESS status then Some temp' else None
  else Some temp.

(** [ImageProcessor::applyPipeline]; the second component is [output]
    after the call. *)
Definition applyPipeline (cv : Filters) (input output : Image)
           (config : PreprocessingConfig) : StatusCode * Image :=
  let temp := input in
  match stage (enable_gaussian config)
              (fun i o => gaussianBlur cv i o (gaussian_sigma config))
              temp with
  | None => (ERROR_UNKNOWN, output)
  | Some temp =>
  match stage (enable_bilateral config)
              (fun i o => bilateralFilter_ cv i o
                            (bilateral_spatial_sigma config)
                            (bilateral_intensity_sigma config))
              temp with
  | None => (ERROR_UNKNOWN, output)
  | Some temp =>
  match stage (enable_histogram_eq config) (histogramEqualization cv)
              temp with
  | None => (ERROR_UNKNOWN, output)
  | Some temp =>
  match stage (enable_normalize config) (normalize cv) temp with
  | None => (ERROR_UNKNOWN, output)
  | Some temp => (SUCCESS, temp)
  end end end end.

End Preprocessing.

(** An image built from an OpenCV result. *)
Definition from_mat (img : Image) : Prop :=
  exists m, img = Preprocessing.image_of_mat m.

(** ** gidel_camera.h / gidel_camera.cpp: [processBuffer] *)

Module CameraConfig.
Record t : Type := mk {
  width : Z;
  height : Z;
  frequency_hz : Z;
  bit_depth : Z;
  pixel_size_mm : Q;
  fov_width_mm : Q
}.
End CameraConfig.

Module Camera.

(** [fg::BUFFER_DATA] of the frame grabber's API: the fields
    [processBuffer] reads.  A handle is a number, 0 the null handle. *)
Record BUFFER_DATA : Type := mkBUFFER_DATA {
  pBuffer : list Z;
  BufferSizeBytes : Z;
  Offset : Z;
  BufferInfoWidth : Z;
  BufferInfoHeight : Z;
  hBuffer : Z
}.

(** The part of [GidelCamera] that [processBuffer] reads and writes, with
    the two function-local statics [prev_handle] and [has_prev], and the
    handles passed to [fg_api_->QueueBuffer] so far. *)
Record GidelCamera : Type := mkGidelCamera {
  config_ : CameraConfig.t;
  strip_queue_ : list ScanStrip;
  frames_received : Z;
  current_strip_id_ : Z;
  current_position_mm_ : Q;
  is_left_to_right_ : bool;
  prev_handle : Z;
  has_prev : bool;
  requeued : list Z
}.

(** [GidelCamera()] with a configuration *)
Definition GidelCamera_new (config : CameraConfig.t) : GidelCamera :=
  {| config_ := config;
     strip_queue_ := [];
     frames_received := 0;
     current_strip_id_ := 0;
     current_position_mm_ := 0;
     is_left_to_right_ := true;
     prev_handle := 0;
     has_prev := false;
     requeued := [] |}.

(** The strip image built by [processBuffer]: a single-channel image of
    the frame's size holding the first
    [min(BufferSizeBytes, image.size())] bytes of the buffer from
    [Offset]. *)
Definition strip_image (cam : GidelCamera) (buffer_info : BUFFER_DATA)
  : Image :=
  let fresh := Image_new (BufferInfoWidth buffer_info)
                         (BufferInfoHeight buffer_info) 1
                         (CameraConfig.bit_depth (config_ cam)) in
  with_data fresh
    (Buffer.memcpy
       (Z.to_nat (Z.min (BufferSizeBytes buffer_info)
                        (Z.of_nat (length (data fresh)))))
       (data fresh) 0 (pBuffer buffer_info) (Offset buffer_info)).

(** [GidelCamera::processBuffer] (the frame-rate statistic, which reads
    the clock, is left out) *)
Definition processBuffer (cam : GidelCamera) (buffer_info : BUFFER_DATA)
  : GidelCamera :=
  let strip :=
    {| image := strip_image cam buffer_info;
       strip_id := current_strip_id_ cam;
       physical_position := current_position_mm_ cam;
       is_left_to_right := is_left_to_right_ cam |} in
  {| config_ := config_ cam;
     strip_queue_ := strip_queue_ cam ++ [strip];
     frames_received := frames_received cam + 1;
     current_strip_id_ := current_strip_id_ cam + 1;
     current_position_mm_ :=
       (current_position_mm_ cam
        + CameraConfig.fov_width_mm (config_ cam))%Q;
     is_left_to_right_ := is_left_to_right_ cam;
     prev_handle := hBuffer buffer_info;
     has_prev := true;
     requeued :=
       if has_prev cam && negb (prev_handle cam =? 0)
       then requeued cam ++ [prev_handle cam]
       else requeued cam |}.

(** The grabber's callback, once per delivered buffer. *)
Definition processBuffers (cam : GidelCamera) (buffers : list BUFFER_DATA)
  : GidelCamera :=
  fold_left processBuffer buffers cam.

(** The strips the callbacks appended to the queue. *)
Definition delivered (cam : GidelCamera) (buffers : list BUFFER_DATA)
  : list ScanStrip :=
  drop (length (strip_queue_ cam))
       (strip_queue_ (processBuffers cam buffers)).

End Camera.

(** ** elastix_wrapper.h / elastix_wrapper.cpp *)

Module Elastix.

Record RegistrationParams : Type := mkRegistrationParams {
  pyramid_levels : Z;
  pyramid_schedule : list Z;
  bspline_grid_spacing : Z;
  max_iterations : Z;
  optimizer_type : string;
  metric_type : string;
  sampling_percentage : Q
}.

Record RegistrationResult : Type := mkRegistrationResult {
  deformation : DeformationField;
  metric_value : Q;
  iterations : Z;
  elapsed_time_ms : Q;
  success : bool;
  error_message : string
}.

Record ElastixWrapper : Type := mkElastixWrapper {
  params_ : RegistrationParams;
  parameter_map_ : gmap string string;
  initialized_ : bool
}.

(** [ElastixWrapper::setParameter] *)
Definition setParameter (e : ElastixWrapper) (key value : string)
  : ElastixWrapper :=
  {| params_ := params_ e;
     parameter_map_ := <[key := value]> (parameter_map_ e);
     initialized_ := initialized_ e |}.

(** [ElastixWrapper::getParameterMap] *)
Definition getParameterMap (e : ElastixWrapper) : gmap string string :=
  parameter_map_ e.

(** [ElastixWrapper::generateParameterMaps]; [std::to_string] of an [int]
    is its decimal notation. *)
Definition generateParameterMaps (e : ElastixWrapper) : ElastixWrapper :=
  let p := params_ e in
  {| params_ := p;
     parameter_map_ :=
       <["MaximumNumberOfIterations" := pretty (max_iterations p)]>
       (<["GridSpacingSchedule" := pretty (bspline_grid_spacing p)]>
       (<["FinalBSplineInterpolationOrder" := "3"]>
       (<["NumberOfResolutions" := pretty (pyramid_levels p)]>
       (<["Optimizer" := optimizer_type p]>
       (<["Metric" := metric_type p]>
       (<["Transform" := "BSplineTransform"]>
       (<["Registration" := "MultiResolutionRegistration"]>
          (parameter_map_ e))))))));
     initialized_ := initialized_ e |}.

(** [ElastixWrapper::initialize] *)
Definition initialize (e : ElastixWrapper) (params : RegistrationParams)
  : StatusCode * ElastixWrapper :=
  let e1 := generateParameterMaps
              {| params_ := params;
                 parameter_map_ := parameter_map_ e;
                 initialized_ := initialized_ e |} in
  (SUCCESS,
   {| params_ := params_ e1;
      parameter_map_ := parameter_map_ e1;
      initialized_ := true |}).

(** [ElastixWrapper::registerImages]; [elapsed] is the measured time, the
    second component is [result] after the call. *)
Definition registerImages (e : ElastixWrapper) (elapsed : Q)
           (fixed moving : Image) (result : RegistrationResult)
  : StatusCode * RegistrationResult :=
  if negb (initialized_ e) then (ERROR_INVALID_CONFIG, result)
  else
    (SUCCESS,
     {| deformation := zero_field (width fixed) (height fixed);
        metric_value := 95 # 100;
        iterations := max_iterations (params_ e);
        elapsed_time_ms := elapsed;
        success := true;
        error_message := error_message result |}).

(** [ElastixWrapper::applyTransform] *)
Definition applyTransform (e : ElastixWrapper) (input output : Image)
  : StatusCode * Image :=
  (SUCCESS, input).

(** The keys [generateParameterMaps] assigns. *)
Definition generated_keys : list string :=
  ["Registration"; "Transform"; "Metric"; "Optimizer";
   "NumberOfResolutions"; "FinalBSplineInterpolationOrder";
   "GridSpacingSchedule"; "MaximumNumberOfIterations"].

(** [ElastixWrapper()] *)
Definition ElastixWrapper_new (params : RegistrationParams)
  : ElastixWrapper :=
  {| params_ := params; parameter_map_ := ∅; initialized_ := false |}.

(** [RegistrationParams()] and [RegistrationResult()] *)
Definition RegistrationParams_default : RegistrationParams :=
  {| pyramid_levels := 5; pyramid_schedule := [8; 4; 2; 1; 1];
     bspline_grid_spacing := 50; max_iterations := 500;
     optimizer_type := "LBFGS"; metric_type := "MutualInformation";
     sampling_percentage := 25 # 100 |}.

Definition RegistrationResult_default : RegistrationResult :=
  {| deformation := {| dx := []; dy := []; field_width := 0;
                       field_height := 0 |};
     metric_value := 0; iterations := 0; elapsed_time_ms := 0;
     success := false; error_message := "" |}.

End Elastix.

(** *** A printer DLL *)

(** A system in which "printer.dll" loads and exports both functions,
    "other.dll" loads but exports nothing, and no other library loads;
    the printer takes every image. *)
Definition dll_loads : Printer.DLL :=
  {| Printer.LoadLibraryA := fun path =>
       if String.eqb path "printer.dll" then Some 1
       else if String.eqb path "other.dll" then Some 2 else None;
     Printer.GetProcAddress := fun h name =>
       if h =? 1 then
         if String.eqb name "SendImage" then Some 11
         else if String.eqb name "GetStatus" then Some 12 else None
       else None;
     Printer.call_SendImage := fun _ _ => 0 |}.

(** *** A camera and a frame *)

Definition camera_config_8bit : CameraConfig.t :=
  {| CameraConfig.width := 4096; CameraConfig.height := 1;
     CameraConfig.frequency_hz := 10000; CameraConfig.bit_depth := 8;
     CameraConfig.pixel_size_mm := 10256 # 1000000;
     CameraConfig.fov_width_mm := 42 |}.

(** A 3 x 2 frame of which the grabber filled three bytes, behind two
    bytes of header. *)
Definition short_frame : Camera.BUFFER_DATA :=
  {| Camera.pBuffer := [1; 2; 7; 8; 9; 10; 11];
     Camera.BufferSizeBytes := 3;
     Camera.Offset := 2;
     Camera.BufferInfoWidth := 3;
     Camera.BufferInfoHeight := 2;
     Camera.hBuffer := 5 |}.

(** *** Exhaustive checks over a range of integers *)

(** [f] holds on the [n] integers from [start] on. *)
Fixpoint all_from (n : nat) (start : Z) (f : Z -> bool) : bool :=
  match n with
  | O => true
  | S k => f start && all_from k (start + 1) f
  end.

(** A library that reports a shift of (0.75, -3.5) with a score of
    0.9. *)
Definition cv_shifted : OpenCV :=
  {| phaseCorrelate := fun _ _ => Some (3 # 4, - (7 # 2))%Q;
     matchTemplate_max := fun _ _ => Some (9 # 10)%Q |}.

(* ===================================================================== *)
(** * Part II: properties                                                 *)
(* ===================================================================== *)

(** ** Buffers *)

Section BufferFacts.

Implicit Types (d dst src : list Z) (i j a s v : Z) (n : nat).

Lemma get_neg d i : i < 0 -> Buffer.get d i = 0.
Proof. intros H. unfold Buffer.get. now rewrite (proj2 (Z.ltb_lt i 0) H). Qed.

Lemma get_ge d i : Z.of_nat (length d) <= i -> Buffer.get d i = 0.
Proof.
  intros H. unfold Buffer.get. destruct (i <? 0); [done|].
  rewrite lookup_ge_None_2; [done | lia].
Qed.

Lemma length_set d i v : length (Buffer.set d i v) = length d.
Proof. unfold Buffer.set. destruct (i <? 0); [done|]. apply length_insert. Qed.

Lemma get_set_eq d i v :
  0 <= i < Z.of_nat (length d) -> Buffer.get (Buffer.set d i v) i = v.
Proof.
  intros [H0 H1]. unfold Buffer.get, Buffer.set.
  rewrite (proj2 (Z.ltb_ge i 0) H0).
  rewrite list_lookup_insert_eq; [done | lia].
Qed.

Lemma get_set_ne d i j v :
  i <> j -> Buffer.get (Buffer.set d i v) j = Buffer.get d j.
Proof.
  intros Hne. unfold Buffer.get, Buffer.set.
  destruct (j <? 0) eqn:Hj; [done|].
  destruct (i <? 0) eqn:Hi; [done|].
  apply Z.ltb_ge in Hj, Hi.
  rewrite list_lookup_insert_ne; [done | lia].
Qed.

Lemma set_out_of_range d i v :
  i < 0 \/ Z.of_nat (length d) <= i -> Buffer.set d i v = d.
Proof.
  intros H. unfold Buffer.set. destruct (i <? 0) eqn:Hi; [done|].
  apply Z.ltb_ge in Hi. apply list_insert_ge. lia.
Qed.

Lemma length_memcpy n dst a src s :
  length (Buffer.memcpy n dst a src s) = length dst.
Proof.
  revert dst a s. induction n as [|k IH]; intros dst a s; simpl; [done|].
  now rewrite IH, length_set.
Qed.

(** What a [memcpy] leaves at every index of the destination. *)
Lemma get_memcpy n dst a src s i :
  Buffer.get (Buffer.memcpy n dst a src s) i =
  if (a <=? i) && (i <? a + Z.of_nat n) && (0 <=? i)
     && (i <? Z.of_nat (length dst))
  then Buffer.get src (s + (i - a))
  else Buffer.get dst i.
Proof.
  revert dst a s. induction n as [|k IH]; intros dst a s.
  - simpl. replace ((a <=? i) && (i <? a + Z.of_nat 0)) with false; [done|].
    symmetry. apply andb_false_iff.
    destruct (Z.leb_spec a i); [right | now left]. apply Z.ltb_ge. lia.
  - simpl Buffer.memcpy. rewrite IH, length_set.
    destruct (Z.eq_dec i a) as [->|Hne].
    + replace (a + 1 <=? a) with false by (symmetry; apply Z.leb_gt; lia).
      simpl. rewrite Z.leb_refl.
      replace (a <? a + Z.of_nat (S k)) with true
        by (symmetry; apply Z.ltb_lt; lia).
      simpl.
      destruct (Z.leb_spec 0 a); simpl.
      * destruct (Z.ltb_spec a (Z.of_nat (length dst))).
        -- rewrite get_set_eq by lia. f_equal. lia.
        -- rewrite set_out_of_range by lia. done.
      * rewrite set_out_of_range by lia. done.
    + rewrite get_set_ne by congruence.
      replace (a + 1 <=? i) with (a <=? i).
      2:{ destruct (Z.leb_spec a i), (Z.leb_spec (a + 1) i); lia || done. }
      replace (i <? a + 1 + Z.of_nat k) with (i <? a + Z.of_nat (S k)).
      2:{ destruct (Z.ltb_spec i (a + Z.of_nat (S k))),
                   (Z.ltb_spec i (a + 1 + Z.of_nat k)); lia || done. }
      destruct ((a <=? i) && (i <? a + Z.of_nat (S k)) && (0 <=? i)
                && (i <? Z.of_nat (length dst))); [|done].
      f_equal. lia.
Qed.

Lemma get_zeros (n : Z) i : Buffer.get (Buffer.zeros n) i = 0.
Proof.
  unfold Buffer.get, Buffer.zeros. destruct (i <? 0); [done|].
  destruct (replicate (Z.to_nat n) 0 !! Z.to_nat i) eqn:E; [|done].
  apply lookup_replicate in E as [-> _]. done.
Qed.

Lemma length_zeros (n : Z) : Z.of_nat (length (Buffer.zeros n)) = Z.max 0 n.
Proof. unfold Buffer.zeros. rewrite length_replicate. lia. Qed.

(** Two buffers of the same length with the same content are equal. *)
Lemma buffer_ext d1 d2 :
  length d1 = length d2 ->
  (forall i, 0 <= i < Z.of_nat (length d1) ->
             Buffer.get d1 i = Buffer.get d2 i) ->
  d1 = d2.
Proof.
  intros Hlen Hget. apply list_eq. intros k.
  destruct (Nat.lt_ge_cases k (length d1)) as [Hk|Hk].
  - specialize (Hget (Z.of_nat k) ltac:(lia)).
    unfold Buffer.get in Hget.
    replace (Z.of_nat k <? 0) with false in Hget
      by (symmetry; apply Z.ltb_ge; lia).
    rewrite Nat2Z.id in Hget.
    destruct (lookup_lt_is_Some_2 d1 k Hk) as [v1 E1].
    destruct (lookup_lt_is_Some_2 d2 k ltac:(lia)) as [v2 E2].
    rewrite E1, E2 in *. simpl in Hget. congruence.
  - rewrite !lookup_ge_None_2; [done | lia | lia].
Qed.

Lemma get_app_l d1 d2 i :
  i < Z.of_nat (length d1) -> Buffer.get (d1 ++ d2) i = Buffer.get d1 i.
Proof.
  intros H. unfold Buffer.get. destruct (i <? 0) eqn:Hi; [done|].
  apply Z.ltb_ge in Hi. rewrite lookup_app_l; [done | lia].
Qed.

Lemma get_app_r d1 d2 i :
  Z.of_nat (length d1) <= i ->
  Buffer.get (d1 ++ d2) i = Buffer.get d2 (i - Z.of_nat (length d1)).
Proof.
  intros H. unfold Buffer.get.
  replace (i <? 0) with false by (symmetry; apply Z.ltb_ge; lia).
  replace (i - Z.of_nat (length d1) <? 0) with false
    by (symmetry; apply Z.ltb_ge; lia).
  rewrite lookup_app_r by lia. do 2 f_equal. lia.
Qed.

End BufferFacts.

(** Closed comparisons between integers, by evaluation. *)
Ltac closed_Z :=
  vm_compute;
  repeat match goal with |- _ /\ _ => split end;
  first [ reflexivity | let H := fresh in intro H; discriminate H ].

(** A loop preserves whatever each of its iterations preserves. *)
Lemma fold_left_invariant {A B} (P : A -> Prop) (f : A -> B -> A)
      (l : list B) (a : A) :
  (forall a' x, x ∈ l -> P a' -> P (f a' x)) -> P a -> P (fold_left f l a).
Proof.
  revert a. induction l as [|x l IH]; intros a Hstep Ha; simpl; [done|].
  apply IH.
  - intros a' y Hy. apply Hstep. now right.
  - apply Hstep; [now left | done].
Qed.

(** ** The stitcher's image operations *)

Section StitcherImageFacts.

Implicit Types (img target source dst src : Image) (st : Stitcher.StripStitcher).

Lemma same_shape_refl img : same_shape img img.
Proof. repeat split. Qed.

Lemma same_shape_trans a b c :
  same_shape a b -> same_shape b c -> same_shape a c.
Proof.
  intros (?&?&?&?&?) (?&?&?&?&?). repeat split; congruence.
Qed.

Lemma same_shape_set_at img x y c v : same_shape (set_at img x y c v) img.
Proof. repeat split. simpl. apply length_set. Qed.

Lemma wf_image_same_shape a b :
  same_shape a b -> Stitcher.wf_image b -> Stitcher.wf_image a.
Proof.
  intros (Hw&Hh&Hc&_&Hl) (?&?&?&?). unfold Stitcher.wf_image.
  rewrite Hw, Hh, Hc, Hl. auto.
Qed.

(** The start of row [y] bounds from above the index of every sample of
    the rows before it. *)
Lemma index_before_row img x y c y0 :
  0 <= width img -> 1 <= channels img ->
  0 <= x < width img -> 0 <= c < channels img -> y < y0 ->
  index_of img x y c < index_of img 0 y0 0.
Proof.
  unfold index_of. intros Hw Hc Hx Hcc Hy.
  assert (y * width img + x + 1 <= y0 * width img) by nia.
  assert ((y * width img + x + 1) * channels img
          <= (y0 * width img) * channels img) by (apply Z.mul_le_mono_nonneg_r; lia).
  lia.
Qed.

Lemma index_row_monotone img x y y0 :
  0 <= width img -> 1 <= channels img -> 0 <= x -> y0 <= y ->
  index_of img 0 y0 0 <= index_of img x y 0.
Proof.
  unfold index_of. intros Hw Hc Hx Hy.
  assert (y0 * width img <= y * width img + x) by nia.
  assert ((y0 * width img) * channels img
          <= (y * width img + x) * channels img) by (apply Z.mul_le_mono_nonneg_r; lia).
  lia.
Qed.

(** *** Blending writes only at or after the start of row [offset_y]. *)

Lemma blend_pixel_frame alpha source offset_x target_y y target x b :
  0 <= width target -> 1 <= channels target ->
  b <= index_of target 0 target_y 0 ->
  let r := Stitcher.blend_pixel alpha source offset_x target_y y target x in
  same_shape r target /\ agree_below b (data r) (data target).
Proof.
  intros Hw Hc Hb. unfold Stitcher.blend_pixel. cbv zeta.
  destruct ((x + offset_x <? 0) || (width target <=? x + offset_x)) eqn:E.
  - split; [apply same_shape_refl | now intros i _].
  - apply orb_false_iff in E as [E1 E2].
    apply Z.ltb_ge in E1. apply Z.leb_gt in E2.
    split; [apply same_shape_set_at|].
    intros i Hi. simpl. apply get_set_ne.
    pose proof (index_row_monotone target (x + offset_x) target_y target_y
                  Hw Hc E1 (Z.le_refl _)).
    lia.
Qed.

Lemma blend_row_frame blend_height source offset_x offset_y target y b :
  0 <= width target -> 1 <= channels target -> 0 <= y ->
  b <= index_of target 0 offset_y 0 ->
  let r := Stitcher.blend_row blend_height source offset_x offset_y target y in
  same_shape r target /\ agree_below b (data r) (data target).
Proof.
  intros Hw Hc Hy Hb. unfold Stitcher.blend_row. cbv zeta.
  destruct ((offset_y + y <? 0) || (height target <=? offset_y + y)).
  { split; [apply same_shape_refl | now intros i _]. }
  apply (fold_left_invariant
           (fun r => same_shape r target /\ agree_below b (data r) (data target))).
  - intros a x _ [Hs Ha].
    destruct Hs as (Hsw&Hsh&Hsc&Hsb&Hsl).
    destruct (blend_pixel_frame (Stitcher.blend_alpha y blend_height) source
                offset_x (offset_y + y) y a x b) as [Hs' Ha'].
    + lia.
    + lia.
    + unfold index_of in *. rewrite Hsw, Hsc. nia.
    + split.
      * eapply same_shape_trans; [exact Hs' | repeat split; assumption].
      * intros i Hi. rewrite (Ha' i Hi). now apply Ha.
  - split; [apply same_shape_refl | now intros i _].
Qed.

Lemma blendOverlapRegion_frame st target source offset_x offset_y b :
  0 <= width target -> 1 <= channels target ->
  b <= index_of target 0 offset_y 0 ->
  let r := Stitcher.blendOverlapRegion st target source offset_x offset_y in
  same_shape r target /\ agree_below b (data r) (data target).
Proof.
  intros Hw Hc Hb. unfold Stitcher.blendOverlapRegion. cbv zeta.
  apply (fold_left_invariant
           (fun r => same_shape r target /\ agree_below b (data r) (data target))).
  - intros a y Hy [Hs Ha].
    apply elem_of_seqZ in Hy.
    destruct Hs as (Hsw&Hsh&Hsc&Hsb&Hsl).
    destruct (blend_row_frame (overlap_pixels (Stitcher.params_ st)) source
                offset_x offset_y a y b) as [Hs' Ha'].
    + lia.
    + lia.
    + lia.
    + unfold index_of in *. rewrite Hsw, Hsc. lia.
    + split.
      * eapply same_shape_trans; [exact Hs' | repeat split; assumption].
      * intros i Hi. rewrite (Ha' i Hi). now apply Ha.
  - split; [apply same_shape_refl | now intros i _].
Qed.

(** *** The simple copy writes only at or after the start of row
        [insert_y]. *)

Lemma same_shape_with_data img d :
  length d = length (data img) -> same_shape (with_data img d) img.
Proof. intros H. repeat split. exact H. Qed.

Lemma copy_row_frame src insert_y dst y b :
  0 <= width dst -> 1 <= channels dst -> 0 <= y ->
  b <= index_of dst 0 insert_y 0 ->
  let r := Stitcher.copy_row src insert_y dst y in
  same_shape r dst /\ agree_below b (data r) (data dst).
Proof.
  intros Hw Hc Hy Hb. unfold Stitcher.copy_row. cbv zeta.
  destruct ((0 <=? insert_y + y) && (insert_y + y <? height dst)).
  2:{ split; [apply same_shape_refl | now intros i _]. }
  split.
  - apply same_shape_with_data, length_memcpy.
  - intros i Hi. simpl. rewrite get_memcpy.
    replace (index_of dst 0 (insert_y + y) 0 <=? i) with false; [done|].
    symmetry. apply Z.leb_gt.
    pose proof (index_row_monotone dst 0 (insert_y + y) insert_y
                  Hw Hc (Z.le_refl _) ltac:(lia)).
    lia.
Qed.

Lemma simple_copy_frame dst src insert_y b :
  0 <= width dst -> 1 <= channels dst ->
  b <= index_of dst 0 insert_y 0 ->
  let r := Stitcher.simple_copy dst src insert_y in
  same_shape r dst /\ agree_below b (data r) (data dst).
Proof.
  intros Hw Hc Hb. unfold Stitcher.simple_copy. cbv zeta.
  apply (fold_left_invariant
           (fun r => same_shape r dst /\ agree_below b (data r) (data dst))).
  - intros a y Hy [Hs Ha].
    apply elem_of_seqZ in Hy.
    destruct Hs as (Hsw&Hsh&Hsc&Hsb&Hsl).
    destruct (copy_row_frame src insert_y a y b) as [Hs' Ha'].
    + lia.
    + lia.
    + lia.
    + unfold index_of in *. rewrite Hsw, Hsc. lia.
    + split.
      * eapply same_shape_trans; [exact Hs' | repeat split; assumption].
      * intros i Hi. rewrite (Ha' i Hi). now apply Ha.
  - split; [apply same_shape_refl | now intros i _].
Qed.

(** *** Expansion copies the whole old buffer. *)

Lemma expand_geometry img new_height :
  width (Stitcher.expand img new_height) = width img /\
  height (Stitcher.expand img new_height) = new_height /\
  channels (Stitcher.expand img new_height) = channels img /\
  bit_depth (Stitcher.expand img new_height) = bit_depth img.
Proof. repeat split. Qed.

Lemma expand_length img new_height :
  Z.of_nat (length (data (Stitcher.expand img new_height))) =
  Z.max 0 (width img * new_height * channels img).
Proof.
  unfold Stitcher.expand. simpl. rewrite length_memcpy. apply length_zeros.
Qed.

Lemma expand_get img new_height i :
  Stitcher.wf_image img -> height img < new_height ->
  Buffer.get (data (Stitcher.expand img new_height)) i = Buffer.get (data img) i.
Proof.
  intros (Hw&Hh&Hc&Hl) Hgrow. unfold Stitcher.expand. simpl.
  rewrite get_memcpy, length_zeros.
  destruct (Z.leb_spec 0 i); simpl.
  2:{ rewrite get_zeros. symmetry. apply get_neg. lia. }
  destruct (Z.ltb_spec i (0 + Z.of_nat (length (data img)))); simpl.
  - replace (i <? Z.max 0 (width img * new_height * channels img)) with true.
    + f_equal. lia.
    + symmetry. apply Z.ltb_lt. nia.
  - rewrite get_zeros. symmetry. apply get_ge. lia.
Qed.

Lemma expand_wf img new_height :
  Stitcher.wf_image img -> 0 <= new_height ->
  Stitcher.wf_image (Stitcher.expand img new_height).
Proof.
  intros (Hw&Hh&Hc&Hl) Hn. unfold Stitcher.wf_image.
  rewrite expand_length. destruct (expand_geometry img new_height) as (->&->&->&_).
  assert (0 <= width img * new_height * channels img) by nia.
  repeat split; lia.
Qed.

End StitcherImageFacts.

(** ** [addStrip] *)

Section AddStripFacts.

Variable cv : OpenCV.

Implicit Types (st : Stitcher.StripStitcher) (strip prev : ScanStrip).

(** The three paths of [addStrip] on an initialized stitcher. *)

Lemma addStrip_first st strip :
  Stitcher.initialized_ st = true -> last (Stitcher.strips_ st) = None ->
  Stitcher.addStrip cv st strip =
  (SUCCESS,
   {| Stitcher.params_ := Stitcher.params_ st;
      Stitcher.min_correlation_ := Stitcher.min_correlation_ st;
      Stitcher.blending_enabled_ := Stitcher.blending_enabled_ st;
      Stitcher.strips_ := Stitcher.strips_ st ++ [strip];
      Stitcher.stitched_image_ := image strip;
      Stitcher.last_alignment_ := Stitcher.last_alignment_ st;
      Stitcher.current_height_ := height (image strip);
      Stitcher.initialized_ := Stitcher.initialized_ st |}).
Proof. intros Hi Hl. unfold Stitcher.addStrip. now rewrite Hi, Hl. Qed.

Lemma addStrip_rejected st strip prev :
  Stitcher.initialized_ st = true -> last (Stitcher.strips_ st) = Some prev ->
  Stitcher.success (Stitcher.alignStrips cv st (image prev) (image strip))
    = false ->
  Stitcher.addStrip cv st strip =
  (ERROR_STITCHING_FAILED,
   {| Stitcher.params_ := Stitcher.params_ st;
      Stitcher.min_correlation_ := Stitcher.min_correlation_ st;
      Stitcher.blending_enabled_ := Stitcher.blending_enabled_ st;
      Stitcher.strips_ := Stitcher.strips_ st;
      Stitcher.stitched_image_ := Stitcher.stitched_image_ st;
      Stitcher.last_alignment_ :=
        Stitcher.alignStrips cv st (image prev) (image strip);
      Stitcher.current_height_ := Stitcher.current_height_ st;
      Stitcher.initialized_ := Stitcher.initialized_ st |}).
Proof.
  intros Hi Hl Hs. unfold Stitcher.addStrip. rewrite Hi, Hl. simpl.
  now rewrite Hs.
Qed.

Lemma addStrip_accepted st strip prev :
  Stitcher.initialized_ st = true -> last (Stitcher.strips_ st) = Some prev ->
  Stitcher.success (Stitcher.alignStrips cv st (image prev) (image strip))
    = true ->
  Stitcher.addStrip cv st strip =
  (SUCCESS,
   {| Stitcher.params_ := Stitcher.params_ st;
      Stitcher.min_correlation_ := Stitcher.min_correlation_ st;
      Stitcher.blending_enabled_ := Stitcher.blending_enabled_ st;
      Stitcher.strips_ := Stitcher.strips_ st ++ [strip];
      Stitcher.stitched_image_ :=
        Stitcher.fuse_strip st strip
          (Stitcher.alignStrips cv st (image prev) (image strip))
          (Stitcher.grow_composite st strip);
      Stitcher.last_alignment_ :=
        Stitcher.alignStrips cv st (image prev) (image strip);
      Stitcher.current_height_ := Stitcher.new_height st strip;
      Stitcher.initialized_ := Stitcher.initialized_ st |}).
Proof.
  intros Hi Hl Hs. unfold Stitcher.addStrip. rewrite Hi, Hl. simpl.
  now rewrite Hs.
Qed.

(** A successful call on a non-empty stitcher went through the accepting
    path. *)
Lemma addStrip_success_inv st strip st' :
  Stitcher.initialized_ st = true -> Stitcher.strips_ st <> [] ->
  Stitcher.addStrip cv st strip = (SUCCESS, st') ->
  exists prev,
    last (Stitcher.strips_ st) = Some prev /\
    Stitcher.success (Stitcher.alignStrips cv st (image prev) (image strip))
      = true.
Proof.
  intros Hi Hne Hadd.
  destruct (last (Stitcher.strips_ st)) as [prev|] eqn:Hl.
  2:{ apply last_None in Hl. contradiction. }
  exists prev. split; [done|].
  destruct (Stitcher.success
              (Stitcher.alignStrips cv st (image prev) (image strip))) eqn:Hs;
    [done|].
  rewrite (addStrip_rejected st strip prev Hi Hl Hs) in Hadd. discriminate.
Qed.

(** The growth step: geometry and content. *)
Lemma grow_composite_spec st strip :
  Stitcher.wf_image (Stitcher.stitched_image_ st) ->
  let old := Stitcher.stitched_image_ st in
  let grown := Stitcher.grow_composite st strip in
  width grown = width old /\ channels grown = channels old /\
  height grown = Z.max (height old) (Stitcher.new_height st strip) /\
  Stitcher.wf_image grown /\
  forall i, Buffer.get (data grown) i = Buffer.get (data old) i.
Proof.
  intros Hwf old grown. subst old grown. unfold Stitcher.grow_composite.
  destruct (Z.ltb_spec (height (Stitcher.stitched_image_ st))
                       (Stitcher.new_height st strip)) as [Hlt|Hge].
  - pose proof Hwf as (Hw&Hh&Hc&Hl).
    split; [done|]. split; [done|]. split; [simpl; lia|].
    split; [apply expand_wf; [done | lia]|].
    intros i. now apply expand_get.
  - split; [done|]. split; [done|]. split; [lia|]. split; done.
Qed.

(** The fusion step leaves the geometry alone and writes nothing before
    the start of row [insert_y]. *)
Lemma fuse_strip_frame st strip stats grown b :
  0 <= width grown -> 1 <= channels grown ->
  b <= index_of grown 0 (Stitcher.insert_y st) 0 ->
  same_shape (Stitcher.fuse_strip st strip stats grown) grown /\
  agree_below b (data (Stitcher.fuse_strip st strip stats grown)) (data grown).
Proof.
  intros Hw Hc Hb. unfold Stitcher.fuse_strip.
  destruct (Stitcher.blending_enabled_ st
            && (0 <? overlap_pixels (Stitcher.params_ st))).
  - now apply blendOverlapRegion_frame.
  - now apply simple_copy_frame.
Qed.

(** The composite buffer stays well formed. *)
Lemma addStrip_wf st strip :
  Stitcher.wf_image (Stitcher.stitched_image_ st) ->
  Stitcher.wf_image (image strip) ->
  Stitcher.wf_image (Stitcher.stitched_image_ (snd (Stitcher.addStrip cv st strip))).
Proof.
  intros Hwf Hws. unfold Stitcher.addStrip.
  destruct (Stitcher.initialized_ st); simpl; [|done].
  destruct (last (Stitcher.strips_ st)) as [prev|]; [|done].
  destruct (Stitcher.success _); simpl; [|done].
  destruct (grow_composite_spec st strip Hwf) as (Hgw&Hgc&Hgh&Hgwf&_).
  pose proof Hgwf as (Hw&_&Hc&_).
  destruct (fuse_strip_frame st strip
              (Stitcher.alignStrips cv st (image prev) (image strip))
              (Stitcher.grow_composite st strip)
              (index_of (Stitcher.grow_composite st strip) 0
                        (Stitcher.insert_y st) 0) Hw Hc (Z.le_refl _))
    as [Hs _].
  eapply wf_image_same_shape; eassumption.
Qed.

End AddStripFacts.

(** ** Claims about [addStrip] *)

(** C2.  On an initialized stitcher that already holds a strip, a new strip
    whose alignment reports [success == false] makes [addStrip] return
    [ERROR_STITCHING_FAILED]; the composite image, the strip history and
    the height counter are exactly what they were before the call. *)
Theorem addStrip_failed_alignment_is_noop
        (cv : OpenCV) (st : Stitcher.StripStitcher) (strip prev : ScanStrip) :
  Stitcher.initialized_ st = true ->
  last (Stitcher.strips_ st) = Some prev ->
  Stitcher.success (Stitcher.alignStrips cv st (image prev) (image strip))
    = false ->
  fst (Stitcher.addStrip cv st strip) = ERROR_STITCHING_FAILED /\
  Stitcher.stitched_image_ (snd (Stitcher.addStrip cv st strip))
    = Stitcher.stitched_image_ st /\
  Stitcher.strips_ (snd (Stitcher.addStrip cv st strip))
    = Stitcher.strips_ st /\
  Stitcher.current_height_ (snd (Stitcher.addStrip cv st strip))
    = Stitcher.current_height_ st.
Proof.
  intros Hi Hl Hs. rewrite (addStrip_rejected cv st strip prev Hi Hl Hs).
  simpl. auto.
Qed.

Lemma addStrip_failed_alignment_is_noop_witness :
  let st := seeded_stitcher 2 in
  let strip := gradient_strip 4 3 1 in
  let prev := gradient_strip 4 3 0 in
  Stitcher.initialized_ st = true /\
  last (Stitcher.strips_ st) = Some prev /\
  Stitcher.success
    (Stitcher.alignStrips cv_reject st (image prev) (image strip)) = false /\
  fst (Stitcher.addStrip cv_reject st strip) = ERROR_STITCHING_FAILED /\
  Stitcher.stitched_image_ (snd (Stitcher.addStrip cv_reject st strip))
    = Stitcher.stitched_image_ st.
Proof.
  intros st strip prev.
  assert (Hi : Stitcher.initialized_ st = true) by reflexivity.
  assert (Hl : last (Stitcher.strips_ st) = Some prev) by reflexivity.
  assert (Hs : Stitcher.success
                 (Stitcher.alignStrips cv_reject st (image prev) (image strip))
               = false) by reflexivity.
  pose proof (addStrip_failed_alignment_is_noop cv_reject st strip prev
                Hi Hl Hs) as (H1 & H2 & _).
  repeat split; assumption.
Defined.

(** C9.  The composite is append-only along the scan axis: after a
    successful [addStrip] on a stitcher that already holds a strip, every
    sample of the rows [0, current_height - overlap_pixels), the rows
    before the seam band, has the value it had before the call. *)
Theorem addStrip_append_only
        (cv : OpenCV) (st st' : Stitcher.StripStitcher) (strip : ScanStrip)
        (x y c : Z) :
  Stitcher.wf_image (Stitcher.stitched_image_ st) ->
  Stitcher.initialized_ st = true ->
  Stitcher.strips_ st <> [] ->
  Stitcher.addStrip cv st strip = (SUCCESS, st') ->
  0 <= x < width (Stitcher.stitched_image_ st) ->
  0 <= c < channels (Stitcher.stitched_image_ st) ->
  0 <= y < Stitcher.current_height_ st - overlap_pixels (Stitcher.params_ st) ->
  at_ (Stitcher.stitched_image_ st') x y c
  = at_ (Stitcher.stitched_image_ st) x y c.
Proof.
  intros Hwf Hi Hne Hadd Hx Hc Hy.
  destruct (addStrip_success_inv cv st strip st' Hi Hne Hadd)
    as (prev & Hl & Hs).
  rewrite (addStrip_accepted cv st strip prev Hi Hl Hs) in Hadd.
  injection Hadd as <-. simpl.
  destruct (grow_composite_spec st strip Hwf) as (Hgw & Hgc & _ & Hgwf & Hget).
  pose proof Hgwf as (Hw & _ & Hch & _).
  set (grown := Stitcher.grow_composite st strip) in *.
  set (stats := Stitcher.alignStrips cv st (image prev) (image strip)).
  destruct (fuse_strip_frame st strip stats grown
              (index_of grown 0 (Stitcher.insert_y st) 0) Hw Hch (Z.le_refl _))
    as [(Hfw & _ & Hfc & _) Hbelow].
  unfold at_.
  assert (Hidx : index_of (Stitcher.fuse_strip st strip stats grown) x y c
                 = index_of grown x y c)
    by (unfold index_of; now rewrite Hfw, Hfc).
  assert (Hidx' : index_of (Stitcher.stitched_image_ st) x y c
                  = index_of grown x y c)
    by (unfold index_of; now rewrite Hgw, Hgc).
  rewrite Hidx, Hidx', Hbelow, Hget; [done|].
  apply index_before_row; unfold Stitcher.insert_y; lia.
Qed.

Lemma addStrip_append_only_witness :
  let st := seeded_stitcher 1 in
  let strip := gradient_strip 4 3 1 in
  let st' := snd (Stitcher.addStrip cv_accept st strip) in
  Stitcher.addStrip cv_accept st strip = (SUCCESS, st') /\
  0 <= 1 < Stitcher.current_height_ st - overlap_pixels (Stitcher.params_ st) /\
  at_ (Stitcher.stitched_image_ st') 2 1 0
  = at_ (Stitcher.stitched_image_ st) 2 1 0.
Proof.
  intros st strip st'.
  assert (Hy : 0 <= 1 < Stitcher.current_height_ st
                         - overlap_pixels (Stitcher.params_ st))
    by closed_Z.
  assert (Hwf : Stitcher.wf_image (Stitcher.stitched_image_ st)) by closed_Z.
  assert (Hx : 0 <= 2 < width (Stitcher.stitched_image_ st)) by closed_Z.
  assert (Hc : 0 <= 0 < channels (Stitcher.stitched_image_ st)) by closed_Z.
  assert (Hne : Stitcher.strips_ st <> []) by (intros E; discriminate E).
  assert (Hadd : Stitcher.addStrip cv_accept st strip = (SUCCESS, st'))
    by (vm_compute; reflexivity).
  split; [exact Hadd|]. split; [exact Hy|].
  exact (addStrip_append_only cv_accept st st' strip 2 1 0
           Hwf eq_refl Hne Hadd Hx Hc Hy).
Defined.

(** ** Alignment *)

Section AlignmentFacts.

Variable cv : OpenCV.

Implicit Types (st : Stitcher.StripStitcher) (img : Image).

(** [phaseCorrelation] reports success exactly when both library calls
    return and the reported score reaches the threshold; its result then
    carries the library's values. *)
Lemma phaseCorrelation_success_iff st (img1 img2 : Image) :
  Stitcher.success (Stitcher.phaseCorrelation cv st img1 img2) = true <->
  exists b1 b2 shift max_val,
    Stitcher.overlap_bands st img1 img2 = Some (b1, b2) /\
    phaseCorrelate cv b1 b2 = Some shift /\
    matchTemplate_max cv b1 b2 = Some max_val /\
    Qle_bool (Stitcher.min_correlation_ st) max_val = true /\
    Stitcher.phaseCorrelation cv st img1 img2
    = {| Stitcher.offset_x := Some (fst shift);
         Stitcher.offset_y := Some (snd shift);
         Stitcher.correlation := Some max_val;
         Stitcher.success := true |}.
Proof.
  unfold Stitcher.phaseCorrelation. split.
  - destruct (Stitcher.overlap_bands st img1 img2) as [[b1 b2]|];
      [|discriminate].
    destruct (phaseCorrelate cv b1 b2) as [shift|] eqn:E1; [|discriminate].
    destruct (matchTemplate_max cv b1 b2) as [max_val|] eqn:E2; [|discriminate].
    simpl. intros H. exists b1, b2, shift, max_val. rewrite H.
    repeat split; assumption.
  - intros (b1 & b2 & shift & max_val & -> & -> & -> & _ & ->). done.
Qed.

(** When a library call throws, nothing but [success] was assigned. *)
Lemma phaseCorrelation_exception st (img1 img2 : Image) :
  (forall b1 b2, Stitcher.overlap_bands st img1 img2 = Some (b1, b2) ->
                 phaseCorrelate cv b1 b2 = None \/
                 matchTemplate_max cv b1 b2 = None) ->
  Stitcher.phaseCorrelation cv st img1 img2 = Stitcher.AlignmentStats_unset.
Proof.
  intros H. unfold Stitcher.phaseCorrelation.
  destruct (Stitcher.overlap_bands st img1 img2) as [[b1 b2]|]; [|done].
  destruct (H b1 b2 eq_refl) as [-> | E]; [done|].
  rewrite E. now destruct (phaseCorrelate cv b1 b2).
Qed.

End AlignmentFacts.

(** *** Runs of [addStrip] *)

Section Runs.

Variable cv : OpenCV.

Implicit Types (st : Stitcher.StripStitcher) (strip prev s : ScanStrip).

Lemma addStrips_cons st s rest :
  Stitcher.addStrips cv st (s :: rest) =
  (fst (Stitcher.addStrip cv st s)
     :: fst (Stitcher.addStrips cv (snd (Stitcher.addStrip cv st s)) rest),
   snd (Stitcher.addStrips cv (snd (Stitcher.addStrip cv st s)) rest)).
Proof.
  simpl. destruct (Stitcher.addStrip cv st s) as [code st1]. simpl.
  now destruct (Stitcher.addStrips cv st1 rest).
Qed.

End Runs.

(** *** With a library that checks the matrix type *)

Section TypeAssertion.

Variable cv : OpenCV.

Implicit Types (st : Stitcher.StripStitcher) (strip prev s : ScanStrip).

Lemma asserts_float_input_raises_on_empty :
  asserts_float_input cv -> raises_on_empty cv.
Proof. intros H a b _. apply H. Qed.

Hypothesis Hcv : asserts_float_input cv.

Lemma alignStrips_type_assertion st (img1 img2 : Image) :
  Stitcher.alignStrips cv st img1 img2 = Stitcher.AlignmentStats_unset.
Proof.
  apply phaseCorrelation_exception. intros b1 b2 _. left. apply Hcv.
Qed.

(** Every strip after the first is rejected. *)
Lemma addStrip_type_assertion st strip :
  Stitcher.initialized_ st = true -> Stitcher.strips_ st <> [] ->
  Stitcher.addStrip cv st strip =
  (ERROR_STITCHING_FAILED,
   {| Stitcher.params_ := Stitcher.params_ st;
      Stitcher.min_correlation_ := Stitcher.min_correlation_ st;
      Stitcher.blending_enabled_ := Stitcher.blending_enabled_ st;
      Stitcher.strips_ := Stitcher.strips_ st;
      Stitcher.stitched_image_ := Stitcher.stitched_image_ st;
      Stitcher.last_alignment_ := Stitcher.AlignmentStats_unset;
      Stitcher.current_height_ := Stitcher.current_height_ st;
      Stitcher.initialized_ := Stitcher.initialized_ st |}).
Proof.
  intros Hi Hne.
  destruct (last (Stitcher.strips_ st)) as [prev|] eqn:Hl.
  2:{ apply last_None in Hl. contradiction. }
  rewrite (addStrip_rejected cv st strip prev Hi Hl);
    now rewrite alignStrips_type_assertion.
Qed.

Lemma addStrips_type_assertion (strips : list ScanStrip) :
  forall st,
    Stitcher.initialized_ st = true -> Stitcher.strips_ st <> [] ->
    fst (Stitcher.addStrips cv st strips)
    = replicate (length strips) ERROR_STITCHING_FAILED /\
    Stitcher.stitched_image_ (snd (Stitcher.addStrips cv st strips))
    = Stitcher.stitched_image_ st /\
    Stitcher.strips_ (snd (Stitcher.addStrips cv st strips))
    = Stitcher.strips_ st /\
    Stitcher.current_height_ (snd (Stitcher.addStrips cv st strips))
    = Stitcher.current_height_ st.
Proof.
  induction strips as [|s rest IH]; intros st Hi Hne; [done|].
  rewrite addStrips_cons, (addStrip_type_assertion st s Hi Hne).
  cbn [fst snd length replicate].
  match goal with
  | |- context [Stitcher.addStrips cv ?st1 rest] =>
      destruct (IH st1 Hi Hne) as (H1 & H2 & H3 & H4)
  end.
  rewrite H1, H2, H3, H4. done.
Qed.

End TypeAssertion.

(** C1.  The code evaluated at the end-to-end scenario.  [phaseCorrelation]
    hands [cv::phaseCorrelate] the two bands as CV_8UC1 matrices; a
    library that makes the type assertion raises on them, the exception is
    caught and the alignment reports failure.  So on a stitcher that
    holds a strip every further strip is answered with
    [ERROR_STITCHING_FAILED] and the composite does not grow; after the
    five strips of the scenario the composite is the first strip, 50 rows
    high and not 210. *)
Theorem addStrips_scenario_keeps_first_strip (cv : OpenCV) :
  asserts_float_input cv ->
  (forall (st : Stitcher.StripStitcher) (strip : ScanStrip),
      Stitcher.initialized_ st = true -> Stitcher.strips_ st <> [] ->
      let st' := snd (Stitcher.addStrip cv st strip) in
      fst (Stitcher.addStrip cv st strip) = ERROR_STITCHING_FAILED /\
      Stitcher.getStitchedImage st' = Stitcher.getStitchedImage st /\
      Stitcher.current_height_ st' = Stitcher.current_height_ st) /\
  let run := Stitcher.addStrips cv scenario_stitcher scenario_strips in
  fst run = [SUCCESS; ERROR_STITCHING_FAILED; ERROR_STITCHING_FAILED;
             ERROR_STITCHING_FAILED; ERROR_STITCHING_FAILED] /\
  Stitcher.getStitchedImage (snd run) = image (gradient_strip 100 50 0) /\
  Stitcher.strips_ (snd run) = [gradient_strip 100 50 0] /\
  width (Stitcher.getStitchedImage (snd run)) = 100 /\
  height (Stitcher.getStitchedImage (snd run)) = 50 /\
  height (Stitcher.getStitchedImage (snd run)) <> 5 * 50 - 4 * 10.
Proof.
  intros Hcv. split.
  - intros st strip Hi Hne. cbv zeta.
    now rewrite (addStrip_type_assertion cv Hcv st strip Hi Hne).
  - cbv zeta. unfold scenario_strips. cbn [fmap list_fmap].
    rewrite addStrips_cons.
    rewrite (addStrip_first cv scenario_stitcher) by reflexivity.
    cbn [fst snd].
    match goal with
    | |- context [Stitcher.addStrips cv ?st1 ?rest] =>
        destruct (addStrips_type_assertion cv Hcv rest st1)
          as (Hcodes & Himg & Hstrips & _);
          [reflexivity | intros E; discriminate E |]
    end.
    unfold Stitcher.getStitchedImage. rewrite Hcodes, Himg, Hstrips.
    cbn [Stitcher.stitched_image_ Stitcher.strips_].
    split; [reflexivity|]. split; [reflexivity|]. split; [reflexivity|].
    split; [reflexivity|]. split; [reflexivity|].
    intros H. discriminate H.
Qed.

Lemma addStrips_scenario_keeps_first_strip_witness :
  let run :=
    Stitcher.addStrips cv_type_checked scenario_stitcher scenario_strips in
  asserts_float_input cv_type_checked /\
  fst run = [SUCCESS; ERROR_STITCHING_FAILED; ERROR_STITCHING_FAILED;
             ERROR_STITCHING_FAILED; ERROR_STITCHING_FAILED] /\
  height (Stitcher.getStitchedImage (snd run)) = 50.
Proof.
  intros run.
  assert (Hcv : asserts_float_input cv_type_checked)
    by (intros a b; reflexivity).
  destruct (addStrips_scenario_keeps_first_strip cv_type_checked Hcv)
    as (_ & Hcodes & _ & _ & _ & Hh & _).
  split; [exact Hcv|]. split; [exact Hcodes | exact Hh].
Defined.

(** *** Degenerate overlap *)

Lemma get_take (d : list Z) (n : nat) (i : Z) :
  i < Z.of_nat n -> Buffer.get (take n d) i = Buffer.get d i.
Proof.
  intros H. unfold Buffer.get. destruct (i <? 0) eqn:E; [done|].
  apply Z.ltb_ge in E. rewrite lookup_take_lt; [done | lia].
Qed.

Lemma Mat_roi_some (m r : Mat) (x y w h : Z) :
  Mat_roi m x y w h = Some r -> rows r = h /\ 0 <= h.
Proof.
  unfold Mat_roi.
  destruct (0 <=? x), (0 <=? w), (x + w <=? cols m), (0 <=? y),
           (Z.leb_spec 0 h), (y + h <=? rows m); simpl;
    intros E; try discriminate E.
  injection E as <-. done.
Qed.

(** With [overlap_pixels = 0] the bands have no rows. *)
Lemma overlap_bands_zero (st : Stitcher.StripStitcher) (img1 img2 : Image)
      (b1 b2 : Mat) :
  overlap_pixels (Stitcher.params_ st) = 0 ->
  Stitcher.overlap_bands st img1 img2 = Some (b1, b2) ->
  rows b1 = 0 /\ rows b2 = 0.
Proof.
  intros Hov H. unfold Stitcher.overlap_bands in H.
  assert (Hoh : Stitcher.overlap_height st img1 img2 <= 0)
    by (unfold Stitcher.overlap_height; lia).
  destruct (Mat_roi (Mat_of_image img1) _ _ _ _) as [o1|] eqn:E1;
    [|discriminate H].
  destruct (Mat_roi (Mat_of_image img2) _ _ _ _) as [o2|] eqn:E2;
    [|discriminate H].
  injection H as <- <-.
  apply Mat_roi_some in E1, E2. lia.
Qed.

(** C5.  The code evaluated with [overlap_pixels = 0].  [addStrip] has a
    branch for this case (the simple copy after
    [blending_enabled_ && params_.overlap_pixels > 0]), but the alignment
    gate comes first and is handed two bands without rows: with a library
    that raises on them, as one that makes the type assertion does, the
    strip is answered with [ERROR_STITCHING_FAILED] and nothing is
    appended: the composite, the history and the height counter are what
    they were. *)
Theorem addStrip_zero_overlap_rejects
        (cv : OpenCV) (st : Stitcher.StripStitcher) (strip : ScanStrip) :
  raises_on_empty cv ->
  Stitcher.initialized_ st = true ->
  overlap_pixels (Stitcher.params_ st) = 0 ->
  Stitcher.strips_ st <> [] ->
  let st' := snd (Stitcher.addStrip cv st strip) in
  fst (Stitcher.addStrip cv st strip) = ERROR_STITCHING_FAILED /\
  Stitcher.getStitchedImage st' = Stitcher.getStitchedImage st /\
  Stitcher.strips_ st' = Stitcher.strips_ st /\
  Stitcher.current_height_ st' = Stitcher.current_height_ st /\
  (0 < height (image strip) ->
   height (Stitcher.getStitchedImage st')
   <> height (Stitcher.getStitchedImage st) + height (image strip)).
Proof.
  intros Hcv Hi Hov Hne st'. subst st'.
  destruct (last (Stitcher.strips_ st)) as [prev|] eqn:Hl.
  2:{ apply last_None in Hl. contradiction. }
  assert (Hs : Stitcher.alignStrips cv st (image prev) (image strip)
               = Stitcher.AlignmentStats_unset).
  { apply phaseCorrelation_exception. intros b1 b2 Hb. left.
    apply Hcv. exact (proj1 (overlap_bands_zero st _ _ b1 b2 Hov Hb)). }
  rewrite (addStrip_rejected cv st strip prev Hi Hl) by now rewrite Hs.
  unfold Stitcher.getStitchedImage.
  cbn [fst snd Stitcher.stitched_image_ Stitcher.strips_
       Stitcher.current_height_].
  repeat split. lia.
Qed.

Lemma addStrip_zero_overlap_rejects_witness :
  let st := seeded_stitcher 0 in
  let strip := gradient_strip 4 2 1 in
  let st' := snd (Stitcher.addStrip cv_accept_nonempty st strip) in
  raises_on_empty cv_accept_nonempty /\
  Stitcher.initialized_ st = true /\
  overlap_pixels (Stitcher.params_ st) = 0 /\
  Stitcher.strips_ st = [gradient_strip 4 3 0] /\
  Stitcher.wf_image (image strip) /\
  Stitcher.overlap_bands st (image (gradient_strip 4 3 0)) (image strip)
  = Some ({| rows := 0; cols := 4; pixels := [] |},
          {| rows := 0; cols := 4; pixels := [] |}) /\
  fst (Stitcher.addStrip cv_accept_nonempty st strip) = ERROR_STITCHING_FAILED /\
  height (Stitcher.getStitchedImage st) = 3 /\
  height (Stitcher.getStitchedImage st') = 3.
Proof.
  intros st strip st'.
  assert (Hcv : raises_on_empty cv_accept_nonempty).
  { intros a b Ha. unfold cv_accept_nonempty. simpl. now rewrite Ha. }
  assert (Hne : Stitcher.strips_ st <> []) by (intros E; discriminate E).
  destruct (addStrip_zero_overlap_rejects cv_accept_nonempty st strip
              Hcv eq_refl eq_refl Hne) as (Hcode & Himg & _).
  split; [exact Hcv|]. split; [reflexivity|]. split; [reflexivity|].
  split; [reflexivity|]. split; [closed_Z|]. split; [reflexivity|].
  split; [exact Hcode|]. split; [reflexivity|].
  fold st' in Himg. now rewrite Himg.
Defined.

(** ** Seam blending *)

(** In exact arithmetic the blend of section 4.3 stays between its two
    source samples. *)
Lemma seam_blend_spec_between (y overlap incoming existing : Z) :
  0 <= y < overlap -> 0 <= incoming <= 255 -> 0 <= existing <= 255 ->
  Z.min incoming existing
  <= seam_blend_spec y overlap incoming existing
  <= Z.max incoming existing.
Proof.
  intros Hy Hi He. unfold seam_blend_spec.
  set (num := y * incoming + (overlap - y) * existing).
  assert (Hlo : overlap * Z.min incoming existing <= num) by (subst num; nia).
  assert (Hhi : num <= overlap * Z.max incoming existing) by (subst num; nia).
  assert (H1 : Z.min incoming existing <= (2 * num + overlap) / (2 * overlap)).
  { apply Z.div_le_lower_bound; nia. }
  assert (H2 : (2 * num + overlap) / (2 * overlap) <= Z.max incoming existing).
  { apply Z.lt_succ_r. apply Z.div_lt_upper_bound; nia. }
  lia.
Qed.

(** At and beyond the overlap, the weight is 1.0f. *)
Lemma blend_alpha_beyond_overlap (y blend_height : Z) :
  blend_height <= y -> Stitcher.blend_alpha y blend_height = Float32.one.
Proof.
  intros H. unfold Stitcher.blend_alpha.
  now rewrite (proj2 (Z.ltb_ge y blend_height) H).
Qed.

(** With weight 1.0f the blend is the incoming sample, for all bytes
    (checked exhaustively). *)
Lemma linear_blend_weight_one_table :
  forallb (fun s =>
             forallb (fun t => Stitcher.linear_blend Float32.one s t =? s)
                     (seqZ 0 256))
          (seqZ 0 256) = true.
Proof. vm_compute. reflexivity. Qed.

(** Rows at or beyond [overlap_pixels] are a direct overwrite. *)
Lemma linear_blend_beyond_overlap (y blend_height s t : Z) :
  blend_height <= y -> 0 <= s <= 255 -> 0 <= t <= 255 ->
  Stitcher.linear_blend (Stitcher.blend_alpha y blend_height) s t = s.
Proof.
  intros Hy Hs Ht. rewrite blend_alpha_beyond_overlap by exact Hy.
  pose proof linear_blend_weight_one_table as Htab.
  rewrite forallb_forall in Htab.
  specialize (Htab s). rewrite forallb_forall in Htab.
  apply Z.eqb_eq. apply Htab.
  - apply list_elem_of_In, elem_of_seqZ. lia.
  - apply list_elem_of_In, elem_of_seqZ. lia.
Qed.

(** C6.  The code evaluated at a failing input.  With
    [overlap_pixels = 10], row [y = 1] has weight [1.0f / 10]; blending an
    incoming sample 3 onto an existing sample 3 computes, in binary32,
    [alpha * 3 + (1.0f - alpha) * 3] slightly below 3, and the
    [static_cast<byte_t>] truncates it to 2: the written value is not
    between the two source values, whereas the blend of the specification
    is 3.  The same happens through [blendOverlapRegion] and through
    [addStrip] on one-column strips of constant value 3. *)
Theorem linear_blend_truncates_below_sources :
  Stitcher.linear_blend (Stitcher.blend_alpha 1 10) 3 3 = 2 /\
  seam_blend_spec 1 10 3 3 = 3 /\
  at_ (Stitcher.blendOverlapRegion (stitcher_with_overlap 10)
         (constant_image 1 10 3) (constant_image 1 10 3) 0 0) 0 1 0 = 2 /\
  at_ (Stitcher.getStitchedImage
         (snd (Stitcher.addStrip cv_accept (constant_seeded_stitcher 10 1 10 3)
                                 (constant_strip 1 10 3 1)))) 0 1 0 = 2.
Proof. vm_compute. repeat split. Qed.

(** C7.  The code evaluated at a blank strip.  [phaseCorrelation] makes no
    variance test: a blank strip takes the path of every other strip.
    With a library that makes the type assertion of [cv::phaseCorrelate],
    the call raises, the [catch] block sets [success] to false, and the
    correlation and the two offsets of the result are never assigned:
    they are not 0, as they are in the [AlignmentStats{}] that [reset]
    stores.  [addStrip] stores that result, answers
    [ERROR_STITCHING_FAILED] and leaves the composite as it was. *)
Theorem phaseCorrelation_leaves_stats_unassigned
        (cv : OpenCV) (st : Stitcher.StripStitcher) (strip : ScanStrip) :
  asserts_float_input cv ->
  Stitcher.initialized_ st = true ->
  Stitcher.strips_ st <> [] ->
  (forall img1 img2,
      let stats := Stitcher.phaseCorrelation cv st img1 img2 in
      Stitcher.success stats = false /\
      Stitcher.correlation stats = None /\
      Stitcher.offset_x stats = None /\
      Stitcher.offset_y stats = None) /\
  let st' := snd (Stitcher.addStrip cv st strip) in
  fst (Stitcher.addStrip cv st strip) = ERROR_STITCHING_FAILED /\
  Stitcher.getLastAlignmentStats st' = Stitcher.AlignmentStats_unset /\
  Stitcher.correlation (Stitcher.getLastAlignmentStats st') <> Some 0%Q /\
  Stitcher.correlation (Stitcher.getLastAlignmentStats (Stitcher.reset st'))
  = Some 0%Q /\
  Stitcher.getStitchedImage st' = Stitcher.getStitchedImage st.
Proof.
  intros Hcv Hi Hne. split.
  - intros img1 img2 stats. subst stats.
    change (Stitcher.phaseCorrelation cv st img1 img2)
      with (Stitcher.alignStrips cv st img1 img2).
    now rewrite alignStrips_type_assertion.
  - cbv zeta. rewrite addStrip_type_assertion by assumption.
    cbn [fst snd Stitcher.getLastAlignmentStats Stitcher.last_alignment_
         Stitcher.getStitchedImage Stitcher.stitched_image_ Stitcher.reset
         Stitcher.correlation Stitcher.AlignmentStats_unset
         Stitcher.AlignmentStats_zero].
    repeat split. intros H. discriminate H.
Qed.

Lemma phaseCorrelation_leaves_stats_unassigned_witness :
  let st := constant_seeded_stitcher 2 4 3 128 in
  let blank := constant_strip 4 3 128 1 in
  let st' := snd (Stitcher.addStrip cv_type_checked st blank) in
  asserts_float_input cv_type_checked /\
  is_blank (image blank) = true /\
  fst (Stitcher.addStrip cv_type_checked st blank) = ERROR_STITCHING_FAILED /\
  Stitcher.success (Stitcher.getLastAlignmentStats st') = false /\
  Stitcher.correlation (Stitcher.getLastAlignmentStats st') = None /\
  Stitcher.offset_x (Stitcher.getLastAlignmentStats st') = None /\
  Stitcher.offset_y (Stitcher.getLastAlignmentStats st') = None.
Proof.
  intros st blank st'.
  assert (Hcv : asserts_float_input cv_type_checked) by (intros a b; reflexivity).
  assert (Hne : Stitcher.strips_ st <> []) by (intros E; discriminate E).
  destruct (phaseCorrelation_leaves_stats_unassigned cv_type_checked st blank
              Hcv eq_refl Hne) as (_ & Hcode & Hstats & _).
  split; [exact Hcv|]. split; [reflexivity|]. split; [exact Hcode|].
  fold st' in Hstats. rewrite Hstats. repeat split.
Defined.


(** ** The tile plan *)

(** Lists made of blocks of the same length. *)
Lemma length_bind_const {A B} (g : A -> list B) (l : list A) (n : nat) :
  (forall a, length (g a) = n) -> length (l ≫= g) = (length l * n)%nat.
Proof.
  intros Hg. induction l as [|a l IH]; [done|].
  rewrite bind_cons, length_app, IH, Hg. simpl. lia.
Qed.

Lemma lookup_bind_const {A B} (g : A -> list B) (l : list A) (n : nat) :
  (forall a, length (g a) = n) ->
  forall (j i : nat), (i < n)%nat ->
    (l ≫= g) !! (j * n + i)%nat = l !! j ≫= fun a => g a !! i.
Proof.
  intros Hg. induction l as [|a l IH]; intros j i Hi.
  - now rewrite !lookup_nil.
  - rewrite bind_cons. destruct j as [|j].
    + simpl. rewrite lookup_app_l by (rewrite Hg; lia). reflexivity.
    + rewrite lookup_app_r by (rewrite Hg; simpl; lia).
      rewrite Hg. replace (S j * n + i - n)%nat with (j * n + i)%nat
        by (simpl; lia).
      rewrite IH by done. reflexivity.
Qed.

Lemma int_range : int_min = -2147483648 /\ int_max = 2147483647.
Proof. split; reflexivity. Qed.

Lemma advance_some (x tile overlap x' : Z) :
  advance x tile overlap = Some x' <->
  x' = x + (tile - overlap) /\
  int_min <= tile - overlap <= int_max /\ int_min <= x' <= int_max.
Proof.
  unfold advance, in_int. split.
  - destruct (Z.leb_spec int_min (tile - overlap)),
             (Z.leb_spec (tile - overlap) int_max),
             (Z.leb_spec int_min (x + (tile - overlap))),
             (Z.leb_spec (x + (tile - overlap)) int_max); simpl;
      intros Hadv; try discriminate Hadv.
    injection Hadv as <-. lia.
  - intros (-> & [H1 H2] & [H3 H4]).
    apply Z.leb_le in H1, H2, H3, H4. now rewrite H1, H2, H3, H4.
Qed.

Section TilePlan.

Variable config : GPUConfig.
Variables width height : Z.

Local Notation "'sx'" := (Tiling.step_x config).
Local Notation "'sy'" := (Tiling.step_y config).

(** *** Arithmetic of the iteration count *)

Lemma steps_lt (n step i : Z) :
  0 < step -> (i < Tiling.steps n step <-> i * step < n).
Proof.
  intros Hs. unfold Tiling.steps. split.
  - intros Hi.
    assert (H : i + 1 <= (n + step - 1) / step) by lia.
    assert (Hm : step * ((n + step - 1) / step) <= n + step - 1)
      by (apply Z.mul_div_le; lia).
    nia.
  - intros Hi.
    assert (H : i + 1 <= (n + step - 1) / step)
      by (apply Z.div_le_lower_bound; [lia | nia]).
    lia.
Qed.

Lemma steps_nonpos (n step : Z) :
  0 < step -> n <= 0 -> Tiling.steps n step <= 0.
Proof.
  intros Hs Hn. destruct (Z_le_gt_dec (Tiling.steps n step) 0) as [|H]; [done|].
  assert (H0 : 0 < Tiling.steps n step) by lia.
  apply steps_lt in H0; lia.
Qed.

Lemma steps_succ (n step : Z) :
  0 < step -> 0 < n -> Tiling.steps n step = 1 + Tiling.steps (n - step) step.
Proof.
  intros Hs Hn. unfold Tiling.steps.
  replace (n + step - 1) with ((n - step + step - 1) + 1 * step) by lia.
  rewrite Z.div_add by lia. lia.
Qed.

Lemma steps_pos (n step : Z) : 0 < step -> 0 < n -> 0 < Tiling.steps n step.
Proof. intros Hs Hn. apply steps_lt; lia. Qed.

Lemma steps_pred_nonneg (n step : Z) :
  0 < step -> 0 < n -> 0 <= Tiling.steps (n - step) step.
Proof.
  intros Hs Hn. assert (-1 < Tiling.steps (n - step) step); [|lia].
  apply steps_lt; lia.
Qed.


Lemma counter_end_succ (n step : Z) :
  0 < step -> 0 < n ->
  Tiling.counter_end n step = step + Tiling.counter_end (n - step) step.
Proof.
  intros Hs Hn. unfold Tiling.counter_end. rewrite (steps_succ n) by done. lia.
Qed.

(** *** The loops compute the closed form, given enough fuel and counters
    that stay within [int]. *)

Lemma tiles_row_closed (y : Z) (fuel : nat) :
  0 < sx ->
  forall x tiles,
    0 <= x ->
    x + Tiling.counter_end (width - x) sx <= int_max ->
    (Z.to_nat (Tiling.steps (width - x) sx) <= fuel)%nat ->
    Tiling.tiles_row fuel config width height y x tiles =
    Some (tiles ++
          ((fun i => Tiling.make_tile config width height (x + i * sx) y)
             <$> seqZ 0 (Tiling.steps (width - x) sx))).
Proof.
  intros Hs. induction fuel as [|fuel IH]; intros x tiles Hx Hend Hfuel;
    cbn [Tiling.tiles_row]; destruct (Z.ltb_spec x width) as [Hlt|Hge].
  - pose proof (steps_pos (width - x) sx Hs ltac:(lia)). lia.
  - rewrite seqZ_nil by (apply steps_nonpos; lia). now rewrite app_nil_r.
  - pose proof (steps_pred_nonneg (width - x) sx Hs ltac:(lia)) as Hn.
    rewrite (counter_end_succ (width - x)) in Hend by lia.
    assert (Hce : 0 <= Tiling.counter_end (width - x - sx) sx)
      by (unfold Tiling.counter_end; nia).
    destruct int_range as [Hmin Hmax].
    destruct (advance x (tile_width config) (tile_overlap config)) as [x'|]
      eqn:Hadv.
    2:{ exfalso.
        assert (H : advance x (tile_width config) (tile_overlap config)
                    = Some (x + sx)); [|congruence].
        apply advance_some. unfold Tiling.step_x in *. lia. }
    apply advance_some in Hadv as (-> & _ & _). fold sx.
    rewrite (steps_succ (width - x)) in * by lia.
    rewrite IH.
    2:{ lia. }
    2:{ replace (width - (x + sx)) with (width - x - sx) by lia. lia. }
    2:{ replace (width - (x + sx)) with (width - x - sx) by lia. lia. }
    replace (width - (x + sx)) with (width - x - sx) by lia.
    f_equal. rewrite <- app_assoc. f_equal.
    rewrite (seqZ_cons 0 (1 + Tiling.steps (width - x - sx) sx)) by lia.
    rewrite fmap_cons.
    replace (x + 0 * sx) with x by lia. cbn [app]. f_equal.
    replace (Z.pred (1 + Tiling.steps (width - x - sx) sx))
      with (Tiling.steps (width - x - sx) sx) by lia.
    change (Z.succ 0) with (1 + 0).
    rewrite <- fmap_add_seqZ, <- list_fmap_compose.
    apply list_fmap_ext. intros _ i _. cbn [compose]. f_equal. lia.
  - rewrite seqZ_nil by (apply steps_nonpos; lia). now rewrite app_nil_r.
Qed.

(** Conversely, a row that is returned is the closed form, and its counter
    stayed within [int]. *)
Lemma tiles_row_inv (y : Z) (fuel : nat) :
  0 < sx ->
  forall x tiles r,
    Tiling.tiles_row fuel config width height y x tiles = Some r ->
    r = tiles ++
        ((fun i => Tiling.make_tile config width height (x + i * sx) y)
           <$> seqZ 0 (Tiling.steps (width - x) sx)) /\
    (x < width -> x + Tiling.counter_end (width - x) sx <= int_max).
Proof.
  intros Hs. induction fuel as [|fuel IH]; intros x tiles r;
    cbn [Tiling.tiles_row]; destruct (Z.ltb_spec x width) as [Hlt|Hge];
    intros Hr; try discriminate Hr.
  - injection Hr as <-. split; [|lia].
    rewrite seqZ_nil by (apply steps_nonpos; lia). now rewrite app_nil_r.
  - destruct (advance x (tile_width config) (tile_overlap config)) as [x'|]
      eqn:Hadv; [|discriminate Hr].
    apply advance_some in Hadv as (-> & _ & Hx'). fold sx in Hr, Hx'.
    apply IH in Hr as [-> Hend].
    pose proof (steps_pred_nonneg (width - x) sx Hs ltac:(lia)) as Hn.
    replace (width - (x + sx)) with (width - x - sx) in * by lia.
    split.
    + rewrite (steps_succ (width - x)) by lia.
      rewrite <- app_assoc. f_equal.
      rewrite (seqZ_cons 0 (1 + Tiling.steps (width - x - sx) sx)) by lia.
      rewrite fmap_cons.
      replace (x + 0 * sx) with x by lia. cbn [app]. f_equal.
      replace (Z.pred (1 + Tiling.steps (width - x - sx) sx))
        with (Tiling.steps (width - x - sx) sx) by lia.
      change (Z.succ 0) with (1 + 0).
      rewrite <- fmap_add_seqZ, <- list_fmap_compose.
      apply list_fmap_ext. intros _ i _. cbn [compose]. f_equal. lia.
    + intros _. rewrite (counter_end_succ (width - x)) by lia.
      destruct (Z_lt_ge_dec (x + sx) width) as [Hin|Hout]; [lia|].
      pose proof (steps_nonpos (width - x - sx) sx Hs ltac:(lia)).
      unfold Tiling.counter_end. nia.
  - injection Hr as <-. split; [|lia].
    rewrite seqZ_nil by (apply steps_nonpos; lia). now rewrite app_nil_r.
Qed.

Lemma rows_shift (y : Z) (l : list Z) :
  ((Z.add 1 <$> l) ≫= fun j =>
     (fun i => Tiling.make_tile config width height (i * sx) (y + j * sy))
       <$> seqZ 0 (Tiling.steps width sx))
  = l ≫= fun j =>
      (fun i => Tiling.make_tile config width height
                                 (i * sx) (y + sy + j * sy))
        <$> seqZ 0 (Tiling.steps width sx).
Proof.
  induction l as [|j l IHl]; [done|].
  rewrite fmap_cons, !bind_cons, IHl. f_equal.
  apply list_fmap_ext. intros _ i _. f_equal. lia.
Qed.

Lemma rows_unfold (y : Z) :
  0 < sy -> y < height ->
  (seqZ 0 (Tiling.steps (height - y) sy) ≫= fun j =>
     (fun i => Tiling.make_tile config width height (i * sx) (y + j * sy))
       <$> seqZ 0 (Tiling.steps width sx))
  = ((fun i => Tiling.make_tile config width height (0 + i * sx) y)
       <$> seqZ 0 (Tiling.steps (width - 0) sx))
    ++ (seqZ 0 (Tiling.steps (height - (y + sy)) sy) ≫= fun j =>
          (fun i => Tiling.make_tile config width height
                                     (i * sx) (y + sy + j * sy))
            <$> seqZ 0 (Tiling.steps width sx)).
Proof.
  intros Hsy Hlt.
  pose proof (steps_pred_nonneg (height - y) sy Hsy ltac:(lia)) as Hn.
  rewrite (steps_succ (height - y)) by lia.
  replace (height - (y + sy)) with (height - y - sy) by lia.
  rewrite (seqZ_cons 0 (1 + Tiling.steps (height - y - sy) sy)) by lia.
  rewrite bind_cons, Z.sub_0_r. f_equal.
  - apply list_fmap_ext. intros _ i _. f_equal; lia.
  - replace (Z.pred (1 + Tiling.steps (height - y - sy) sy))
      with (Tiling.steps (height - y - sy) sy) by lia.
    change (Z.succ 0) with (1 + 0).
    rewrite <- fmap_add_seqZ. apply rows_shift.
Qed.

Lemma tiles_rows_closed (fuel : nat) :
  0 < sx -> 0 < sy ->
  Tiling.counter_end width sx <= int_max ->
  forall y tiles,
    0 <= y ->
    y + Tiling.counter_end (height - y) sy <= int_max ->
    (Z.to_nat (Tiling.steps width sx)
     + Z.to_nat (Tiling.steps (height - y) sy) <= fuel)%nat ->
    Tiling.tiles_rows fuel config width height y tiles =
    Some (tiles ++
          (seqZ 0 (Tiling.steps (height - y) sy) ≫= fun j =>
             (fun i => Tiling.make_tile config width height
                                        (i * sx) (y + j * sy))
               <$> seqZ 0 (Tiling.steps width sx))).
Proof.
  intros Hsx Hsy Hxend. induction fuel as [|fuel IH];
    intros y tiles Hy Hend Hfuel;
    cbn [Tiling.tiles_rows]; destruct (Z.ltb_spec y height) as [Hlt|Hge].
  - pose proof (steps_pos (height - y) sy Hsy ltac:(lia)). lia.
  - rewrite (seqZ_nil 0 (Tiling.steps (height - y) sy))
      by (apply steps_nonpos; lia).
    cbn. now rewrite app_nil_r.
  - pose proof (steps_pred_nonneg (height - y) sy Hsy ltac:(lia)) as Hn.
    rewrite (rows_unfold y) by done.
    rewrite (counter_end_succ (height - y)) in Hend by lia.
    rewrite (steps_succ (height - y)) in Hfuel by lia.
    assert (Hce : 0 <= Tiling.counter_end (height - y - sy) sy)
      by (unfold Tiling.counter_end; nia).
    destruct int_range as [Hmin Hmax].
    rewrite tiles_row_closed
      by (try done; rewrite ?Z.sub_0_r; lia).
    destruct (advance y (tile_height config) (tile_overlap config)) as [y'|]
      eqn:Hadv.
    2:{ exfalso.
        assert (H : advance y (tile_height config) (tile_overlap config)
                    = Some (y + sy)); [|congruence].
        apply advance_some. unfold Tiling.step_y in *. lia. }
    apply advance_some in Hadv as (-> & _ & _). fold sy.
    rewrite IH.
    2:{ lia. }
    2:{ replace (height - (y + sy)) with (height - y - sy) by lia. lia. }
    2:{ replace (height - (y + sy)) with (height - y - sy) by lia. lia. }
    now rewrite <- app_assoc.
  - rewrite (seqZ_nil 0 (Tiling.steps (height - y) sy))
      by (apply steps_nonpos; lia).
    cbn. now rewrite app_nil_r.
Qed.

Lemma tiles_rows_inv (fuel : nat) :
  0 < sx -> 0 < sy ->
  forall y tiles r,
    Tiling.tiles_rows fuel config width height y tiles = Some r ->
    r = tiles ++
        (seqZ 0 (Tiling.steps (height - y) sy) ≫= fun j =>
           (fun i => Tiling.make_tile config width height
                                      (i * sx) (y + j * sy))
             <$> seqZ 0 (Tiling.steps width sx)) /\
    (y < height ->
     (0 < width -> Tiling.counter_end width sx <= int_max) /\
     y + Tiling.counter_end (height - y) sy <= int_max).
Proof.
  intros Hsx Hsy. induction fuel as [|fuel IH]; intros y tiles r;
    cbn [Tiling.tiles_rows]; destruct (Z.ltb_spec y height) as [Hlt|Hge];
    intros Hr; try discriminate Hr.
  - injection Hr as <-. split; [|lia].
    rewrite (seqZ_nil 0 (Tiling.steps (height - y) sy))
      by (apply steps_nonpos; lia).
    cbn. now rewrite app_nil_r.
  - destruct (Tiling.tiles_row fuel config width height y 0 tiles)
      as [row|] eqn:Hrow; [|discriminate Hr].
    apply tiles_row_inv in Hrow as [-> Hxend]; [|done].
    destruct (advance y (tile_height config) (tile_overlap config)) as [y'|]
      eqn:Hadv; [|discriminate Hr].
    apply advance_some in Hadv as (-> & _ & Hy'). fold sy in Hr, Hy'.
    apply IH in Hr as [-> Hend].
    split.
    + rewrite (rows_unfold y) by done. now rewrite <- app_assoc.
    + intros _. split.
      * intros Hw. specialize (Hxend Hw). now rewrite Z.sub_0_r in Hxend.
      * rewrite (counter_end_succ (height - y)) by lia.
        replace (height - (y + sy)) with (height - y - sy) in * by lia.
        destruct (Z_lt_ge_dec (y + sy) height) as [Hin|Hout]; [lia|].
        pose proof (steps_nonpos (height - y - sy) sy Hsy ltac:(lia)).
        unfold Tiling.counter_end. nia.
  - injection Hr as <-. split; [|lia].
    rewrite (seqZ_nil 0 (Tiling.steps (height - y) sy))
      by (apply steps_nonpos; lia).
    cbn. now rewrite app_nil_r.
Qed.

Lemma generateTiles_closed :
  0 < sx -> 0 < sy ->
  Tiling.counter_end width sx <= int_max ->
  Tiling.counter_end height sy <= int_max ->
  Tiling.generateTiles
    (Z.to_nat (Tiling.steps width sx) + Z.to_nat (Tiling.steps height sy))
    config width height
  = Some (Tiling.tile_plan config width height).
Proof.
  intros Hsx Hsy Hxend Hyend. unfold Tiling.generateTiles.
  rewrite tiles_rows_closed by (try done; rewrite ?Z.sub_0_r; lia).
  rewrite Z.sub_0_r. reflexivity.
Qed.

(** Whatever the fuel, a returned plan is the closed form. *)
Lemma generateTiles_unique (fuel : nat) tiles :
  0 < sx -> 0 < sy ->
  Tiling.generateTiles fuel config width height = Some tiles ->
  tiles = Tiling.tile_plan config width height.
Proof.
  intros Hsx Hsy Hgen. unfold Tiling.generateTiles in Hgen.
  apply tiles_rows_inv in Hgen as [-> _]; [|done|done].
  rewrite Z.sub_0_r. reflexivity.
Qed.


(** *** The loops never return when a step is not positive. *)




(** *** The closed form is row-major. *)

Lemma tile_plan_length :
  length (Tiling.tile_plan config width height)
  = (Z.to_nat (Tiling.steps height sy) * Z.to_nat (Tiling.steps width sx))%nat.
Proof.
  unfold Tiling.tile_plan.
  rewrite (length_bind_const _ _ (Z.to_nat (Tiling.steps width sx))).
  - now rewrite length_seqZ.
  - intros j. now rewrite length_fmap, length_seqZ.
Qed.

Lemma tile_plan_lookup (i j : Z) :
  0 <= i < Tiling.steps width sx -> 0 <= j < Tiling.steps height sy ->
  Tiling.tile_plan config width height
    !! Z.to_nat (j * Tiling.steps width sx + i)
  = Some (Tiling.make_tile config width height (i * sx) (j * sy)).
Proof.
  intros Hi Hj. unfold Tiling.tile_plan.
  replace (Z.to_nat (j * Tiling.steps width sx + i))
    with (Z.to_nat j * Z.to_nat (Tiling.steps width sx) + Z.to_nat i)%nat
    by nia.
  rewrite (lookup_bind_const _ _ (Z.to_nat (Tiling.steps width sx))).
  - rewrite lookup_seqZ_lt by lia. simpl.
    rewrite list_lookup_fmap, lookup_seqZ_lt by lia. simpl.
    repeat f_equal; lia.
  - intros j'. now rewrite length_fmap, length_seqZ.
  - lia.
Qed.

End TilePlan.

Section TilePlanGeometry.

Variable config : GPUConfig.
Variables width height : Z.

Local Notation "'sx'" := (Tiling.step_x config).
Local Notation "'sy'" := (Tiling.step_y config).

Hypothesis Hsx : 0 < sx.
Hypothesis Hsy : 0 < sy.

Lemma elem_of_tile_plan (t : Tile.t) :
  t ∈ Tiling.tile_plan config width height <->
  exists i j, 0 <= i /\ i * sx < width /\ 0 <= j /\ j * sy < height /\
              t = Tiling.make_tile config width height (i * sx) (j * sy).
Proof.
  unfold Tiling.tile_plan. rewrite list_elem_of_bind. split.
  - intros (j & Ht & Hj). apply list_elem_of_fmap in Ht as (i & -> & Hi).
    apply elem_of_seqZ in Hi, Hj. exists i, j.
    repeat split; try lia; apply steps_lt; lia.
  - intros (i & j & Hi & Hiw & Hj & Hjh & ->). exists j. split.
    + apply list_elem_of_fmap. exists i. split; [done|].
      apply elem_of_seqZ. split; [lia|]. rewrite Z.add_0_l.
      apply steps_lt; lia.
    + apply elem_of_seqZ. split; [lia|]. rewrite Z.add_0_l.
      apply steps_lt; lia.
Qed.

Lemma make_tile_inj (x1 y1 x2 y2 : Z) :
  Tiling.make_tile config width height x1 y1
  = Tiling.make_tile config width height x2 y2 ->
  x1 = x2 /\ y1 = y2.
Proof. unfold Tiling.make_tile. intros H. injection H. auto. Qed.

Lemma NoDup_tile_plan : NoDup (Tiling.tile_plan config width height).
Proof.
  unfold Tiling.tile_plan. apply NoDup_bind.
  - intros j1 j2 t _ _ H1 H2.
    apply list_elem_of_fmap in H1 as (i1 & -> & _).
    apply list_elem_of_fmap in H2 as (i2 & H & _).
    apply make_tile_inj in H as [_ H]. nia.
  - intros j _. apply NoDup_fmap_2_strong; [|apply NoDup_seqZ].
    intros i1 i2 _ _ H. apply make_tile_inj in H as [H _]. nia.
  - apply NoDup_seqZ.
Qed.

(** Every pixel lies in the leading cell of exactly one tile of the plan,
    the one that starts at the multiples of the steps below it. *)
Lemma tile_plan_cell (px py : Z) :
  0 <= px < width -> 0 <= py < height ->
  let t := Tiling.make_tile config width height
                            (px / sx * sx) (py / sy * sy) in
  t ∈ Tiling.tile_plan config width height /\
  Tiling.cell_covers config t px py /\
  forall t', t' ∈ Tiling.tile_plan config width height ->
             Tiling.cell_covers config t' px py -> t' = t.
Proof.
  intros Hx Hy t. subst t.
  pose proof (Z.mul_div_le px sx Hsx) as Hx1.
  pose proof (Z.mul_succ_div_gt px sx Hsx) as Hx2.
  pose proof (Z.mul_div_le py sy Hsy) as Hy1.
  pose proof (Z.mul_succ_div_gt py sy Hsy) as Hy2.
  assert (0 <= px / sx) by (apply Z.div_pos; lia).
  assert (0 <= py / sy) by (apply Z.div_pos; lia).
  split; [|split].
  - apply elem_of_tile_plan. exists (px / sx), (py / sy).
    repeat split; try lia.
  - unfold Tiling.cell_covers. simpl. lia.
  - intros t' Ht' [Hcx Hcy].
    apply elem_of_tile_plan in Ht' as (i & j & Hi & _ & Hj & _ & ->).
    simpl in Hcx, Hcy.
    assert (i = px / sx) as -> by (apply Z.div_unique with (px - i * sx); lia).
    assert (j = py / sy) as -> by (apply Z.div_unique with (py - j * sy); lia).
    reflexivity.
Qed.

(** With a non-negative overlap the cell is inside the tile's extent. *)
Lemma cell_in_extent (t : Tile.t) (px py : Z) :
  0 <= tile_overlap config ->
  0 <= px < width -> 0 <= py < height ->
  t ∈ Tiling.tile_plan config width height ->
  Tiling.cell_covers config t px py -> Tiling.extent_covers t px py.
Proof.
  intros Hov Hx Hy Ht [Hcx Hcy].
  apply elem_of_tile_plan in Ht as (i & j & _ & _ & _ & _ & ->).
  unfold Tiling.extent_covers. simpl in *.
  unfold Tiling.step_x, Tiling.step_y in *. lia.
Qed.

(** Without overlap the extent is the cell, clipped to the image. *)
Lemma extent_in_cell (t : Tile.t) (px py : Z) :
  tile_overlap config = 0 ->
  t ∈ Tiling.tile_plan config width height ->
  Tiling.extent_covers t px py -> Tiling.cell_covers config t px py.
Proof.
  intros Hov Ht [Hcx Hcy].
  apply elem_of_tile_plan in Ht as (i & j & _ & _ & _ & _ & ->).
  unfold Tiling.cell_covers. simpl in *.
  unfold Tiling.step_x, Tiling.step_y in *. lia.
Qed.

Lemma tile_plan_in_image (t : Tile.t) :
  0 <= tile_overlap config ->
  t ∈ Tiling.tile_plan config width height ->
  Tiling.in_image width height t /\
  1 <= Tile.width t <= tile_width config /\
  1 <= Tile.height t <= tile_height config /\
  Tile.overlap t = tile_overlap config.
Proof.
  intros Hov Ht.
  apply elem_of_tile_plan in Ht as (i & j & Hi & Hiw & Hj & Hjh & ->).
  unfold Tiling.in_image. simpl.
  unfold Tiling.step_x, Tiling.step_y in *.
  assert (0 <= i * (tile_width config - tile_overlap config)) by nia.
  assert (0 <= j * (tile_height config - tile_overlap config)) by nia.
  repeat split; try lia.
Qed.

End TilePlanGeometry.




(** C3 (amended).  For a positive image width and height and a
    configuration with [0 <= tile_overlap < tile_width] and
    [tile_overlap < tile_height] whose loop counters stay within [int],
    [generateTiles] returns [ceil(height / step_y)] rows of
    [ceil(width / step_x)] tiles in row-major order, where
    [step_x = tile_width - tile_overlap] and
    [step_y = tile_height - tile_overlap]: the tile of column [i] and row
    [j] starts at [(i * step_x, j * step_y)], is
    [min(tile_width, width - i * step_x)] wide and
    [min(tile_height, height - j * step_y)] high and carries
    [tile_overlap].  The tiles are distinct, each lies inside the image
    and is at least 1 x 1 and at most [tile_width] x [tile_height] in
    size.  The tiles' extents cover every pixel, and every pixel lies in
    the leading cell (the first [step_x] columns and [step_y] rows) of
    exactly one tile; with [tile_overlap = 0] every pixel lies in the
    extent of exactly one tile.  The tile size is the configured one: no
    memory budget enters the plan. *)
Theorem generateTiles_covers_image
        (config : GPUConfig) (width height : Z) :
  0 < width -> 0 < height ->
  0 <= tile_overlap config < tile_width config ->
  tile_overlap config < tile_height config ->
  Tiling.counter_end width (Tiling.step_x config) <= int_max ->
  Tiling.counter_end height (Tiling.step_y config) <= int_max ->
  exists fuel tiles,
    Tiling.generateTiles fuel config width height = Some tiles /\
    length tiles
    = (Z.to_nat (Tiling.steps height (Tiling.step_y config))
       * Z.to_nat (Tiling.steps width (Tiling.step_x config)))%nat /\
    (forall i j,
        0 <= i < Tiling.steps width (Tiling.step_x config) ->
        0 <= j < Tiling.steps height (Tiling.step_y config) ->
        tiles !! Z.to_nat (j * Tiling.steps width (Tiling.step_x config) + i)
        = Some {| Tile.x := i * Tiling.step_x config;
                  Tile.y := j * Tiling.step_y config;
                  Tile.width :=
                    Z.min (tile_width config)
                          (width - i * Tiling.step_x config);
                  Tile.height :=
                    Z.min (tile_height config)
                          (height - j * Tiling.step_y config);
                  Tile.overlap := tile_overlap config |}) /\
    NoDup tiles /\
    (forall t, t ∈ tiles ->
               Tiling.in_image width height t /\
               1 <= Tile.width t <= tile_width config /\
               1 <= Tile.height t <= tile_height config /\
               Tile.overlap t = tile_overlap config) /\
    (forall px py, 0 <= px < width -> 0 <= py < height ->
       (exists t, t ∈ tiles /\ Tiling.extent_covers t px py) /\
       (exists t, t ∈ tiles /\ Tiling.cell_covers config t px py /\
                  forall t', t' ∈ tiles ->
                             Tiling.cell_covers config t' px py -> t' = t)) /\
    (tile_overlap config = 0 ->
     forall px py, 0 <= px < width -> 0 <= py < height ->
       exists t, t ∈ tiles /\ Tiling.extent_covers t px py /\
                 forall t', t' ∈ tiles ->
                            Tiling.extent_covers t' px py -> t' = t).
Proof.
  intros Hw Hh Hov Hov' Hxend Hyend.
  assert (Hsx : 0 < Tiling.step_x config) by (unfold Tiling.step_x; lia).
  assert (Hsy : 0 < Tiling.step_y config) by (unfold Tiling.step_y; lia).
  eexists _, _. split; [apply generateTiles_closed; assumption|].
  split; [apply tile_plan_length|].
  split; [intros i j Hi Hj; now rewrite tile_plan_lookup|].
  split; [apply NoDup_tile_plan; assumption|].
  split; [intros t Ht; apply tile_plan_in_image; (assumption || lia)|].
  split.
  - intros px py Hx Hy.
    destruct (tile_plan_cell config width height Hsx Hsy px py Hx Hy)
      as (Hin & Hcell & Huniq).
    split.
    + eexists. split; [exact Hin|].
      apply (cell_in_extent config width height Hsx Hsy); (assumption || lia).
    + eexists. split; [exact Hin|]. split; [exact Hcell | exact Huniq].
  - intros Hzero px py Hx Hy.
    destruct (tile_plan_cell config width height Hsx Hsy px py Hx Hy)
      as (Hin & Hcell & Huniq).
    eexists. split; [exact Hin|]. split.
    + apply (cell_in_extent config width height Hsx Hsy); (assumption || lia).
    + intros t' Ht' Hext. apply Huniq; [exact Ht'|].
      now apply (extent_in_cell config width height Hsx Hsy).
Qed.

Lemma generateTiles_covers_image_witness :
  let config := GPUConfig_tiles 4 4 1 in
  0 < 10 /\ 0 < 10 /\
  0 <= tile_overlap config < tile_width config /\
  tile_overlap config < tile_height config /\
  Tiling.counter_end 10 (Tiling.step_x config) <= int_max /\
  Tiling.counter_end 10 (Tiling.step_y config) <= int_max /\
  exists fuel tiles,
    Tiling.generateTiles fuel config 10 10 = Some tiles /\
    length tiles = 16%nat /\
    tiles !! 6%nat
    = Some {| Tile.x := 6; Tile.y := 3; Tile.width := 4; Tile.height := 4;
              Tile.overlap := 1 |} /\
    NoDup tiles.
Proof.
  intros config.
  assert (H1 : 0 < 10) by lia.
  assert (H2 : 0 <= tile_overlap config < tile_width config) by (simpl; lia).
  assert (H3 : tile_overlap config < tile_height config) by (simpl; lia).
  assert (H4 : Tiling.counter_end 10 (Tiling.step_x config) <= int_max)
    by closed_Z.
  assert (H5 : Tiling.counter_end 10 (Tiling.step_y config) <= int_max)
    by closed_Z.
  split; [exact H1|]. split; [exact H1|]. split; [exact H2|].
  split; [exact H3|]. split; [exact H4|]. split; [exact H5|].
  destruct (generateTiles_covers_image config 10 10 H1 H1 H2 H3 H4 H5)
    as (fuel & tiles & Hgen & Hlen & Hidx & Hnd & _).
  exists fuel, tiles. split; [exact Hgen|]. split; [exact Hlen|].
  split; [|exact Hnd].
  exact (Hidx 2 1 ltac:(vm_compute; split; [discriminate | reflexivity])
              ltac:(vm_compute; split; [discriminate | reflexivity])).
Defined.

(** C3, as stated, fails on the code.  In the tiling scenario of the
    specification (a 20000 x 20000 single-channel image, 4096 x 4096 tiles
    with a halo of 128, a budget of 64 MB, which is more than one row's
    footprint) the plan has 36 tiles; its first tile alone needs 64 MiB for
    one float tensor and three times that by [warpImage]'s own estimate,
    more than the budget; and the pixel (3968, 0) lies in the extents of
    two tiles, both of which [warpImageTiled] writes. *)
Lemma tile_plan_ignores_budget :
  let config := GPUConfig_64MB in
  let tiles := Tiling.tile_plan config 20000 20000 in
  let first := Tiling.make_tile config 20000 20000 0 0 in
  Tiling.generateTiles 20 config 20000 20000 = Some tiles /\
  length tiles = 36%nat /\
  head tiles = Some first /\
  Tiling.tensor_bytes 20000 1 1 <= max_vram_bytes config /\
  Tiling.working_set_bytes (Tile.width first) (Tile.height first) 1
  = 201326592 /\
  max_vram_bytes config / 1 = 67108864 /\
  ~ (Tiling.working_set_bytes (Tile.width first) (Tile.height first) 1
     <= max_vram_bytes config / 1) /\
  length (filter (fun t => Is_true (Tiling.extent_coversb 3968 0 t)) tiles)
  = 2%nat.
Proof.
  intros config tiles first.
  split; [vm_compute; reflexivity|].
  split; [vm_compute; reflexivity|].
  split; [vm_compute; reflexivity|].
  split; [vm_compute; intros H; discriminate H|].
  split; [vm_compute; reflexivity|].
  split; [vm_compute; reflexivity|].
  split; [|vm_compute; reflexivity].
  vm_compute. intros H. apply H. reflexivity.
Qed.

(** ** The warp *)

(** C8.  The code evaluated at a failing input.  A 2 x 2 image of constant
    value 255 is warped with an all-zero displacement field in
    interpolation mode "nearest".  That branch of [warpImage] passes
    [align_corners = false] to [grid_sampler] although the grid of
    [createSamplingGrid] runs from -1 to 1 over the pixel centres (the
    convention of [align_corners = true], which the other branch passes):
    the last column is sampled at x = 1.5, outside the image.  Whichever
    way the integer interpolation codes are read, the output sample at
    (1, 0) is not the source's 255 (it is 0 or 63), so the source is not
    reproduced; the same input is reproduced exactly in mode "bilinear". *)
Theorem warp_nearest_zero_field_not_identity (codes : Torch.InterpolationCodes) :
  let src := constant_image 2 2 255 in
  let field := zero_field 2 2 in
  let nearest := warper_with GPUConfig_default "nearest" in
  let bilinear := warper_with GPUConfig_default "bilinear" in
  at_ src 1 0 0 = 255 /\
  at_ (Warper.warp_direct codes nearest src field) 1 0 0 <> 255 /\
  (exists out,
      Warper.warpImage codes 0 nearest (max_vram_bytes GPUConfig_default)
                       src field Image_default = Some (SUCCESS, out) /\
      data out <> data src) /\
  at_ (Warper.warp_direct Torch.enum_commented nearest src field) 1 0 0 = 0 /\
  at_ (Warper.warp_direct Torch.enum_torch nearest src field) 1 0 0 = 63 /\
  data (Warper.warp_direct codes bilinear src field) = data src.
Proof.
  destruct codes as [[] []]; vm_compute;
    (split; [reflexivity|]);
    (split; [intros H; discriminate H|]);
    (split; [eexists; split; [reflexivity | intros H; discriminate H]|]);
    repeat split.
Qed.

(** C4.  The code evaluated at a failing input.  A 5 x 1 image whose only
    non-zero sample is 255 at x = 3 is warped with a field that moves
    pixel 1 by 2.5 pixels, with 3 x 3 tiles and a halo of 1.  The direct
    path samples pixel 1 at x = 3 and writes 255.  The tiled path builds
    the grid of each tile over the tile alone, normalises the displacement
    by the tile's width, samples inside the tile only (zero outside) and
    writes the whole extent of each tile: pixel 1 is sampled at x = 8/3 of a
    3-pixel tile and comes out 0.  The two outputs differ by 255 at (1, 0),
    whichever way the integer interpolation codes are read, and
    [warpImage] returns the one or the other depending on the free
    memory. *)
Theorem tiled_warp_differs_from_direct (codes : Torch.InterpolationCodes) :
  let w := warper_with (GPUConfig_tiles 3 3 1) "bilinear" in
  let direct := Warper.warp_direct codes w one_row_image one_row_field in
  data direct = [0; 255; 0; 255; 0] /\
  (exists tiled,
      Warper.warpImageTiled codes 10 w one_row_image one_row_field
      = Some (SUCCESS, tiled) /\
      data tiled = [0; 0; 0; 255; 0] /\
      at_ direct 1 0 0 - at_ tiled 1 0 0 = 255) /\
  Warper.warpImage codes 10 w 1000 one_row_image one_row_field Image_default
  = Some (SUCCESS, direct) /\
  Warper.warpImage codes 10 w 0 one_row_image one_row_field Image_default
  = Warper.warpImageTiled codes 10 w one_row_image one_row_field.
Proof.
  destruct codes as [[] []]; vm_compute;
    (split; [reflexivity|]);
    (split; [eexists; repeat split|]);
    split; reflexivity.
Qed.

(* ===================================================================== *)
(** * Part III: further properties of the code                            *)
(* ===================================================================== *)

(** ** [Image::at] *)

Section ImageAccess.

Implicit Types (img : Image).

(** Distinct in-range coordinates address distinct bytes. *)
Lemma index_of_inj img x y c x' y' c' :
  0 <= x < width img -> 0 <= c < channels img ->
  0 <= x' < width img -> 0 <= c' < channels img ->
  index_of img x y c = index_of img x' y' c' ->
  x = x' /\ y = y' /\ c = c'.
Proof.
  unfold index_of. intros Hx Hc Hx' Hc' H.
  set (a := y * width img + x) in *. set (a' := y' * width img + x') in *.
  assert (Ha : a = a').
  { destruct (Z.lt_trichotomy a a') as [Hlt | [Heq | Hgt]]; [|done|].
    - assert ((a + 1) * channels img <= a' * channels img)
        by (apply Z.mul_le_mono_nonneg_r; lia). lia.
    - assert ((a' + 1) * channels img <= a * channels img)
        by (apply Z.mul_le_mono_nonneg_r; lia). lia. }
  assert (Hcc : c = c') by lia.
  subst a a'.
  assert (Hy : y = y').
  { destruct (Z.lt_trichotomy y y') as [Hlt | [Heq | Hgt]]; [|done|].
    - assert ((y + 1) * width img <= y' * width img)
        by (apply Z.mul_le_mono_nonneg_r; lia). lia.
    - assert ((y' + 1) * width img <= y * width img)
        by (apply Z.mul_le_mono_nonneg_r; lia). lia. }
  subst y'. split; [lia|]. split; [done|done].
Qed.

(** In-range coordinates address a byte of the buffer. *)
Lemma index_of_in_range img x y c :
  Stitcher.wf_image img -> in_bounds img x y c ->
  0 <= index_of img x y c < Z.of_nat (length (data img)).
Proof.
  intros (Hw & Hh & Hc & Hl) (Hx & Hy & Hcc). rewrite Hl. unfold index_of.
  assert (0 <= y * width img) by nia.
  assert (0 <= (y * width img + x) * channels img) by nia.
  split; [lia|].
  assert (y * width img + x + 1 <= height img * width img) by nia.
  assert ((y * width img + x + 1) * channels img
          <= height img * width img * channels img)
    by (apply Z.mul_le_mono_nonneg_r; lia).
  lia.
Qed.

Lemma set_at_wf img x y c v :
  Stitcher.wf_image img -> Stitcher.wf_image (set_at img x y c v).
Proof.
  intros H. eapply wf_image_same_shape; [apply same_shape_set_at | exact H].
Qed.

(** Reading after a write. *)
Lemma at_set_at img x y c v x' y' c' :
  Stitcher.wf_image img ->
  in_bounds img x y c -> in_bounds img x' y' c' ->
  at_ (set_at img x y c v) x' y' c'
  = if (x =? x') && (y =? y') && (c =? c') then v else at_ img x' y' c'.
Proof.
  intros Hwf Hb Hb'. unfold at_. simpl.
  change (index_of (set_at img x y c v) x' y' c') with (index_of img x' y' c').
  destruct ((x =? x') && (y =? y') && (c =? c')) eqn:E.
  - apply andb_true_iff in E as [E Ec]. apply andb_true_iff in E as [Ex Ey].
    apply Z.eqb_eq in Ex, Ey, Ec. subst.
    apply get_set_eq. now apply index_of_in_range.
  - apply get_set_ne. intros Heq.
    destruct Hb as (Hx & _ & Hc). destruct Hb' as (Hx' & _ & Hc').
    destruct (index_of_inj img x y c x' y' c' Hx Hc Hx' Hc' Heq)
      as (-> & -> & ->).
    rewrite !Z.eqb_refl in E. discriminate.
Qed.

Lemma in_bounds_same_shape a b x y c :
  same_shape a b -> in_bounds b x y c -> in_bounds a x y c.
Proof. intros (Hw & Hh & Hc & _) H. unfold in_bounds. now rewrite Hw, Hh, Hc. Qed.

End ImageAccess.

(** X1.  On a well-formed image, writing a sample through [at(x, y, c)]
    and reading any in-range sample back gives the written value at the
    same coordinates and the previous value everywhere else; the image
    stays well formed. *)
Theorem Image_at_read_after_write (img : Image) (x y c v x' y' c' : Z) :
  Stitcher.wf_image img ->
  in_bounds img x y c -> in_bounds img x' y' c' ->
  Stitcher.wf_image (set_at img x y c v) /\
  at_ (set_at img x y c v) x' y' c'
  = if (x =? x') && (y =? y') && (c =? c') then v else at_ img x' y' c'.
Proof.
  intros Hwf Hb Hb'. split; [now apply set_at_wf | now apply at_set_at].
Qed.

Lemma Image_at_read_after_write_witness :
  let img := gradient_image 4 3 0 in
  Stitcher.wf_image img /\ in_bounds img 1 2 0 /\ in_bounds img 3 0 0 /\
  at_ (set_at img 1 2 0 200) 1 2 0 = 200 /\
  at_ (set_at img 1 2 0 200) 3 0 0 = at_ img 3 0 0.
Proof.
  intros img.
  assert (Hwf : Stitcher.wf_image img) by closed_Z.
  assert (H1 : in_bounds img 1 2 0) by closed_Z.
  assert (H2 : in_bounds img 3 0 0) by closed_Z.
  split; [exact Hwf|]. split; [exact H1|]. split; [exact H2|]. split.
  - exact (proj2 (Image_at_read_after_write img 1 2 0 200 1 2 0 Hwf H1 H1)).
  - exact (proj2 (Image_at_read_after_write img 1 2 0 200 3 0 0 Hwf H1 H2)).
Defined.

(** ** [DeformationField] *)

Section Fields.

Implicit Types (field : DeformationField).

Lemma field_index_inj field x y x' y' :
  0 <= x < field_width field -> 0 <= x' < field_width field ->
  y * field_width field + x = y' * field_width field + x' ->
  x = x' /\ y = y'.
Proof.
  intros Hx Hx' H.
  assert (Hy : y = y').
  { destruct (Z.lt_trichotomy y y') as [Hlt | [Heq | Hgt]]; [|done|].
    - assert ((y + 1) * field_width field <= y' * field_width field)
        by (apply Z.mul_le_mono_nonneg_r; lia). lia.
    - assert ((y' + 1) * field_width field <= y * field_width field)
        by (apply Z.mul_le_mono_nonneg_r; lia). lia. }
  subst. lia.
Qed.

Lemma setDisplacement_wf field x y a b :
  wf_field field -> wf_field (setDisplacement field x y a b).
Proof.
  intros (Hw & Hh & Hx & Hy). unfold setDisplacement.
  destruct (y * field_width field + x <? 0); [done|].
  unfold wf_field. simpl. rewrite !length_insert. auto.
Qed.

End Fields.

(** X2.  On a displacement field of [width * height] entries,
    [getDisplacement] after [setDisplacement] returns the stored pair at
    the same in-range position and the previous pair at every other
    in-range position; a field built by [DeformationField(w, h)] is well
    formed and reads (0, 0) everywhere. *)
Theorem DeformationField_get_after_set
        (field : DeformationField) (x y x' y' : Z) (a b : Q) :
  wf_field field ->
  0 <= x < field_width field -> 0 <= y < field_height field ->
  0 <= x' < field_width field -> 0 <= y' < field_height field ->
  wf_field (setDisplacement field x y a b) /\
  Warper.getDisplacement (setDisplacement field x y a b) x' y'
  = (if (x =? x') && (y =? y') then (a, b)
     else Warper.getDisplacement field x' y') /\
  (forall w h px py, 0 <= w -> 0 <= h ->
     wf_field (zero_field w h) /\
     Warper.getDisplacement (zero_field w h) px py = (0%Q, 0%Q)).
Proof.
  intros Hwf Hx Hy Hx' Hy'.
  split; [now apply setDisplacement_wf|]. split.
  - destruct Hwf as (Hw & Hh & Hlx & Hly).
    assert (Hi : 0 <= y * field_width field + x < field_width field * field_height field)
      by nia.
    assert (Hi' : 0 <= y' * field_width field + x'
                  < field_width field * field_height field) by nia.
    unfold setDisplacement, Warper.getDisplacement.
    replace (y * field_width field + x <? 0) with false
      by (symmetry; apply Z.ltb_ge; lia).
    simpl.
    replace (y' * field_width field + x' <? 0) with false
      by (symmetry; apply Z.ltb_ge; lia).
    destruct ((x =? x') && (y =? y')) eqn:E.
    + apply andb_true_iff in E as [Ex Ey]. apply Z.eqb_eq in Ex, Ey. subst.
      rewrite !list_lookup_insert_eq by lia. reflexivity.
    + assert (Hne : y * field_width field + x <> y' * field_width field + x').
      { intros Heq.
        destruct (field_index_inj field x y x' y' Hx Hx' Heq) as [-> ->].
        rewrite !Z.eqb_refl in E. discriminate. }
      rewrite !list_lookup_insert_ne by lia. reflexivity.
  - intros w h px py Hw Hh. split.
    + unfold wf_field, zero_field. simpl. rewrite length_replicate.
      assert (0 <= w * h) by nia. lia.
    + unfold Warper.getDisplacement, zero_field. simpl.
      destruct (py * w + px <? 0); [done|].
      destruct (replicate (Z.to_nat (w * h)) 0%Q !! Z.to_nat (py * w + px))
        as [q|] eqn:E; [|done].
      apply lookup_replicate in E as [-> _]. reflexivity.
Qed.

Lemma DeformationField_get_after_set_witness :
  let field := zero_field 3 2 in
  wf_field field /\
  Warper.getDisplacement (setDisplacement field 1 1 (5 # 2) (1 # 4)) 1 1
  = ((5 # 2)%Q, (1 # 4)%Q) /\
  Warper.getDisplacement (setDisplacement field 1 1 (5 # 2) (1 # 4)) 2 0
  = Warper.getDisplacement field 2 0.
Proof.
  intros field.
  assert (Hwf : wf_field field) by closed_Z.
  split; [exact Hwf|]. split.
  - exact (proj1 (proj2 (DeformationField_get_after_set field 1 1 1 1
                           (5 # 2) (1 # 4) Hwf
                           ltac:(simpl; lia) ltac:(simpl; lia)
                           ltac:(simpl; lia) ltac:(simpl; lia)))).
  - exact (proj1 (proj2 (DeformationField_get_after_set field 1 1 2 0
                           (5 # 2) (1 # 4) Hwf
                           ltac:(simpl; lia) ltac:(simpl; lia)
                           ltac:(simpl; lia) ltac:(simpl; lia)))).
Defined.

(** ** The stitcher as a state machine *)

Section StitcherStateMachine.

Variable cv : OpenCV.

Implicit Types (st : Stitcher.StripStitcher) (strip prev : ScanStrip).

Lemma addStrip_uninitialized st strip :
  Stitcher.initialized_ st = false ->
  Stitcher.addStrip cv st strip = (ERROR_INVALID_CONFIG, st).
Proof. intros H. unfold Stitcher.addStrip. now rewrite H. Qed.

(** The four paths of [addStrip]. *)
Lemma addStrip_cases st strip :
  (Stitcher.initialized_ st = false /\
   Stitcher.addStrip cv st strip = (ERROR_INVALID_CONFIG, st)) \/
  (Stitcher.initialized_ st = true /\ Stitcher.strips_ st = [] /\
   fst (Stitcher.addStrip cv st strip) = SUCCESS /\
   Stitcher.strips_ (snd (Stitcher.addStrip cv st strip)) = [strip] /\
   Stitcher.stitched_image_ (snd (Stitcher.addStrip cv st strip))
   = image strip) \/
  (exists prev,
      Stitcher.initialized_ st = true /\
      last (Stitcher.strips_ st) = Some prev /\
      Stitcher.success (Stitcher.alignStrips cv st (image prev) (image strip))
        = false /\
      fst (Stitcher.addStrip cv st strip) = ERROR_STITCHING_FAILED /\
      Stitcher.strips_ (snd (Stitcher.addStrip cv st strip))
      = Stitcher.strips_ st /\
      Stitcher.stitched_image_ (snd (Stitcher.addStrip cv st strip))
      = Stitcher.stitched_image_ st) \/
  (exists prev,
      Stitcher.initialized_ st = true /\
      last (Stitcher.strips_ st) = Some prev /\
      Stitcher.success (Stitcher.alignStrips cv st (image prev) (image strip))
        = true /\
      fst (Stitcher.addStrip cv st strip) = SUCCESS /\
      Stitcher.strips_ (snd (Stitcher.addStrip cv st strip))
      = Stitcher.strips_ st ++ [strip] /\
      Stitcher.stitched_image_ (snd (Stitcher.addStrip cv st strip))
      = Stitcher.fuse_strip st strip
          (Stitcher.alignStrips cv st (image prev) (image strip))
          (Stitcher.grow_composite st strip)).
Proof.
  destruct (Stitcher.initialized_ st) eqn:Hi.
  2:{ left. split; [done|]. now apply addStrip_uninitialized. }
  right.
  destruct (last (Stitcher.strips_ st)) as [prev|] eqn:Hl.
  - right.
    destruct (Stitcher.success
                (Stitcher.alignStrips cv st (image prev) (image strip)))
      eqn:Hs.
    + right. exists prev.
      rewrite (addStrip_accepted cv st strip prev Hi Hl Hs). simpl. auto 10.
    + left. exists prev.
      rewrite (addStrip_rejected cv st strip prev Hi Hl Hs). simpl. auto 10.
  - left. rewrite (addStrip_first cv st strip Hi Hl). simpl.
    apply last_None in Hl. rewrite Hl. auto 10.
Qed.

(** In the accumulating state the geometry of the composite is kept and
    its height does not decrease, whatever the outcome. *)
Lemma addStrip_accumulating_shape st strip :
  Stitcher.strips_ st <> [] ->
  Stitcher.wf_image (Stitcher.stitched_image_ st) ->
  let st' := snd (Stitcher.addStrip cv st strip) in
  Stitcher.strips_ st' <> [] /\
  Stitcher.wf_image (Stitcher.stitched_image_ st') /\
  width (Stitcher.stitched_image_ st') = width (Stitcher.stitched_image_ st) /\
  channels (Stitcher.stitched_image_ st')
  = channels (Stitcher.stitched_image_ st) /\
  bit_depth (Stitcher.stitched_image_ st')
  = bit_depth (Stitcher.stitched_image_ st) /\
  height (Stitcher.stitched_image_ st) <= height (Stitcher.stitched_image_ st').
Proof.
  intros Hne Hwf st'. subst st'.
  destruct (addStrip_cases st strip)
    as [[_ ->] | [(_ & He & _) | [(prev & _ & _ & _ & _ & Hs & Hi)
                                 | (prev & _ & _ & _ & _ & Hs & Hi)]]].
  - simpl. split; [done|]. split; [exact Hwf|]. repeat split; lia.
  - contradiction.
  - rewrite Hs, Hi. split; [done|]. split; [exact Hwf|]. repeat split; lia.
  - rewrite Hs, Hi.
    destruct (grow_composite_spec st strip Hwf) as (Hgw & Hgc & Hgh & Hgwf & _).
    pose proof Hgwf as (Hw & _ & Hch & _).
    set (stats := Stitcher.alignStrips cv st (image prev) (image strip)).
    destruct (fuse_strip_frame st strip stats (Stitcher.grow_composite st strip)
                (index_of (Stitcher.grow_composite st strip) 0
                          (Stitcher.insert_y st) 0) Hw Hch (Z.le_refl _))
      as [Hshape _].
    pose proof Hshape as (Hfw & Hfh & Hfc & Hfb & _).
    split; [now destruct (Stitcher.strips_ st)|].
    split; [eapply wf_image_same_shape; eassumption|].
    split; [congruence|]. split; [congruence|].
    split; [|lia]. rewrite Hfb. unfold Stitcher.grow_composite.
    now destruct (height (Stitcher.stitched_image_ st)
                  <? Stitcher.new_height st strip).
Qed.

Lemma addStrip_history_step st strip :
  Stitcher.strips_ (snd (Stitcher.addStrip cv st strip))
  = Stitcher.strips_ st
    ++ (if is_SUCCESS (fst (Stitcher.addStrip cv st strip))
        then [strip] else []).
Proof.
  destruct (addStrip_cases st strip)
    as [[_ ->] | [(_ & He & Hc & Hs & _)
                 | [(prev & _ & _ & _ & Hc & Hs & _)
                   | (prev & _ & _ & _ & Hc & Hs & _)]]].
  - simpl. now rewrite app_nil_r.
  - rewrite Hc, Hs, He. reflexivity.
  - rewrite Hc, Hs. simpl. now rewrite app_nil_r.
  - rewrite Hc, Hs. reflexivity.
Qed.

Lemma accepted_strips_cons code codes s l :
  accepted_strips (code :: codes) (s :: l)
  = (if is_SUCCESS code then [s] else []) ++ accepted_strips codes l.
Proof. now destruct code. Qed.

End StitcherStateMachine.

(** X3.  [addStrip] answers with one of three codes.  It returns
    [ERROR_INVALID_CONFIG] exactly when the stitcher is not initialized, and
    then changes nothing at all; it returns [ERROR_STITCHING_FAILED] only in
    the accumulating state, leaving composite and history as they were; and
    on [SUCCESS] the history has grown by exactly the new strip. *)
Theorem addStrip_status_codes
        (cv : OpenCV) (st : Stitcher.StripStitcher) (strip : ScanStrip) :
  let code := fst (Stitcher.addStrip cv st strip) in
  let st' := snd (Stitcher.addStrip cv st strip) in
  (code = SUCCESS \/ code = ERROR_STITCHING_FAILED
   \/ code = ERROR_INVALID_CONFIG) /\
  (code = ERROR_INVALID_CONFIG <-> Stitcher.initialized_ st = false) /\
  (code = ERROR_INVALID_CONFIG -> st' = st) /\
  (code = ERROR_STITCHING_FAILED ->
   Stitcher.strips_ st <> [] /\
   Stitcher.strips_ st' = Stitcher.strips_ st /\
   Stitcher.getStitchedImage st' = Stitcher.getStitchedImage st) /\
  (code = SUCCESS ->
   Stitcher.strips_ st' = Stitcher.strips_ st ++ [strip]).
Proof.
  intros code st'. subst code st'.
  destruct (addStrip_cases cv st strip)
    as [[Hi ->] | [(Hi & He & Hc & Hs & Him)
                  | [(prev & Hi & Hl & _ & Hc & Hs & Him)
                    | (prev & Hi & Hl & _ & Hc & Hs & Him)]]]; simpl.
  - split; [auto|]. split; [tauto|]. split; [done|].
    split; intros H; discriminate H.
  - rewrite Hc. split; [auto|].
    split; [split; intros H; [discriminate H | congruence]|].
    split; [intros H; discriminate H|].
    split; [intros H; discriminate H|]. intros _. now rewrite Hs, He.
  - rewrite Hc. split; [auto|].
    split; [split; intros H; [discriminate H | congruence]|].
    split; [intros H; discriminate H|].
    split; [|intros H; discriminate H]. intros _.
    split; [intros E; rewrite E in Hl; discriminate Hl|].
    split; [exact Hs | exact Him].
  - rewrite Hc. split; [auto|].
    split; [split; intros H; [discriminate H | congruence]|].
    split; [intros H; discriminate H|].
    split; [intros H; discriminate H|]. intros _. exact Hs.
Qed.

(** X4.  [reset] returns an initialized stitcher to the empty state without
    un-initializing it: the next strip is accepted unconditionally, whatever
    the alignment library would say, and becomes the composite, the whole
    history and the height counter; the parameters are kept. *)
Theorem addStrip_after_reset
        (cv : OpenCV) (st : Stitcher.StripStitcher) (strip : ScanStrip) :
  Stitcher.initialized_ st = true ->
  let st' := snd (Stitcher.addStrip cv (Stitcher.reset st) strip) in
  fst (Stitcher.addStrip cv (Stitcher.reset st) strip) = SUCCESS /\
  Stitcher.getStitchedImage st' = image strip /\
  Stitcher.strips_ st' = [strip] /\
  Stitcher.current_height_ st' = height (image strip) /\
  Stitcher.params_ st' = Stitcher.params_ st /\
  Stitcher.initialized_ st' = true /\
  forall cv', Stitcher.addStrip cv' (Stitcher.reset st) strip
              = Stitcher.addStrip cv (Stitcher.reset st) strip.
Proof.
  intros Hi st'. subst st'.
  assert (Hr : Stitcher.initialized_ (Stitcher.reset st) = true) by exact Hi.
  assert (Hl : last (Stitcher.strips_ (Stitcher.reset st)) = None)
    by reflexivity.
  rewrite (addStrip_first cv _ strip Hr Hl). simpl.
  repeat split; try done.
  intros cv'. now rewrite (addStrip_first cv' _ strip Hr Hl).
Qed.

Lemma addStrip_after_reset_witness :
  let st := seeded_stitcher 2 in
  let strip := gradient_strip 5 2 7 in
  Stitcher.initialized_ st = true /\
  Stitcher.getStitchedImage
    (snd (Stitcher.addStrip cv_reject (Stitcher.reset st) strip))
  = image strip /\
  Stitcher.strips_
    (snd (Stitcher.addStrip cv_reject (Stitcher.reset st) strip)) = [strip].
Proof.
  intros st strip.
  pose proof (addStrip_after_reset cv_reject st strip eq_refl)
    as (_ & H1 & H2 & _).
  split; [reflexivity|]. split; [exact H1 | exact H2].
Defined.

(** X5.  The composite buffer stays well formed.  With blending enabled
    and a positive overlap (the configuration in which every buffer
    access of [addStrip] is in range, whatever the widths of the strips),
    starting from a composite that holds exactly
    [width * height * channels] samples, feeding any sequence of
    well-formed strips leaves a composite that does, whatever each call
    returns. *)
Theorem addStrips_composite_well_formed
        (cv : OpenCV) (l : list ScanStrip) (st : Stitcher.StripStitcher) :
  Stitcher.blending_enabled_ st = true ->
  0 < overlap_pixels (Stitcher.params_ st) ->
  Stitcher.wf_image (Stitcher.stitched_image_ st) ->
  Forall (fun s => Stitcher.wf_image (image s)) l ->
  Stitcher.wf_image
    (Stitcher.getStitchedImage (snd (Stitcher.addStrips cv st l))).
Proof.
  intros _ _. revert st.
  induction l as [|s l IH]; intros st Hwf Hall; [exact Hwf|].
  apply Forall_cons in Hall as [Hs Hall].
  rewrite addStrips_cons. cbn [snd]. apply IH; [|exact Hall].
  now apply addStrip_wf.
Qed.

Lemma addStrips_composite_well_formed_witness :
  let st := stitcher_with_overlap 1 in
  let l := [gradient_strip 4 3 0; gradient_strip 4 3 1; gradient_strip 4 2 2] in
  Stitcher.wf_image (Stitcher.stitched_image_ st) /\
  Forall (fun s => Stitcher.wf_image (image s)) l /\
  Stitcher.wf_image
    (Stitcher.getStitchedImage (snd (Stitcher.addStrips cv_accept st l))).
Proof.
  intros st l.
  assert (H1 : Stitcher.wf_image (Stitcher.stitched_image_ st)) by closed_Z.
  assert (H2 : Forall (fun s => Stitcher.wf_image (image s)) l)
    by (repeat constructor; closed_Z).
  split; [exact H1|]. split; [exact H2|].
  exact (addStrips_composite_well_formed cv_accept l st eq_refl eq_refl H1 H2).
Defined.

(** X6.  Over any run of [addStrip] calls, one status code is returned per
    strip and the history is the previous history followed by exactly the
    strips that were answered with [SUCCESS], in order of arrival. *)
Theorem addStrips_history
        (cv : OpenCV) (l : list ScanStrip) (st : Stitcher.StripStitcher) :
  let codes := fst (Stitcher.addStrips cv st l) in
  let st' := snd (Stitcher.addStrips cv st l) in
  length codes = length l /\
  Stitcher.strips_ st' = Stitcher.strips_ st ++ accepted_strips codes l.
Proof.
  revert st. induction l as [|s l IH]; intros st; cbv zeta.
  - simpl. now rewrite app_nil_r.
  - rewrite addStrips_cons. cbn [fst snd].
    destruct (IH (snd (Stitcher.addStrip cv st s))) as [Hlen Hhist].
    split; [simpl; now rewrite Hlen|].
    rewrite Hhist, accepted_strips_cons, app_assoc. f_equal.
    apply addStrip_history_step.
Qed.

(** X7.  Once the stitcher holds a strip, the composite's width, channel
    count and bit depth are fixed for the rest of the run and its height
    never decreases: after any further sequence of [addStrip] calls,
    whatever they return, the three are what they were and the height is at
    least what it was. *)
Theorem addStrips_geometry_fixed
        (cv : OpenCV) (l : list ScanStrip) (st : Stitcher.StripStitcher) :
  Stitcher.strips_ st <> [] ->
  Stitcher.wf_image (Stitcher.stitched_image_ st) ->
  let st' := snd (Stitcher.addStrips cv st l) in
  width (Stitcher.getStitchedImage st') = width (Stitcher.getStitchedImage st) /\
  channels (Stitcher.getStitchedImage st')
  = channels (Stitcher.getStitchedImage st) /\
  bit_depth (Stitcher.getStitchedImage st')
  = bit_depth (Stitcher.getStitchedImage st) /\
  height (Stitcher.getStitchedImage st)
  <= height (Stitcher.getStitchedImage st').
Proof.
  unfold Stitcher.getStitchedImage.
  revert st. induction l as [|s l IH]; intros st Hne Hwf; cbv zeta.
  - simpl. repeat split; lia.
  - rewrite addStrips_cons. cbn [snd].
    destruct (addStrip_accumulating_shape cv st s Hne Hwf)
      as (Hne' & Hwf' & Hw & Hc & Hb & Hh).
    destruct (IH _ Hne' Hwf') as (Hw' & Hc' & Hb' & Hh').
    repeat split; try congruence. lia.
Qed.

Lemma addStrips_geometry_fixed_witness :
  let st := seeded_stitcher 1 in
  let l := [gradient_strip 4 3 1; gradient_strip 6 1 2; gradient_strip 4 2 3] in
  Stitcher.strips_ st <> [] /\
  Stitcher.wf_image (Stitcher.stitched_image_ st) /\
  width (Stitcher.getStitchedImage (snd (Stitcher.addStrips cv_accept st l)))
  = width (Stitcher.getStitchedImage st) /\
  height (Stitcher.getStitchedImage st)
  <= height (Stitcher.getStitchedImage (snd (Stitcher.addStrips cv_accept st l))).
Proof.
  intros st l.
  assert (H1 : Stitcher.strips_ st <> []) by (intros E; discriminate E).
  assert (H2 : Stitcher.wf_image (Stitcher.stitched_image_ st)) by closed_Z.
  pose proof (addStrips_geometry_fixed cv_accept l st H1 H2)
    as (Hw & _ & _ & Hh).
  split; [exact H1|]. split; [exact H2|]. split; [exact Hw | exact Hh].
Defined.

(** X8.  In the accumulating state, [getLastAlignmentStats] after
    [addStrip] is the alignment of the new strip against the most recent
    accepted strip, and its [success] flag is true exactly when [addStrip]
    returned [SUCCESS]. *)
Theorem addStrip_last_alignment
        (cv : OpenCV) (st : Stitcher.StripStitcher) (strip prev : ScanStrip) :
  Stitcher.initialized_ st = true ->
  last (Stitcher.strips_ st) = Some prev ->
  let st' := snd (Stitcher.addStrip cv st strip) in
  Stitcher.getLastAlignmentStats st'
  = Stitcher.phaseCorrelation cv st (image prev) (image strip) /\
  (Stitcher.success (Stitcher.getLastAlignmentStats st') = true
   <-> fst (Stitcher.addStrip cv st strip) = SUCCESS).
Proof.
  intros Hi Hl st'. subst st'.
  change (Stitcher.phaseCorrelation cv st (image prev) (image strip))
    with (Stitcher.alignStrips cv st (image prev) (image strip)).
  destruct (Stitcher.success
              (Stitcher.alignStrips cv st (image prev) (image strip))) eqn:Hs.
  - rewrite (addStrip_accepted cv st strip prev Hi Hl Hs). simpl.
    split; [reflexivity|]. now rewrite Hs.
  - rewrite (addStrip_rejected cv st strip prev Hi Hl Hs). simpl.
    split; [reflexivity|]. rewrite Hs. split; intros H; discriminate H.
Qed.

Lemma addStrip_last_alignment_witness :
  let st := seeded_stitcher 2 in
  let strip := gradient_strip 4 3 1 in
  let prev := gradient_strip 4 3 0 in
  Stitcher.initialized_ st = true /\
  last (Stitcher.strips_ st) = Some prev /\
  Stitcher.success
    (Stitcher.getLastAlignmentStats
       (snd (Stitcher.addStrip cv_reject st strip))) = false /\
  fst (Stitcher.addStrip cv_reject st strip) <> SUCCESS.
Proof.
  intros st strip prev.
  pose proof (addStrip_last_alignment cv_reject st strip prev eq_refl eq_refl)
    as [Heq Hiff].
  split; [reflexivity|]. split; [reflexivity|].
  assert (Hf : Stitcher.success
                 (Stitcher.getLastAlignmentStats
                    (snd (Stitcher.addStrip cv_reject st strip))) = false)
    by (rewrite Heq; reflexivity).
  split; [exact Hf|].
  intros Hc. apply Hiff in Hc. rewrite Hf in Hc. discriminate Hc.
Defined.
Section BlendSpec.

Implicit Types (target source r : Image) (st : Stitcher.StripStitcher).

(** What the inner loop of [blendOverlapRegion] leaves in the target after
    the first [k] columns of source row [y]. *)
Lemma blend_row_prefix alpha source offset_x ty y target (k : nat) :
  Stitcher.wf_image target -> 0 <= ty < height target ->
  let r := fold_left (Stitcher.blend_pixel alpha source offset_x ty y)
                     (seqZ 0 (Z.of_nat k)) target in
  same_shape r target /\
  forall px py pc, in_bounds target px py pc ->
    at_ r px py pc =
    if (pc =? 0) && (py =? ty) && (0 <=? px - offset_x)
       && (px - offset_x <? Z.of_nat k)
    then Stitcher.linear_blend alpha (at_ source (px - offset_x) y 0)
                               (at_ target px ty 0)
    else at_ target px py pc.
Proof.
  intros Hwf Hty. induction k as [|k IH]; cbv zeta.
  - simpl. split; [apply same_shape_refl|]. intros px py pc _.
    change (Z.of_nat 0) with 0.
    destruct (Z.leb_spec 0 (px - offset_x)), (Z.ltb_spec (px - offset_x) 0);
      rewrite ?andb_false_r; try reflexivity; lia.
  - rewrite seqZ_S, fold_left_app. simpl fold_left. rewrite Z.add_0_l.
    destruct IH as [Hs Hg].
    set (r := fold_left (Stitcher.blend_pixel alpha source offset_x ty y)
                        (seqZ 0 (Z.of_nat k)) target) in *.
    assert (Hrwf : Stitcher.wf_image r) by (eapply wf_image_same_shape; eauto).
    pose proof Hs as (Hrw & Hrh & Hrc & _).
    unfold Stitcher.blend_pixel.
    destruct ((Z.of_nat k + offset_x <? 0)
              || (width r <=? Z.of_nat k + offset_x)) eqn:E.
    + split; [exact Hs|]. intros px py pc Hb. rewrite (Hg px py pc Hb).
      assert (Hne : px - offset_x <> Z.of_nat k).
      { intros Heq. destruct Hb as (Hx & _).
        apply orb_true_iff in E as [E|E];
          [apply Z.ltb_lt in E | apply Z.leb_le in E]; lia. }
      replace (px - offset_x <? Z.of_nat (S k))
        with (px - offset_x <? Z.of_nat k); [done|].
      destruct (Z.ltb_spec (px - offset_x) (Z.of_nat k)),
               (Z.ltb_spec (px - offset_x) (Z.of_nat (S k))); lia || done.
    + apply orb_false_iff in E as [E1 E2].
      apply Z.ltb_ge in E1. apply Z.leb_gt in E2.
      assert (Hbt : in_bounds r (Z.of_nat k + offset_x) ty 0).
      { destruct Hrwf as (_ & _ & Hc & _). unfold in_bounds. lia. }
      split.
      * eapply same_shape_trans; [apply same_shape_set_at | exact Hs].
      * intros px py pc Hb.
        assert (Hbr : in_bounds r px py pc)
          by (eapply in_bounds_same_shape; eauto).
        rewrite at_set_at by assumption.
        assert (Hbt' : in_bounds target (Z.of_nat k + offset_x) ty 0).
        { unfold in_bounds in *. lia. }
        rewrite (Hg _ _ _ Hbt'). rewrite (Hg px py pc Hb).
        replace (Z.of_nat k + offset_x - offset_x) with (Z.of_nat k) by lia.
        rewrite Z.ltb_irrefl, andb_false_r.
        destruct (Z.eqb_spec (Z.of_nat k + offset_x) px) as [Hx|Hx];
          destruct (Z.eqb_spec ty py) as [Hy|Hy];
          destruct (Z.eqb_spec 0 pc) as [Hc|Hc];
          destruct (Z.eqb_spec pc 0); try lia;
          destruct (Z.eqb_spec py ty); try lia;
          destruct (Z.leb_spec 0 (px - offset_x));
          destruct (Z.ltb_spec (px - offset_x) (Z.of_nat k));
          destruct (Z.ltb_spec (px - offset_x) (Z.of_nat (S k)));
          simpl; try lia; try reflexivity.
        all: subst; repeat f_equal; lia.
Qed.


(** A whole source row. *)
Lemma blend_row_spec blend_height source offset_x offset_y target y :
  Stitcher.wf_image target -> 0 <= width source ->
  let r := Stitcher.blend_row blend_height source offset_x offset_y target y in
  same_shape r target /\
  forall px py pc, in_bounds target px py pc ->
    at_ r px py pc =
    if (pc =? 0) && (py =? offset_y + y) && (0 <=? px - offset_x)
       && (px - offset_x <? width source)
    then Stitcher.linear_blend (Stitcher.blend_alpha y blend_height)
                               (at_ source (px - offset_x) y 0)
                               (at_ target px py 0)
    else at_ target px py pc.
Proof.
  intros Hwf Hws. unfold Stitcher.blend_row. cbv zeta.
  destruct ((offset_y + y <? 0) || (height target <=? offset_y + y)) eqn:E.
  - split; [apply same_shape_refl|]. intros px py pc (_ & Hy & _).
    replace (py =? offset_y + y) with false;
      [now rewrite andb_false_r|].
    symmetry. apply Z.eqb_neq.
    apply orb_true_iff in E as [E|E];
      [apply Z.ltb_lt in E | apply Z.leb_le in E]; lia.
  - apply orb_false_iff in E as [E1 E2].
    apply Z.ltb_ge in E1. apply Z.leb_gt in E2.
    destruct (blend_row_prefix (Stitcher.blend_alpha y blend_height) source
                offset_x (offset_y + y) y target (Z.to_nat (width source))
                Hwf ltac:(lia)) as [Hs Hg].
    rewrite Z2Nat.id in * by lia.
    split; [exact Hs|]. intros px py pc Hb. rewrite (Hg px py pc Hb).
    destruct (Z.eqb_spec py (offset_y + y)) as [->|]; [reflexivity|].
    now rewrite andb_false_r.
Qed.

(** What [blendOverlapRegion] leaves in the target after the first [k]
    source rows. *)
Lemma blendOverlapRegion_prefix blend_height source offset_x offset_y target
      (k : nat) :
  Stitcher.wf_image target -> 0 <= width source ->
  let r := fold_left (Stitcher.blend_row blend_height source offset_x offset_y)
                     (seqZ 0 (Z.of_nat k)) target in
  same_shape r target /\
  forall px py pc, in_bounds target px py pc ->
    at_ r px py pc =
    if (pc =? 0) && (0 <=? py - offset_y) && (py - offset_y <? Z.of_nat k)
       && (0 <=? px - offset_x) && (px - offset_x <? width source)
    then Stitcher.linear_blend
           (Stitcher.blend_alpha (py - offset_y) blend_height)
           (at_ source (px - offset_x) (py - offset_y) 0)
           (at_ target px py 0)
    else at_ target px py pc.
Proof.
  intros Hwf Hws. induction k as [|k IH]; cbv zeta.
  - simpl. split; [apply same_shape_refl|]. intros px py pc _.
    change (Z.of_nat 0) with 0.
    destruct (Z.leb_spec 0 (py - offset_y)), (Z.ltb_spec (py - offset_y) 0);
      rewrite ?andb_false_r; try reflexivity; lia.
  - rewrite seqZ_S, fold_left_app. simpl fold_left. rewrite Z.add_0_l.
    destruct IH as [Hs Hg].
    set (r := fold_left (Stitcher.blend_row blend_height source offset_x
                                            offset_y)
                        (seqZ 0 (Z.of_nat k)) target) in *.
    assert (Hrwf : Stitcher.wf_image r) by (eapply wf_image_same_shape; eauto).
    destruct (blend_row_spec blend_height source offset_x offset_y r
                (Z.of_nat k) Hrwf Hws) as [Hs' Hg'].
    split; [eapply same_shape_trans; eauto|].
    intros px py pc Hb.
    assert (Hbr : in_bounds r px py pc)
      by (eapply in_bounds_same_shape; eauto).
    rewrite (Hg' px py pc Hbr).
    assert (Hb0 : in_bounds target px py 0).
    { destruct Hwf as (_ & _ & Hc & _). unfold in_bounds in *. lia. }
    rewrite (Hg px py pc Hb), (Hg px py 0 Hb0).
    destruct (Z.eqb_spec pc 0);
      destruct (Z.eqb_spec py (offset_y + Z.of_nat k));
      destruct (Z.leb_spec 0 (py - offset_y));
      destruct (Z.ltb_spec (py - offset_y) (Z.of_nat k));
      destruct (Z.ltb_spec (py - offset_y) (Z.of_nat (S k)));
      destruct (Z.leb_spec 0 (px - offset_x));
      destruct (Z.ltb_spec (px - offset_x) (width source));
      simpl; try lia; try reflexivity.
    all: subst; repeat f_equal; lia.
Qed.

Lemma blendOverlapRegion_spec st target source offset_x offset_y :
  Stitcher.wf_image target -> Stitcher.wf_image source ->
  let r := Stitcher.blendOverlapRegion st target source offset_x offset_y in
  same_shape r target /\
  forall px py pc, in_bounds target px py pc ->
    at_ r px py pc =
    if (pc =? 0)
       && (0 <=? py - offset_y) && (py - offset_y <? height source)
       && (0 <=? px - offset_x) && (px - offset_x <? width source)
    then Stitcher.linear_blend
           (Stitcher.blend_alpha (py - offset_y)
                                 (overlap_pixels (Stitcher.params_ st)))
           (at_ source (px - offset_x) (py - offset_y) 0)
           (at_ target px py 0)
    else at_ target px py pc.
Proof.
  intros Hwf (Hsw & Hsh & _). unfold Stitcher.blendOverlapRegion.
  pose proof (blendOverlapRegion_prefix (overlap_pixels (Stitcher.params_ st))
                source offset_x offset_y target (Z.to_nat (height source))
                Hwf Hsw) as H.
  now rewrite Z2Nat.id in H by lia.
Qed.

End BlendSpec.

(** ** Samples are bytes *)

Section Bytes.

Lemma bytes_check (d : list Z) :
  forallb (fun v => (0 <=? v) && (v <=? 255)) d = true -> bytes d.
Proof.
  intros H. apply Forall_forall. intros v Hv.
  rewrite forallb_forall in H. apply list_elem_of_In in Hv.
  apply H in Hv. apply andb_true_iff in Hv as [H1 H2].
  apply Z.leb_le in H1. apply Z.leb_le in H2. lia.
Qed.

Lemma bytes_get (d : list Z) (i : Z) : bytes d -> 0 <= Buffer.get d i <= 255.
Proof.
  intros H. unfold Buffer.get. destruct (i <? 0); [lia|].
  destruct (d !! Z.to_nat i) as [v|] eqn:E; simpl; [|lia].
  exact (proj1 (Forall_lookup _ _) H _ _ E).
Qed.

Lemma bytes_at (img : Image) (x y c : Z) :
  bytes (data img) -> 0 <= at_ img x y c <= 255.
Proof. intros H. now apply bytes_get. Qed.

Lemma bytes_set (d : list Z) (i v : Z) :
  bytes d -> 0 <= v <= 255 -> bytes (Buffer.set d i v).
Proof.
  intros H Hv. unfold Buffer.set. destruct (i <? 0); [done|].
  now apply Forall_insert.
Qed.

Lemma bytes_memcpy (n : nat) (dst src : list Z) (a s : Z) :
  bytes dst -> bytes src -> bytes (Buffer.memcpy n dst a src s).
Proof.
  revert dst a s. induction n as [|n IH]; intros dst a s Hd Hs; [done|].
  simpl. apply IH; [|done]. apply bytes_set; [done | now apply bytes_get].
Qed.

Lemma bytes_zeros (n : Z) : bytes (Buffer.zeros n).
Proof. apply Forall_replicate. lia. Qed.

Lemma bytes_grow_composite (st : Stitcher.StripStitcher) (strip : ScanStrip) :
  bytes (data (Stitcher.stitched_image_ st)) ->
  bytes (data (Stitcher.grow_composite st strip)).
Proof.
  intros H. unfold Stitcher.grow_composite.
  destruct (height (Stitcher.stitched_image_ st) <? Stitcher.new_height st strip);
    [|done].
  simpl. apply bytes_memcpy; [apply bytes_zeros | done].
Qed.

End Bytes.

(** ** The simple copy, sample by sample *)

Section SimpleCopySpec.

Implicit Types (dst src r : Image).

Lemma simple_copy_prefix dst src insert_y (k : nat) :
  Stitcher.wf_image dst -> Stitcher.wf_image src ->
  channels dst = 1 -> channels src = 1 -> width src <= width dst ->
  Z.of_nat k <= height src ->
  let r := fold_left (Stitcher.copy_row src insert_y)
                     (seqZ 0 (Z.of_nat k)) dst in
  same_shape r dst /\
  forall px py, in_bounds dst px py 0 ->
    at_ r px py 0 =
    if (0 <=? py - insert_y) && (py - insert_y <? Z.of_nat k)
       && (px <? width src)
    then at_ src px (py - insert_y) 0
    else at_ dst px py 0.
Proof.
  intros Hwd Hws Hcd Hcs Hw Hk. induction k as [|k IH]; cbv zeta.
  - simpl. split; [apply same_shape_refl|]. intros px py _.
    change (Z.of_nat 0) with 0.
    destruct (Z.leb_spec 0 (py - insert_y)), (Z.ltb_spec (py - insert_y) 0);
      simpl; try reflexivity; lia.
  - rewrite seqZ_S, fold_left_app. simpl fold_left. rewrite Z.add_0_l.
    destruct IH as [Hs Hg]; [lia|].
    set (r := fold_left (Stitcher.copy_row src insert_y)
                        (seqZ 0 (Z.of_nat k)) dst) in *.
    pose proof Hs as (Hrw & Hrh & Hrc & Hrb & Hrl).
    pose proof Hwd as (Hdw & Hdh & _ & Hdl).
    pose proof Hws as (Hsw & Hsh & _ & Hsl).
    unfold Stitcher.copy_row.
    destruct ((0 <=? insert_y + Z.of_nat k)
              && (insert_y + Z.of_nat k <? height r)) eqn:E.
    + apply andb_true_iff in E as [E1 E2].
      apply Z.leb_le in E1. apply Z.ltb_lt in E2.
      split.
      { eapply same_shape_trans;
          [apply same_shape_with_data, length_memcpy | exact Hs]. }
      intros px py (Hx & Hy & _).
      specialize (Hg px py ltac:(unfold in_bounds; lia)).
      unfold at_, with_data in Hg |- *. cbn [data] in Hg |- *.
      unfold index_of in Hg |- *. cbn [width channels] in Hg |- *.
      rewrite get_memcpy.
      rewrite ?Hrw, ?Hrc, ?Hcd, ?Hcs, ?Hrl, ?Hdl, ?Z.mul_1_r, ?Z.add_0_r in Hg.
      rewrite ?Hrw, ?Hrc, ?Hcd, ?Hcs, ?Hrl, ?Hdl, ?Z.mul_1_r, ?Z.add_0_r.
      rewrite ?Hcd, ?Z.mul_1_r.
      rewrite Z2Nat.id by lia.
      set (W := width dst) in *. set (ws := width src) in *.
      assert (Hin : 0 <= py * W + px < W * height dst) by nia.
      destruct (Z.lt_trichotomy py (insert_y + Z.of_nat k))
        as [Hlt | [Heq | Hgt]].
      * assert ((py + 1) * W <= (insert_y + Z.of_nat k) * W)
          by (apply Z.mul_le_mono_nonneg_r; lia).
        replace ((insert_y + Z.of_nat k) * W <=? py * W + px) with false
          by (symmetry; apply Z.leb_gt; lia).
        simpl. rewrite Hg.
        replace (py - insert_y <? Z.of_nat (S k))
          with (py - insert_y <? Z.of_nat k); [done|].
        destruct (Z.ltb_spec (py - insert_y) (Z.of_nat k)),
                 (Z.ltb_spec (py - insert_y) (Z.of_nat (S k))); lia || done.
      * subst py.
        replace ((insert_y + Z.of_nat k) * W
                 <=? (insert_y + Z.of_nat k) * W + px) with true
          by (symmetry; apply Z.leb_le; lia).
        replace (0 <=? (insert_y + Z.of_nat k) * W + px) with true
          by (symmetry; apply Z.leb_le; lia).
        replace ((insert_y + Z.of_nat k) * W + px <? W * height dst) with true
          by (symmetry; apply Z.ltb_lt; lia).
        replace (insert_y + Z.of_nat k - insert_y) with (Z.of_nat k) by lia.
        replace (0 <=? Z.of_nat k) with true by (symmetry; apply Z.leb_le; lia).
        replace (Z.of_nat k <? Z.of_nat (S k)) with true
          by (symmetry; apply Z.ltb_lt; lia).
        simpl. rewrite andb_true_r.
        replace ((insert_y + Z.of_nat k) * W + px
                 <? (insert_y + Z.of_nat k) * W + ws) with (px <? ws).
        2:{ destruct (Z.ltb_spec px ws),
                     (Z.ltb_spec ((insert_y + Z.of_nat k) * W + px)
                                 ((insert_y + Z.of_nat k) * W + ws));
              lia || done. }
        destruct (Z.ltb_spec px ws).
        -- f_equal. lia.
        -- rewrite Hg. replace (Z.of_nat k <? Z.of_nat k) with false
             by (symmetry; apply Z.ltb_ge; lia).
           now rewrite andb_false_r.
      * assert ((insert_y + Z.of_nat k + 1) * W <= py * W)
          by (apply Z.mul_le_mono_nonneg_r; lia).
        replace (py * W + px <? (insert_y + Z.of_nat k) * W + ws) with false
          by (symmetry; apply Z.ltb_ge; lia).
        rewrite andb_false_r. simpl. rewrite Hg.
        replace (py - insert_y <? Z.of_nat (S k)) with false
          by (symmetry; apply Z.ltb_ge; lia).
        replace (py - insert_y <? Z.of_nat k) with false
          by (symmetry; apply Z.ltb_ge; lia).
        reflexivity.
    + split; [exact Hs|]. intros px py Hb. rewrite (Hg px py Hb).
      assert (Hne : py - insert_y <> Z.of_nat k).
      { destruct Hb as (_ & Hy & _). rewrite Hrh in E.
        apply andb_false_iff in E as [E|E];
          [apply Z.leb_gt in E | apply Z.ltb_ge in E]; lia. }
      replace (py - insert_y <? Z.of_nat (S k))
        with (py - insert_y <? Z.of_nat k); [done|].
      destruct (Z.ltb_spec (py - insert_y) (Z.of_nat k)),
               (Z.ltb_spec (py - insert_y) (Z.of_nat (S k))); lia || done.
Qed.

Lemma simple_copy_spec dst src insert_y :
  Stitcher.wf_image dst -> Stitcher.wf_image src ->
  channels dst = 1 -> channels src = 1 -> width src <= width dst ->
  same_shape (Stitcher.simple_copy dst src insert_y) dst /\
  forall px py, in_bounds dst px py 0 ->
    at_ (Stitcher.simple_copy dst src insert_y) px py 0 =
    if (0 <=? py - insert_y) && (py - insert_y <? height src)
       && (px <? width src)
    then at_ src px (py - insert_y) 0
    else at_ dst px py 0.
Proof.
  intros Hwd Hws Hcd Hcs Hw. pose proof Hws as (_ & Hsh & _).
  pose proof (simple_copy_prefix dst src insert_y (Z.to_nat (height src))
                Hwd Hws Hcd Hcs Hw ltac:(lia)) as H.
  now rewrite Z2Nat.id in H by lia.
Qed.

End SimpleCopySpec.

(** ** The fusion step of [addStrip], sample by sample *)

Section FusionSpec.

Implicit Types (st : Stitcher.StripStitcher) (strip : ScanStrip).

(** A sample of the grown composite is the old sample, or zero in the rows
    the growth added. *)
Lemma grow_composite_at st strip px py pc :
  Stitcher.wf_image (Stitcher.stitched_image_ st) ->
  in_bounds (Stitcher.grow_composite st strip) px py pc ->
  at_ (Stitcher.grow_composite st strip) px py pc =
  if py <? height (Stitcher.stitched_image_ st)
  then at_ (Stitcher.stitched_image_ st) px py pc else 0.
Proof.
  intros Hwf (Hx & Hy & Hc).
  destruct (grow_composite_spec st strip Hwf) as (Hgw & Hgc & Hgh & _ & Hget).
  cbv zeta in Hgw, Hgc, Hgh, Hget.
  unfold at_. rewrite Hget. unfold index_of. rewrite Hgw, Hgc.
  rewrite Hgw in Hx. rewrite Hgc in Hc.
  destruct (Z.ltb_spec py (height (Stitcher.stitched_image_ st))) as [Hlt|Hge];
    [reflexivity|].
  apply get_ge. destruct Hwf as (Hw & _ & Hc1 & Hl). rewrite Hl.
  set (W := width (Stitcher.stitched_image_ st)) in *.
  set (H := height (Stitcher.stitched_image_ st)) in *.
  set (C := channels (Stitcher.stitched_image_ st)) in *.
  assert (H * W <= py * W) by (apply Z.mul_le_mono_nonneg_r; lia).
  assert ((H * W) * C <= (py * W + px) * C)
    by (apply Z.mul_le_mono_nonneg_r; lia).
  lia.
Qed.

End FusionSpec.

(** X9.  [blendOverlapRegion] on well-formed images keeps the geometry of
    the target and writes each sample at most once: a channel-0 sample
    under the footprint of the source (shifted by the two offsets) becomes
    the binary32 blend of the source sample over the target's old sample,
    with the weight of the source row; every other sample is unchanged. *)
Theorem blendOverlapRegion_pixelwise
        (st : Stitcher.StripStitcher) (target source : Image)
        (offset_x offset_y : Z) :
  Stitcher.wf_image target -> Stitcher.wf_image source ->
  let r := Stitcher.blendOverlapRegion st target source offset_x offset_y in
  same_shape r target /\
  forall px py pc, in_bounds target px py pc ->
    at_ r px py pc =
    if (pc =? 0) && (0 <=? py - offset_y) && (py - offset_y <? height source)
       && (0 <=? px - offset_x) && (px - offset_x <? width source)
    then Stitcher.linear_blend
           (Stitcher.blend_alpha (py - offset_y)
                                 (overlap_pixels (Stitcher.params_ st)))
           (at_ source (px - offset_x) (py - offset_y) 0)
           (at_ target px py 0)
    else at_ target px py pc.
Proof. intros Hwt Hws. now apply blendOverlapRegion_spec. Qed.

Lemma blendOverlapRegion_pixelwise_witness :
  let st := stitcher_with_overlap 2 in
  let target := gradient_image 4 3 0 in
  let source := gradient_image 2 2 7 in
  let r := Stitcher.blendOverlapRegion st target source 1 1 in
  Stitcher.wf_image target /\ Stitcher.wf_image source /\
  at_ r 0 1 0 = at_ target 0 1 0 /\
  at_ r 1 2 0 =
  Stitcher.linear_blend (Stitcher.blend_alpha 1 2)
                        (at_ source 0 1 0) (at_ target 1 2 0).
Proof.
  intros st target source r.
  assert (Hwt : Stitcher.wf_image target) by (vm_compute; repeat split; discriminate).
  assert (Hws : Stitcher.wf_image source) by (vm_compute; repeat split; discriminate).
  destruct (blendOverlapRegion_pixelwise st target source 1 1 Hwt Hws)
    as [_ Hpix].
  split; [exact Hwt|]. split; [exact Hws|]. split.
  - apply (Hpix 0 1 0). unfold in_bounds. simpl. lia.
  - apply (Hpix 1 2 0). unfold in_bounds. simpl. lia.
Defined.

(** X10.  With blending enabled and a positive overlap, an accepted strip
    of byte samples overwrites the composite verbatim in every strip row
    at or beyond [overlap_pixels]: there the weight is [1.0f] and the
    binary32 blend returns the strip's sample exactly, whatever the
    composite held.  The column is shifted by the truncated horizontal
    offset of the alignment. *)
Theorem addStrip_blend_overwrites_beyond_overlap
        (cv : OpenCV) (st : Stitcher.StripStitcher) (strip prev : ScanStrip)
        (px py : Z) :
  Stitcher.initialized_ st = true ->
  last (Stitcher.strips_ st) = Some prev ->
  Stitcher.success (Stitcher.alignStrips cv st (image prev) (image strip))
    = true ->
  Stitcher.blending_enabled_ st = true ->
  0 < overlap_pixels (Stitcher.params_ st) ->
  Stitcher.wf_image (Stitcher.stitched_image_ st) ->
  Stitcher.wf_image (image strip) ->
  bytes (data (Stitcher.stitched_image_ st)) ->
  bytes (data (image strip)) ->
  let st' := snd (Stitcher.addStrip cv st strip) in
  let x := px - Stitcher.double_to_int
                  (Stitcher.offset_x
                     (Stitcher.alignStrips cv st (image prev) (image strip))) in
  let y := py - Stitcher.insert_y st in
  in_bounds (Stitcher.getStitchedImage st') px py 0 ->
  0 <= x < width (image strip) ->
  overlap_pixels (Stitcher.params_ st) <= y < height (image strip) ->
  at_ (Stitcher.getStitchedImage st') px py 0 = at_ (image strip) x y 0.
Proof.
  intros Hi Hl Hs Hb Hov Hwf Hws Hbc Hbs st' x y. subst st' x y.
  rewrite (addStrip_accepted cv st strip prev Hi Hl Hs). simpl.
  unfold Stitcher.getStitchedImage, Stitcher.fuse_strip. simpl.
  rewrite Hb, (proj2 (Z.ltb_lt _ _) Hov). simpl.
  set (stats := Stitcher.alignStrips cv st (image prev) (image strip)).
  set (grown := Stitcher.grow_composite st strip).
  destruct (grow_composite_spec st strip Hwf) as (_ & _ & _ & Hgwf & _).
  fold grown in Hgwf.
  destruct (blendOverlapRegion_spec st grown (image strip)
              (Stitcher.double_to_int (Stitcher.offset_x stats))
              (Stitcher.insert_y st) Hgwf Hws) as [Hshape Hpix].
  intros Hin Hx Hy.
  rewrite Hpix
    by (destruct Hshape as (Hw & Hh & Hc & _); unfold in_bounds in Hin |- *;
        now rewrite <- Hw, <- Hh, <- Hc).
  rewrite Z.eqb_refl.
  rewrite (proj2 (Z.leb_le 0 _)) by lia.
  rewrite (proj2 (Z.ltb_lt _ (height (image strip)))) by lia.
  rewrite (proj2 (Z.leb_le 0 _)) by lia.
  rewrite (proj2 (Z.ltb_lt _ (width (image strip)))) by lia.
  simpl. apply linear_blend_beyond_overlap; [lia | | ].
  - now apply bytes_at.
  - apply bytes_at. now apply bytes_grow_composite.
Qed.

Lemma addStrip_blend_overwrites_beyond_overlap_witness :
  let st := seeded_stitcher 2 in
  let strip := gradient_strip 4 3 9 in
  let st' := snd (Stitcher.addStrip cv_accept st strip) in
  in_bounds (Stitcher.getStitchedImage st') 3 3 0 /\
  at_ (Stitcher.getStitchedImage st') 3 3 0 = at_ (image strip) 3 2 0.
Proof.
  intros st strip st'.
  assert (Hin : in_bounds (Stitcher.getStitchedImage st') 3 3 0)
    by (vm_compute; repeat split; discriminate).
  split; [exact Hin|].
  apply (addStrip_blend_overwrites_beyond_overlap
           cv_accept st strip (gradient_strip 4 3 0) 3 3).
  - reflexivity.
  - reflexivity.
  - reflexivity.
  - reflexivity.
  - reflexivity.
  - vm_compute; repeat split; discriminate.
  - vm_compute; repeat split; discriminate.
  - apply bytes_check. vm_compute. reflexivity.
  - apply bytes_check. vm_compute. reflexivity.
  - exact Hin.
  - vm_compute. split; [discriminate | reflexivity].
  - vm_compute. split; [discriminate | reflexivity].
Defined.

(** X11.  After [setBlendingEnabled(false)], an accepted single-channel
    strip no wider than the composite is copied row by row from row
    [insert_y] on: under the strip the composite holds the strip's samples
    unblended, also in the overlap rows, and not shifted by the horizontal
    offset of the alignment; elsewhere it holds its previous samples, and
    zero in the rows the growth added. *)
Theorem addStrip_without_blending_copies
        (cv : OpenCV) (st : Stitcher.StripStitcher) (strip prev : ScanStrip)
        (px py : Z) :
  let st0 := Stitcher.setBlendingEnabled st false in
  Stitcher.initialized_ st = true ->
  last (Stitcher.strips_ st) = Some prev ->
  Stitcher.success (Stitcher.alignStrips cv st0 (image prev) (image strip))
    = true ->
  Stitcher.wf_image (Stitcher.stitched_image_ st) ->
  Stitcher.wf_image (image strip) ->
  channels (Stitcher.stitched_image_ st) = 1 ->
  channels (image strip) = 1 ->
  width (image strip) <= width (Stitcher.stitched_image_ st) ->
  let st' := snd (Stitcher.addStrip cv st0 strip) in
  let y := py - Stitcher.insert_y st in
  in_bounds (Stitcher.getStitchedImage st') px py 0 ->
  at_ (Stitcher.getStitchedImage st') px py 0 =
  if (0 <=? y) && (y <? height (image strip)) && (px <? width (image strip))
  then at_ (image strip) px y 0
  else if py <? height (Stitcher.stitched_image_ st)
       then at_ (Stitcher.stitched_image_ st) px py 0
       else 0.
Proof.
  intros st0 Hi Hl Hs Hwf Hws Hc Hcs Hw st' y. subst st' y.
  rewrite (addStrip_accepted cv st0 strip prev Hi Hl Hs). simpl.
  unfold Stitcher.getStitchedImage, Stitcher.fuse_strip. simpl.
  set (grown := Stitcher.grow_composite st0 strip).
  destruct (grow_composite_spec st0 strip Hwf) as (Hgw & Hgc & _ & Hgwf & _).
  cbv zeta in Hgw, Hgc. fold grown in Hgw, Hgc, Hgwf.
  change (Stitcher.stitched_image_ st0) with (Stitcher.stitched_image_ st)
    in Hgw, Hgc.
  destruct (simple_copy_spec grown (image strip) (Stitcher.insert_y st0)
              Hgwf Hws ltac:(congruence) Hcs ltac:(lia)) as [Hshape Hpix].
  change (Stitcher.insert_y st0) with (Stitcher.insert_y st) in *.
  intros Hin.
  assert (Hing : in_bounds grown px py 0).
  { destruct Hshape as (Hw' & Hh' & Hc' & _). unfold in_bounds in Hin |- *.
    now rewrite <- Hw', <- Hh', <- Hc'. }
  rewrite (Hpix px py Hing).
  destruct ((0 <=? py - Stitcher.insert_y st)
            && (py - Stitcher.insert_y st <? height (image strip))
            && (px <? width (image strip))); [reflexivity|].
  exact (grow_composite_at st0 strip px py 0 Hwf Hing).
Qed.

Lemma addStrip_without_blending_copies_witness :
  let st := seeded_stitcher 2 in
  let strip := gradient_strip 3 3 9 in
  let st' := snd (Stitcher.addStrip cv_accept
                    (Stitcher.setBlendingEnabled st false) strip) in
  in_bounds (Stitcher.getStitchedImage st') 3 1 0 /\
  at_ (Stitcher.getStitchedImage st') 0 1 0 = at_ (image strip) 0 0 0 /\
  at_ (Stitcher.getStitchedImage st') 3 1 0
  = at_ (Stitcher.stitched_image_ st) 3 1 0.
Proof.
  intros st strip st'.
  assert (Hwf : Stitcher.wf_image (Stitcher.stitched_image_ st))
    by (vm_compute; repeat split; discriminate).
  assert (Hws : Stitcher.wf_image (image strip))
    by (vm_compute; repeat split; discriminate).
  assert (Hin : forall px, 0 <= px < 4 ->
                  in_bounds (Stitcher.getStitchedImage st') px 1 0).
  { intros px Hpx. split; [exact Hpx|]. vm_compute.
    repeat split; discriminate. }
  pose proof (fun px H =>
    addStrip_without_blending_copies
      cv_accept st strip (gradient_strip 4 3 0) px 1
      eq_refl eq_refl eq_refl Hwf Hws eq_refl eq_refl
      ltac:(vm_compute; discriminate) (Hin px H)) as Hpix.
  split; [apply Hin; lia|]. split.
  - exact (Hpix 0 ltac:(lia)).
  - exact (Hpix 3 ltac:(lia)).
Defined.

(** ** The tile plan does not depend on the fuel *)

(** X12.  With positive loop steps, whatever [generateTiles] returns is
    the same list for every amount of fuel: [ceil(width / step_x)] tiles
    per row times [ceil(height / step_y)] rows, in row-major order, the
    tile of column [i] and row [j] starting at
    [(i * step_x, j * step_y)]. *)
Theorem generateTiles_row_major
        (config : GPUConfig) (width height : Z) (fuel : nat)
        (tiles : list Tile.t) :
  0 < Tiling.step_x config -> 0 < Tiling.step_y config ->
  Tiling.generateTiles fuel config width height = Some tiles ->
  let nx := Tiling.steps width (Tiling.step_x config) in
  let ny := Tiling.steps height (Tiling.step_y config) in
  (forall fuel' tiles',
      Tiling.generateTiles fuel' config width height = Some tiles' ->
      tiles' = tiles) /\
  length tiles = (Z.to_nat ny * Z.to_nat nx)%nat /\
  forall i j, 0 <= i < nx -> 0 <= j < ny ->
    tiles !! Z.to_nat (j * nx + i)
    = Some (Tiling.make_tile config width height
              (i * Tiling.step_x config) (j * Tiling.step_y config)).
Proof.
  intros Hsx Hsy Hgen nx ny.
  apply generateTiles_unique in Hgen; [|done|done]. subst tiles.
  split; [|split].
  - intros fuel' tiles' H. now apply generateTiles_unique in H.
  - unfold Tiling.tile_plan. fold nx ny.
    rewrite (length_bind_const _ _ (Z.to_nat nx)).
    + now rewrite length_seqZ.
    + intros j. now rewrite length_fmap, length_seqZ.
  - intros i j Hi Hj. unfold Tiling.tile_plan. fold nx ny.
    replace (Z.to_nat (j * nx + i))
      with (Z.to_nat j * Z.to_nat nx + Z.to_nat i)%nat by nia.
    rewrite (lookup_bind_const _ _ (Z.to_nat nx)).
    + rewrite lookup_seqZ_lt by lia. simpl.
      rewrite list_lookup_fmap, lookup_seqZ_lt by lia. simpl.
      repeat f_equal; lia.
    + intros j'. now rewrite length_fmap, length_seqZ.
    + lia.
Qed.

Lemma generateTiles_row_major_witness :
  let config := GPUConfig_tiles 4 4 1 in
  exists tiles,
    Tiling.generateTiles 20 config 10 10 = Some tiles /\
    length tiles = 16%nat /\
    tiles !! 6%nat = Some (Tiling.make_tile config 10 10 6 3).
Proof.
  intros config.
  assert (Hgen : Tiling.generateTiles 20 config 10 10
                 = Some (Tiling.tile_plan config 10 10))
    by (vm_compute; reflexivity).
  exists (Tiling.tile_plan config 10 10).
  destruct (generateTiles_row_major config 10 10 20 _
              ltac:(vm_compute; reflexivity) ltac:(vm_compute; reflexivity)
              Hgen) as (_ & Hlen & Hidx).
  split; [exact Hgen|]. split; [exact Hlen|].
  exact (Hidx 2 1 ltac:(vm_compute; split; [discriminate | reflexivity])
              ltac:(vm_compute; split; [discriminate | reflexivity])).
Defined.

(** ** [warpImage]: which calls return *)



(** ** Loops that write samples *)

Section Writes.

Context {A : Type}.
Variable step : Image -> A -> Image.
Variable ok : A -> Prop.
Variable cov : A -> Z -> Z -> Z -> bool.
Variable val : A -> Z -> Z -> Z -> Z.
Variable ref : Image.

(** Each step writes [val a] to the samples [cov a] selects and keeps the
    geometry. *)
Hypothesis Hstep : forall img a,
  ok a -> Stitcher.wf_image img -> same_shape img ref ->
  same_shape (step img a) img /\
  forall px py pc, in_bounds ref px py pc ->
    at_ (step img a) px py pc
    = if cov a px py pc then val a px py pc else at_ img px py pc.

(** After the loop a sample holds what the last step that selected it
    wrote, or its initial value when no step selected it. *)
Lemma fold_left_writes (l : list A) :
  Forall ok l ->
  forall img, Stitcher.wf_image img -> same_shape img ref ->
  let r := fold_left step l img in
  same_shape r ref /\
  forall px py pc, in_bounds ref px py pc ->
    ((forall a, a ∈ l -> cov a px py pc = false) ->
     at_ r px py pc = at_ img px py pc) /\
    (forall l1 a l2, l = l1 ++ a :: l2 -> cov a px py pc = true ->
       (forall a', a' ∈ l2 -> cov a' px py pc = false) ->
       at_ r px py pc = val a px py pc) /\
    (forall v, (forall a, a ∈ l -> cov a px py pc = true ->
                          val a px py pc = v) ->
       (exists a, a ∈ l /\ cov a px py pc = true) ->
       at_ r px py pc = v).
Proof.
  induction l as [|a l IH]; intros Hok img Hwf Hsh; cbv zeta.
  - simpl. split; [exact Hsh|]. intros px py pc Hb. split; [done|]. split.
    + intros l1 a l2 H. destruct l1; discriminate H.
    + intros v _ (a & Ha & _). inversion Ha.
  - apply Forall_cons in Hok as [Hoka Hok]. simpl.
    destruct (Hstep img a Hoka Hwf Hsh) as [Hs1 Hg1].
    assert (Hwf1 : Stitcher.wf_image (step img a))
      by (eapply wf_image_same_shape; eauto).
    assert (Hsh1 : same_shape (step img a) ref)
      by (eapply same_shape_trans; eauto).
    destruct (IH Hok (step img a) Hwf1 Hsh1) as [Hs Hg]. cbv zeta in Hs, Hg.
    split; [exact Hs|]. intros px py pc Hb.
    destruct (Hg px py pc Hb) as (Hnone & Hlast & Hagree).
    specialize (Hg1 px py pc Hb).
    split; [|split].
    + intros Hno. rewrite Hnone by (intros a' Ha'; apply Hno; now right).
      rewrite Hg1, (Hno a) by now left. reflexivity.
    + intros l1 b l2 Heq Hb' Hno. destruct l1 as [|a1 l1].
      * simpl in Heq. injection Heq as -> ->.
        rewrite Hnone by exact Hno. now rewrite Hg1, Hb'.
      * simpl in Heq. injection Heq as -> ->.
        now apply (Hlast l1 b l2).
    + intros v Hall Hex.
      destruct (existsb (fun a' => cov a' px py pc) l) eqn:E.
      * apply existsb_exists in E as (a' & Ha' & Hc').
        apply list_elem_of_In in Ha'.
        apply Hagree; [|now exists a'].
        intros a2 Ha2. apply Hall. now right.
      * assert (Hno : forall a', a' ∈ l -> cov a' px py pc = false).
        { intros a' Ha'. apply list_elem_of_In in Ha'.
          destruct (cov a' px py pc) eqn:Hc; [|done].
          assert (existsb (fun a' => cov a' px py pc) l = true)
            by (apply existsb_exists; eauto).
          congruence. }
        rewrite Hnone by exact Hno. rewrite Hg1.
        destruct Hex as (a' & Ha' & Hc').
        apply elem_of_cons in Ha' as [->|Ha'].
        -- rewrite Hc'. apply Hall; [now left | done].
        -- rewrite Hno in Hc' by done. discriminate Hc'.
Qed.

End Writes.

Section CountedWrites.

(** A counted loop whose step [i] writes the samples whose coordinate
    [key] is [off + i]. *)
Variable step : Image -> Z -> Image.
Variable key : Z -> Z -> Z -> Z.
Variables off n : Z.
Variable rest : Z -> Z -> Z -> bool.
Variable val : Z -> Z -> Z -> Z -> Z.
Variable ref : Image.

Hypothesis Hstep : forall img i,
  0 <= i < n -> Stitcher.wf_image img -> same_shape img ref ->
  same_shape (step img i) img /\
  forall px py pc, in_bounds ref px py pc ->
    at_ (step img i) px py pc
    = if (key px py pc =? off + i) && rest px py pc
      then val i px py pc else at_ img px py pc.

Lemma fold_left_seqZ_writes img :
  Stitcher.wf_image img -> same_shape img ref ->
  let r := fold_left step (seqZ 0 n) img in
  same_shape r ref /\
  forall px py pc, in_bounds ref px py pc ->
    at_ r px py pc
    = if (off <=? key px py pc) && (key px py pc <? off + n)
         && rest px py pc
      then val (key px py pc - off) px py pc else at_ img px py pc.
Proof.
  intros Hwf Hsh.
  destruct (fold_left_writes step (fun i => 0 <= i < n)
              (fun i px py pc => (key px py pc =? off + i) && rest px py pc)
              val ref Hstep (seqZ 0 n)
              ltac:(apply Forall_forall; intros i Hi;
                    apply elem_of_seqZ in Hi; lia)
              img Hwf Hsh) as [Hs Hg].
  cbv zeta in Hs, Hg. split; [exact Hs|]. intros px py pc Hb.
  destruct (Hg px py pc Hb) as (Hnone & _ & Hagree).
  destruct ((off <=? key px py pc) && (key px py pc <? off + n)
            && rest px py pc) eqn:E.
  - apply andb_true_iff in E as [E Er]. apply andb_true_iff in E as [E1 E2].
    apply Z.leb_le in E1. apply Z.ltb_lt in E2.
    apply Hagree.
    + intros i _ Hc. apply andb_true_iff in Hc as [Hc _].
      apply Z.eqb_eq in Hc. f_equal. lia.
    + exists (key px py pc - off). split; [apply elem_of_seqZ; lia|].
      rewrite Er, andb_true_r. apply Z.eqb_eq. lia.
  - apply Hnone. intros i Hi. apply elem_of_seqZ in Hi.
    destruct (Z.eqb_spec (key px py pc) (off + i)) as [Hk|]; [|done].
    simpl. rewrite <- E.
    rewrite (proj2 (Z.leb_le off _)) by lia.
    rewrite (proj2 (Z.ltb_lt _ (off + n))) by lia. reflexivity.
Qed.

End CountedWrites.

Section ForCyx.

(** The three nested loops of the tensor-to-image copies: the body writes
    [val c y x] at [(ox + x, oy + y, c)]. *)
Variable body : Image -> Z -> Z -> Z -> Image.
Variables ox oy nc ny nx : Z.
Variable val : Z -> Z -> Z -> Z.
Variable ref : Image.

Hypothesis Hbody : forall img c y x,
  0 <= c < nc -> 0 <= y < ny -> 0 <= x < nx ->
  Stitcher.wf_image img -> same_shape img ref ->
  same_shape (body img c y x) img /\
  forall px py pc, in_bounds ref px py pc ->
    at_ (body img c y x) px py pc
    = if (px =? ox + x) && ((py =? oy + y) && (pc =? c))
      then val c y x else at_ img px py pc.

Lemma for_cyx_writes img :
  Stitcher.wf_image img -> same_shape img ref ->
  let r := Warper.for_cyx nc ny nx body img in
  same_shape r ref /\
  forall px py pc, in_bounds ref px py pc ->
    at_ r px py pc
    = if (pc <? nc) && (oy <=? py) && (py <? oy + ny)
         && (ox <=? px) && (px <? ox + nx)
      then val pc (py - oy) (px - ox) else at_ img px py pc.
Proof.
  intros Hwf Hsh. unfold Warper.for_cyx.
  assert (Hx : forall c y, 0 <= c < nc -> 0 <= y < ny ->
    forall im, Stitcher.wf_image im -> same_shape im ref ->
    let r := fold_left (fun img3 x => body img3 c y x) (seqZ 0 nx) im in
    same_shape r ref /\
    forall px py pc, in_bounds ref px py pc ->
      at_ r px py pc
      = if (ox <=? px) && (px <? ox + nx) && ((py =? oy + y) && (pc =? c))
        then val c y (px - ox) else at_ im px py pc).
  { intros c y Hc Hy im Him Hims.
    apply (fold_left_seqZ_writes (fun img3 x => body img3 c y x)
             (fun px _ _ => px) ox nx
             (fun _ py pc => (py =? oy + y) && (pc =? c))
             (fun x _ _ _ => val c y x) ref); [|done|done].
    intros img0 x Hx0 Hw0 Hs0. now apply Hbody. }
  assert (Hy : forall c, 0 <= c < nc ->
    forall im, Stitcher.wf_image im -> same_shape im ref ->
    let r := fold_left (fun img2 y =>
               fold_left (fun img3 x => body img3 c y x) (seqZ 0 nx) img2)
               (seqZ 0 ny) im in
    same_shape r ref /\
    forall px py pc, in_bounds ref px py pc ->
      at_ r px py pc
      = if (oy <=? py) && (py <? oy + ny)
           && ((ox <=? px) && (px <? ox + nx) && (pc =? c))
        then val c (py - oy) (px - ox) else at_ im px py pc).
  { intros c Hc im Him Hims.
    apply (fold_left_seqZ_writes
             (fun img2 y =>
                fold_left (fun img3 x => body img3 c y x) (seqZ 0 nx) img2)
             (fun _ py _ => py) oy ny
             (fun px _ pc => (ox <=? px) && (px <? ox + nx) && (pc =? c))
             (fun y px _ _ => val c y (px - ox)) ref); [|done|done].
    intros img0 y Hy0 Hw0 Hs0.
    destruct (Hx c y Hc Hy0 img0 Hw0 Hs0) as [Hs Hg]. cbv zeta in Hs, Hg.
    split; [eapply same_shape_trans; [exact Hs|]|].
    { destruct Hs0 as (?&?&?&?&?). repeat split; congruence. }
    intros px py pc Hb. rewrite (Hg px py pc Hb).
    destruct (py =? oy + y), (pc =? c), ((ox <=? px) && (px <? ox + nx));
      reflexivity. }
  destruct (fold_left_seqZ_writes
              (fun img1 c =>
                 fold_left (fun img2 y =>
                   fold_left (fun img3 x => body img3 c y x) (seqZ 0 nx) img2)
                   (seqZ 0 ny) img1)
              (fun _ _ pc => pc) 0 nc
              (fun px py _ => (oy <=? py) && (py <? oy + ny)
                              && ((ox <=? px) && (px <? ox + nx)))
              (fun c px py _ => val c (py - oy) (px - ox)) ref) with (img := img)
    as [Hs Hg]; [|done|done|].
  - intros img0 c Hc0 Hw0 Hs0.
    destruct (Hy c Hc0 img0 Hw0 Hs0) as [Hs Hg]. cbv zeta in Hs, Hg.
    split; [eapply same_shape_trans; [exact Hs|]|].
    { destruct Hs0 as (?&?&?&?&?). repeat split; congruence. }
    intros px py pc Hb. rewrite (Hg px py pc Hb). rewrite Z.add_0_l.
    destruct (pc =? c), ((oy <=? py) && (py <? oy + ny)),
      ((ox <=? px) && (px <? ox + nx)); reflexivity.
  - cbv zeta in Hs, Hg. split; [exact Hs|]. intros px py pc Hb.
    rewrite (Hg px py pc Hb). rewrite Z.add_0_l, Z.sub_0_r.
    destruct Hb as (_ & _ & Hc).
    rewrite (proj2 (Z.leb_le 0 pc)) by lia.
    destruct (pc <? nc), (oy <=? py), (py <? oy + ny),
      (ox <=? px), (px <? ox + nx); reflexivity.
Qed.

End ForCyx.

(** ** The copies between tensors and images *)

Section TensorCopies.

Lemma Image_new_wf (w h c bits : Z) :
  0 <= w -> 0 <= h -> 1 <= c -> Stitcher.wf_image (Image_new w h c bits).
Proof.
  intros Hw Hh Hc. unfold Stitcher.wf_image, Image_new. simpl.
  rewrite length_zeros.
  assert (0 <= w * h) by nia. assert (0 <= w * h * c) by nia.
  repeat split; lia.
Qed.

Lemma Image_new_at (w h c bits x y k : Z) : at_ (Image_new w h c bits) x y k = 0.
Proof. unfold at_, Image_new. simpl. apply get_zeros. Qed.

(** An unguarded write, as in [tensorToImage]. *)
Lemma write_body_spec (ref img : Image) (x y c v : Z) :
  Stitcher.wf_image img -> same_shape img ref -> in_bounds ref x y c ->
  same_shape (set_at img x y c v) img /\
  forall px py pc, in_bounds ref px py pc ->
    at_ (set_at img x y c v) px py pc
    = if (px =? 0 + x) && ((py =? 0 + y) && (pc =? c))
      then v else at_ img px py pc.
Proof.
  intros Hwf Hsh Hb. split; [apply same_shape_set_at|].
  intros px py pc Hp.
  rewrite at_set_at;
    [|done|eapply in_bounds_same_shape; eauto
          |eapply in_bounds_same_shape; eauto].
  rewrite !Z.add_0_l, (Z.eqb_sym x), (Z.eqb_sym y), (Z.eqb_sym c).
  now rewrite andb_assoc.
Qed.

(** The guarded write of [warpImageTiled]. *)
Lemma guarded_write_body_spec (ref img : Image) (tx ty x y c v : Z) :
  Stitcher.wf_image img -> same_shape img ref ->
  0 <= tx + x -> 0 <= ty + y -> 0 <= c < channels ref ->
  let r := if (tx + x <? width img) && (ty + y <? height img)
           then set_at img (tx + x) (ty + y) c v else img in
  same_shape r img /\
  forall px py pc, in_bounds ref px py pc ->
    at_ r px py pc
    = if (px =? tx + x) && ((py =? ty + y) && (pc =? c))
      then v else at_ img px py pc.
Proof.
  intros Hwf Hsh Hx Hy Hc. cbv zeta.
  pose proof Hsh as (Hw & Hh & Hcc & _).
  destruct ((tx + x <? width img) && (ty + y <? height img)) eqn:E.
  - apply andb_true_iff in E as [E1 E2].
    apply Z.ltb_lt in E1, E2.
    split; [apply same_shape_set_at|]. intros px py pc Hp.
    rewrite at_set_at;
      [|done|unfold in_bounds; lia|eapply in_bounds_same_shape; eauto].
    rewrite (Z.eqb_sym (tx + x)), (Z.eqb_sym (ty + y)), (Z.eqb_sym c).
    now rewrite andb_assoc.
  - split; [apply same_shape_refl|]. intros px py pc (Hpx & Hpy & _).
    apply andb_false_iff in E as [E|E]; apply Z.ltb_ge in E.
    + rewrite (proj2 (Z.eqb_neq px (tx + x))) by lia. reflexivity.
    + rewrite (proj2 (Z.eqb_neq py (ty + y))) by lia.
      now rewrite andb_false_r.
Qed.

(** Every in-range index of the buffer is the index of a sample. *)
Lemma index_of_surj (img : Image) (i : Z) :
  Stitcher.wf_image img -> 0 <= i < Z.of_nat (length (data img)) ->
  exists x y c, in_bounds img x y c /\ index_of img x y c = i.
Proof.
  intros (Hw & Hh & Hc & Hl) Hi. rewrite Hl in Hi.
  set (C := channels img) in *. set (W := width img) in *.
  set (H := height img) in *.
  assert (HW : 0 < W) by nia.
  exists ((i / C) mod W), ((i / C) / W), (i mod C).
  assert (Hq : 0 <= i / C < W * H).
  { split; [apply Z.div_pos; lia|].
    apply Z.div_lt_upper_bound; [lia|]. nia. }
  unfold in_bounds, index_of. fold C W H. split; [split; [|split]|].
  - apply Z.mod_pos_bound. lia.
  - split; [apply Z.div_pos; lia|].
    apply Z.div_lt_upper_bound; [lia|]. nia.
  - apply Z.mod_pos_bound. lia.
  - rewrite (Z.mul_comm (i / C / W) W), <- Z.div_mod by lia.
    rewrite (Z.mul_comm (i / C) C), <- Z.div_mod by lia. reflexivity.
Qed.

(** Two images of the same row layout and buffer length that agree on
    every sample have the same buffer. *)
Lemma image_data_ext (a b : Image) :
  Stitcher.wf_image a ->
  width a = width b -> channels a = channels b ->
  length (data a) = length (data b) ->
  (forall px py pc, in_bounds a px py pc -> at_ a px py pc = at_ b px py pc) ->
  data a = data b.
Proof.
  intros Hwf Hw Hc Hl Hpix.
  apply buffer_ext; [exact Hl|]. intros i Hi.
  destruct (index_of_surj a i Hwf Hi) as (x & y & c & Hb & <-).
  specialize (Hpix x y c Hb). unfold at_ in Hpix.
  replace (index_of b x y c) with (index_of a x y c) in Hpix
    by (unfold index_of; now rewrite Hw, Hc).
  exact Hpix.
Qed.

(** Shape and byte range are kept by the nested loops when the body
    keeps them. *)
Lemma for_cyx_invariant (P : Image -> Prop) (nc ny nx : Z)
      (body : Image -> Z -> Z -> Z -> Image) (img : Image) :
  (forall im c y x, P im -> P (body im c y x)) -> P img ->
  P (Warper.for_cyx nc ny nx body img).
Proof.
  intros Hbody Himg. unfold Warper.for_cyx.
  apply fold_left_invariant; [|exact Himg]. intros im1 c _ H1.
  apply fold_left_invariant; [|exact H1]. intros im2 y _ H2.
  apply fold_left_invariant; [|exact H2]. intros im3 x _ H3.
  now apply Hbody.
Qed.

Lemma clamp_to_byte_range (q : Q) : 0 <= Warper.clamp_to_byte q <= 255.
Proof.
  unfold Warper.clamp_to_byte. split.
  - change 0 with (Qfloor 0). apply Qfloor_resp_le. apply Q.le_max_l.
  - change 255 with (Qfloor 255). apply Qfloor_resp_le.
    apply Q.max_lub; [discriminate | apply Q.le_min_l].
Qed.

End TensorCopies.

(** ** The output of the warp *)

Section WarpOutput.

Variable codes : Torch.InterpolationCodes.

Lemma extent_coversb_spec (t : Tile.t) (px py : Z) :
  Tiling.extent_coversb px py t = true <-> Tiling.extent_covers t px py.
Proof.
  unfold Tiling.extent_coversb, Tiling.extent_covers.
  rewrite !andb_true_iff, !Z.leb_le, !Z.ltb_lt. lia.
Qed.

(** The last element of a list that satisfies a test. *)
Lemma last_such_that {A} (f : A -> bool) (l : list A) :
  (exists a, a ∈ l /\ f a = true) ->
  exists l1 a l2, l = l1 ++ a :: l2 /\ f a = true /\
                  forall a', a' ∈ l2 -> f a' = false.
Proof.
  induction l as [|b l IH]; intros (a & Ha & Hf); [inversion Ha|].
  destruct (existsb f l) eqn:E.
  - apply existsb_exists in E as (a' & Ha' & Hf').
    apply list_elem_of_In in Ha'.
    destruct IH as (l1 & a0 & l2 & -> & H0 & Hno); [now exists a'|].
    now exists (b :: l1), a0, l2.
  - assert (Hno : forall a', a' ∈ l -> f a' = false).
    { intros a' Ha'. apply list_elem_of_In in Ha'.
      destruct (f a') eqn:Hc; [|done].
      assert (existsb f l = true) by (apply existsb_exists; eauto).
      congruence. }
    apply elem_of_cons in Ha as [->|Ha].
    + now exists [], b, l.
    + rewrite Hno in Hf by done. discriminate Hf.
Qed.

(** The copy loop of [warpImageTiled] writes the tile's extent. *)
Lemma copy_tile_spec (tile_output : TensorF32.Tensor)
      (out : Image) (tile : Tile.t) :
  Stitcher.wf_image out ->
  0 <= Tile.x tile -> 0 <= Tile.y tile ->
  let r := copy_tile (channels out) tile_output out tile in
  same_shape r out /\
  forall px py pc, in_bounds out px py pc ->
    at_ r px py pc
    = if Tiling.extent_coversb px py tile
      then TensorF32.clamp_to_byte
             (Float32.mul (TensorF32.elem tile_output pc (py - Tile.y tile)
                                          (px - Tile.x tile))
                          (Float32.of_int 255))
      else at_ out px py pc.
Proof.
  intros Hwf Hx Hy. cbv zeta. unfold copy_tile. cbv zeta.
  destruct (for_cyx_writes
              (fun out0 c y x =>
                 if (Tile.x tile + x <? width out0)
                    && (Tile.y tile + y <? height out0)
                 then set_at out0 (Tile.x tile + x) (Tile.y tile + y) c
                        (TensorF32.clamp_to_byte
                           (Float32.mul (TensorF32.elem tile_output c y x)
                                        (Float32.of_int 255)))
                 else out0)
              (Tile.x tile) (Tile.y tile)
              (channels out) (Tile.height tile) (Tile.width tile)
              (fun c y x =>
                 TensorF32.clamp_to_byte
                   (Float32.mul (TensorF32.elem tile_output c y x)
                                (Float32.of_int 255)))
              out) with (img := out) as [Hs Hg];
    [|exact Hwf|apply same_shape_refl|].
  - intros img c y x Hc0 Hy0 Hx0 Hwf0 Hs0.
    apply (guarded_write_body_spec out img); try done; lia.
  - cbv zeta in Hs, Hg. split; [exact Hs|].
    intros px py pc Hb. rewrite (Hg px py pc Hb).
    destruct Hb as (_ & _ & Hpc).
    rewrite (proj2 (Z.ltb_lt pc (channels out))) by lia.
    unfold Tiling.extent_coversb.
    destruct (Tile.x tile <=? px), (px <? Tile.x tile + Tile.width tile),
      (Tile.y tile <=? py), (py <? Tile.y tile + Tile.height tile);
      reflexivity.
Qed.

End WarpOutput.

Lemma zero_field_matches_4_3 :
  field_matches (gradient_image 4 3 0) (zero_field 4 3).
Proof. vm_compute. repeat split; discriminate. Qed.

(** X14.  Whenever an initialized warper returns from [warpImage] on a
    well-formed, non-empty image with a displacement field of the
    image's size, libtorch having raised no error, the status is
    [SUCCESS] and the output has the width, height and channel count of
    the input, a buffer of exactly [width * height * channels] samples,
    and every sample in 0..255.  The tiled path keeps the bit depth of
    the input; the direct path always reports 8. *)
Theorem warpImage_output_shape
        (codes : Torch.InterpolationCodes) (fuel : nat)
        (w : Warper.CudaWarper) (free_bytes : Z)
        (input : Image) (deformation : DeformationField)
        (output img : Image) (code : StatusCode) :
  Stitcher.wf_image input -> 0 < width input -> 0 < height input ->
  field_matches input deformation ->
  Warper.initialized_ w = true ->
  Warper.warpImage codes fuel w free_bytes input deformation output
  = Some (code, img) ->
  code = SUCCESS /\
  width img = width input /\ height img = height input /\
  channels img = channels input /\
  Stitcher.wf_image img /\ bytes (data img) /\
  bit_depth img
  = if free_bytes <? Tiling.working_set_bytes (width input) (height input)
                                              (channels input)
    then bit_depth input else 8.
Proof.
  intros Hwf _ _ _ Hi Hrun. pose proof Hwf as (Hw & Hh & Hc & _).
  unfold Warper.warpImage in Hrun. rewrite Hi in Hrun. simpl in Hrun.
  unfold Tiling.working_set_bytes.
  set (P := fun ref im => same_shape im ref /\ bytes (data im)).
  assert (Hnew : forall bits,
             P (Image_new (width input) (height input) (channels input) bits)
               (Image_new (width input) (height input) (channels input) bits)).
  { intros bits. split; [apply same_shape_refl | apply bytes_zeros]. }
  assert (Hset : forall ref im x y c q,
             P ref im -> P ref (set_at im x y c (Warper.clamp_to_byte q))).
  { intros ref im x y c q [Hs Hb]. split.
    - eapply same_shape_trans; [apply same_shape_set_at | exact Hs].
    - apply bytes_set; [exact Hb | apply clamp_to_byte_range]. }
  assert (Hfin : forall bits im,
             P (Image_new (width input) (height input) (channels input) bits)
               im ->
             width im = width input /\ height im = height input /\
             channels im = channels input /\
             Stitcher.wf_image im /\ bytes (data im) /\ bit_depth im = bits).
  { intros bits im [Hs Hb]. pose proof Hs as (H1 & H2 & H3 & H4 & _).
    repeat split; try done.
    all: try (eapply wf_image_same_shape;
              [exact Hs | now apply Image_new_wf]).
    all: pose proof (wf_image_same_shape _ _ Hs
                       (Image_new_wf _ _ _ bits Hw Hh Hc)) as Hwf'.
    all: destruct Hwf' as (?&?&?&?); lia || done. }
  destruct (free_bytes
            <? Tiling.tensor_bytes (width input) (height input)
                                   (channels input) * 3).
  - unfold Warper.warpImageTiled in Hrun.
    destruct (Tiling.generateTiles fuel (Warper.config_ w) (width input)
                                   (height input)) as [tiles|];
      [|discriminate Hrun].
    injection Hrun as <- <-. split; [reflexivity|].
    apply Hfin. apply fold_left_invariant; [|apply Hnew].
    intros im tile _ Him. unfold Warper.warp_tile. cbv zeta.
    apply for_cyx_invariant; [|exact Him].
    intros im0 c y x Him0.
    destruct ((Tile.x tile + x <? width im0)
              && (Tile.y tile + y <? height im0)); [|exact Him0].
    now apply Hset.
  - injection Hrun as <- <-. split; [reflexivity|].
    apply Hfin. unfold Warper.warp_direct. cbv zeta.
    unfold Warper.tensorToImage. cbv zeta.
    destruct (String.eqb (Warper.interpolation_mode_ w) "nearest");
      simpl; (apply for_cyx_invariant; [|apply Hnew]);
      intros im0 c y x Him0; now apply Hset.
Qed.

Lemma warpImage_output_shape_witness :
  let w := warper_with (GPUConfig_tiles 3 3 1) "bilinear" in
  let input := gradient_image 4 3 0 in
  exists img,
    Warper.warpImage Torch.enum_torch 10 w 100 input (zero_field 4 3)
                     Image_default = Some (SUCCESS, img) /\
    width img = 4 /\ height img = 3 /\ Stitcher.wf_image img.
Proof.
  intros w input.
  assert (Hwf : Stitcher.wf_image input)
    by (vm_compute; repeat split; discriminate).
  assert (Hrun : exists img,
             Warper.warpImage Torch.enum_torch 10 w 100 input
                              (zero_field 4 3) Image_default
             = Some (SUCCESS, img)).
  { unfold Warper.warpImage, Warper.warpImageTiled.
    replace (Tiling.generateTiles 10 (Warper.config_ w) (width input)
                                  (height input))
      with (Some (Tiling.tile_plan (GPUConfig_tiles 3 3 1) 4 3))
      by (vm_compute; reflexivity).
    eexists. reflexivity. }
  destruct Hrun as [img Hrun]. exists img.
  destruct (warpImage_output_shape Torch.enum_torch 10 w 100 input
              (zero_field 4 3) Image_default img SUCCESS Hwf
              eq_refl eq_refl zero_field_matches_4_3 eq_refl Hrun)
    as (_ & Hw & Hh & _ & Hwf' & _).
  split; [exact Hrun|]. split; [exact Hw|]. split; [exact Hh | exact Hwf'].
Defined.

(** X15.  The tiled warp copies tiles without blending.  Whatever
    tensors libtorch returns for the tiles, with an overlap that is not
    negative and below both tile sides every sample of the output is
    the sample of the last tile of the plan whose extent contains the
    pixel, read at the pixel's position inside that tile, multiplied by
    [255.0f], clamped and truncated; what earlier tiles wrote there is
    overwritten. *)
Theorem warpImageTiled_last_tile_wins
        (sampler : Tile.t -> TensorF32.Tensor) (fuel : nat)
        (w : Warper.CudaWarper) (input : Image)
        (code : StatusCode) (img : Image) (px py pc : Z) :
  Stitcher.wf_image input ->
  0 <= tile_overlap (Warper.config_ w) < tile_width (Warper.config_ w) ->
  tile_overlap (Warper.config_ w) < tile_height (Warper.config_ w) ->
  warpImageTiled_with sampler fuel w input = Some (code, img) ->
  in_bounds input px py pc ->
  exists l1 t l2,
    Tiling.generateTiles fuel (Warper.config_ w) (width input) (height input)
    = Some (l1 ++ t :: l2) /\
    Tiling.extent_covers t px py /\
    (forall t', t' ∈ l2 -> ~ Tiling.extent_covers t' px py) /\
    at_ img px py pc
    = TensorF32.clamp_to_byte
        (Float32.mul (TensorF32.elem (sampler t) pc (py - Tile.y t)
                                     (px - Tile.x t))
                     (Float32.of_int 255)).
Proof.
  intros Hwf Hov Hov' Hrun Hb. pose proof Hwf as (Hw & Hh & Hc & _).
  set (config := Warper.config_ w) in *.
  assert (Hsx : 0 < Tiling.step_x config) by (unfold Tiling.step_x; lia).
  assert (Hsy : 0 < Tiling.step_y config) by (unfold Tiling.step_y; lia).
  unfold warpImageTiled_with in Hrun. fold config in Hrun.
  destruct (Tiling.generateTiles fuel config (width input) (height input))
    as [tiles|] eqn:Hgen; [|discriminate Hrun].
  injection Hrun as <- <-.
  pose proof (generateTiles_unique config _ _ fuel tiles Hsx Hsy Hgen)
    as Hplan.
  set (out0 := Image_new (width input) (height input) (channels input)
                         (bit_depth input)).
  assert (Hwf0 : Stitcher.wf_image out0) by now apply Image_new_wf.
  assert (Hb0 : in_bounds out0 px py pc) by exact Hb.
  destruct (fold_left_writes
              (fun out tile =>
                 copy_tile (channels input) (sampler tile) out tile)
              (fun t => 0 <= Tile.x t /\ 0 <= Tile.y t)
              (fun t px py _ => Tiling.extent_coversb px py t)
              (fun t px py pc =>
                 TensorF32.clamp_to_byte
                   (Float32.mul (TensorF32.elem (sampler t) pc
                                   (py - Tile.y t) (px - Tile.x t))
                                (Float32.of_int 255)))
              out0) with (l := tiles) (img := out0) as [_ Hg].
  - intros im t [Htx Hty] Him Hims.
    pose proof Hims as (Hw1 & Hh1 & Hc1 & _).
    change (channels input) with (channels out0). rewrite <- Hc1.
    destruct (copy_tile_spec (sampler t) im t Him Htx Hty) as [Hs Hpix].
    split; [exact Hs|]. intros qx qy qc Hq. apply Hpix.
    unfold in_bounds in Hq |- *. now rewrite Hw1, Hh1, Hc1.
  - apply Forall_forall. intros t Ht. subst tiles.
    destruct (tile_plan_in_image config _ _ Hsx Hsy t ltac:(lia) Ht)
      as ((Hx & Hy & _) & _).
    split; assumption.
  - exact Hwf0.
  - apply same_shape_refl.
  - destruct (Hg px py pc Hb0) as (_ & Hlast & _).
    destruct Hb as (Hpx & Hpy & _).
    destruct (tile_plan_cell config _ _ Hsx Hsy px py Hpx Hpy)
      as (Hin & Hcell & _).
    destruct (last_such_that (Tiling.extent_coversb px py) tiles)
      as (l1 & t & l2 & Heq & Hcov & Hno).
    { eexists. split; [subst tiles; exact Hin|].
      apply extent_coversb_spec.
      apply (cell_in_extent config (width input) (height input) Hsx Hsy);
        (assumption || lia). }
    exists l1, t, l2. split; [now rewrite <- Heq|].
    split; [now apply extent_coversb_spec|]. split.
    + intros t' Ht' Hc'. apply extent_coversb_spec in Hc'.
      rewrite (Hno t' Ht') in Hc'. discriminate Hc'.
    + now apply (Hlast l1 t l2).
Qed.

Lemma warpImageTiled_last_tile_wins_witness :
  let w := warper_with (GPUConfig_tiles 3 3 1) "bilinear" in
  let input := gradient_image 4 3 0 in
  let sampler := fun t : Tile.t =>
    {| TensorF32.dim0 := 1;
       TensorF32.dim1 := Tile.height t;
       TensorF32.dim2 := Tile.width t;
       TensorF32.elem := fun c y x =>
         TensorF32.elem (TensorF32.imageToTensor input)
                        c (Tile.y t + y) (Tile.x t + x) |} in
  exists img t,
    warpImageTiled_with sampler 10 w input = Some (SUCCESS, img) /\
    Tiling.extent_covers t 2 1 /\
    at_ img 2 1 0
    = TensorF32.clamp_to_byte
        (Float32.mul (TensorF32.elem (sampler t) 0 (1 - Tile.y t)
                                     (2 - Tile.x t))
                     (Float32.of_int 255)).
Proof.
  intros w input sampler.
  assert (Hwf : Stitcher.wf_image input)
    by (vm_compute; repeat split; discriminate).
  assert (Hb : in_bounds input 2 1 0)
    by (vm_compute; repeat split; discriminate).
  assert (Hrun : exists img,
             warpImageTiled_with sampler 10 w input = Some (SUCCESS, img)).
  { unfold warpImageTiled_with.
    replace (Tiling.generateTiles 10 (Warper.config_ w) (width input)
                                  (height input))
      with (Some (Tiling.tile_plan (GPUConfig_tiles 3 3 1) 4 3))
      by (vm_compute; reflexivity).
    eexists. reflexivity. }
  destruct Hrun as [img Hrun].
  destruct (warpImageTiled_last_tile_wins sampler 10 w input
              SUCCESS img 2 1 0 Hwf
              ltac:(vm_compute; split; [discriminate | reflexivity])
              ltac:(vm_compute; reflexivity) Hrun Hb)
    as (l1 & t & l2 & _ & Hcov & _ & Hval).
  exists img, t. split; [exact Hrun|]. split; [exact Hcov | exact Hval].
Defined.

(** ** Bytes through binary32 *)

(** [static_cast<byte_t>(clamp((v / 255.0f) * 255.0f, 0.0f, 255.0f))] is
    [v] for every byte (checked exhaustively in binary32). *)
Lemma byte_through_float_table :
  forallb (fun v =>
             TensorF32.clamp_to_byte
               (Float32.mul (Float32.div (Float32.of_int v)
                                         (Float32.of_int 255))
                            (Float32.of_int 255)) =? v)
          (seqZ 0 256) = true.
Proof. vm_compute. reflexivity. Qed.

Lemma byte_through_float (v : Z) :
  0 <= v <= 255 ->
  TensorF32.clamp_to_byte
    (Float32.mul (Float32.div (Float32.of_int v) (Float32.of_int 255))
                 (Float32.of_int 255)) = v.
Proof.
  intros Hv. pose proof byte_through_float_table as Htab.
  rewrite forallb_forall in Htab. apply Z.eqb_eq. apply Htab.
  apply list_elem_of_In, elem_of_seqZ. lia.
Qed.

(** [tensorToImage], sample by sample. *)
Lemma tensorToImage_F32_spec (t : TensorF32.Tensor) :
  0 <= TensorF32.dim2 t -> 0 <= TensorF32.dim1 t -> 1 <= TensorF32.dim0 t ->
  let r := TensorF32.tensorToImage t in
  same_shape r (Image_new (TensorF32.dim2 t) (TensorF32.dim1 t)
                          (TensorF32.dim0 t) 8) /\
  forall px py pc,
    0 <= px < TensorF32.dim2 t -> 0 <= py < TensorF32.dim1 t ->
    0 <= pc < TensorF32.dim0 t ->
    at_ r px py pc
    = TensorF32.clamp_to_byte
        (Float32.mul (TensorF32.elem t pc py px) (Float32.of_int 255)).
Proof.
  intros HW HH HC. cbv zeta. unfold TensorF32.tensorToImage. cbv zeta.
  set (ref := Image_new (TensorF32.dim2 t) (TensorF32.dim1 t)
                        (TensorF32.dim0 t) 8).
  assert (Hwf : Stitcher.wf_image ref) by now apply Image_new_wf.
  destruct (for_cyx_writes
              (fun img c y x =>
                 set_at img x y c
                   (TensorF32.clamp_to_byte
                      (Float32.mul (TensorF32.elem t c y x)
                                   (Float32.of_int 255))))
              0 0 (TensorF32.dim0 t) (TensorF32.dim1 t) (TensorF32.dim2 t)
              (fun c y x =>
                 TensorF32.clamp_to_byte
                   (Float32.mul (TensorF32.elem t c y x)
                                (Float32.of_int 255)))
              ref) with (img := ref) as [Hs Hg];
    [|exact Hwf|apply same_shape_refl|].
  - intros img c y x Hc Hy Hx Hwf0 Hs0.
    apply write_body_spec; [done|done|]. unfold in_bounds. simpl. lia.
  - cbv zeta in Hs, Hg. split; [exact Hs|]. intros px py pc Hx Hy Hc.
    rewrite Hg by (unfold in_bounds; simpl; lia).
    rewrite !Z.add_0_l, !Z.sub_0_r.
    rewrite (proj2 (Z.ltb_lt pc _)), (proj2 (Z.leb_le 0 py)),
      (proj2 (Z.ltb_lt py _)), (proj2 (Z.leb_le 0 px)),
      (proj2 (Z.ltb_lt px _)) by lia.
    reflexivity.
Qed.

(** X16.  Converting a well-formed image of byte samples to a binary32
    tensor with [imageToTensor] and back with [tensorToImage] returns the
    same width, height, channel count and buffer: dividing a byte by
    [255.0f], multiplying by [255.0f] and truncating loses nothing.  The
    bit depth comes back as 8. *)
Theorem tensor_round_trip (img : Image) :
  Stitcher.wf_image img -> bytes (data img) ->
  TensorF32.tensorToImage (TensorF32.imageToTensor img)
  = {| data := data img; width := width img; height := height img;
       channels := channels img; bit_depth := 8 |}.
Proof.
  intros Hwf Hb. pose proof Hwf as (Hw & Hh & Hc & Hl).
  destruct (tensorToImage_F32_spec (TensorF32.imageToTensor img) Hw Hh Hc)
    as [Hs Hg]. cbv zeta in Hs, Hg.
  change (TensorF32.dim0 (TensorF32.imageToTensor img)) with (channels img)
    in Hs, Hg.
  change (TensorF32.dim1 (TensorF32.imageToTensor img)) with (height img)
    in Hs, Hg.
  change (TensorF32.dim2 (TensorF32.imageToTensor img)) with (width img)
    in Hs, Hg.
  set (r := TensorF32.tensorToImage (TensorF32.imageToTensor img)) in *.
  pose proof Hs as (H1 & H2 & H3 & H4 & H5).
  change (width r = width img) in H1. change (height r = height img) in H2.
  change (channels r = channels img) in H3. change (bit_depth r = 8) in H4.
  assert (Hrwf : Stitcher.wf_image r).
  { eapply wf_image_same_shape; [exact Hs | now apply Image_new_wf]. }
  assert (Hd : data r = data img).
  { apply image_data_ext; [exact Hrwf|exact H1|exact H3| |].
    - apply Nat2Z.inj. destruct Hrwf as (_ & _ & _ & Hrl).
      rewrite Hrl, Hl, H1, H2, H3. reflexivity.
    - intros px py pc (Hx & Hy & Hcc). rewrite H1 in Hx. rewrite H2 in Hy.
      rewrite H3 in Hcc. rewrite Hg by done.
      exact (byte_through_float (at_ img px py pc)
               (bytes_at img px py pc Hb)). }
  destruct r as [d w0 h0 c0 b0]. simpl in *. congruence.
Qed.

Lemma tensor_round_trip_witness :
  let img := gradient_image 4 3 250 in
  TensorF32.tensorToImage (TensorF32.imageToTensor img) = img.
Proof.
  intros img.
  apply (tensor_round_trip img).
  - vm_compute; repeat split; discriminate.
  - apply bytes_check. vm_compute. reflexivity.
Defined.

(** ** The correlation threshold *)

(** X17.  The threshold only gates: if [addStrip] accepts a strip, it also
    accepts it after [setCorrelationThreshold] with any lower or equal
    threshold, and composite, history, height counter and alignment
    statistics come out the same. *)
Theorem addStrip_threshold_monotone
        (cv : OpenCV) (st : Stitcher.StripStitcher) (strip : ScanStrip)
        (threshold : Q) :
  (threshold <= Stitcher.min_correlation_ st)%Q ->
  fst (Stitcher.addStrip cv st strip) = SUCCESS ->
  let st0 := Stitcher.setCorrelationThreshold st threshold in
  let st1 := snd (Stitcher.addStrip cv st strip) in
  let st2 := snd (Stitcher.addStrip cv st0 strip) in
  fst (Stitcher.addStrip cv st0 strip) = SUCCESS /\
  Stitcher.getStitchedImage st2 = Stitcher.getStitchedImage st1 /\
  Stitcher.strips_ st2 = Stitcher.strips_ st1 /\
  Stitcher.current_height_ st2 = Stitcher.current_height_ st1 /\
  Stitcher.getLastAlignmentStats st2 = Stitcher.getLastAlignmentStats st1.
Proof.
  intros Hle Hok st0 st1 st2. subst st0 st1 st2. revert Hok.
  unfold Stitcher.addStrip.
  change (Stitcher.initialized_ (Stitcher.setCorrelationThreshold st threshold))
    with (Stitcher.initialized_ st).
  change (Stitcher.strips_ (Stitcher.setCorrelationThreshold st threshold))
    with (Stitcher.strips_ st).
  destruct (Stitcher.initialized_ st); simpl; [|intros H; discriminate H].
  destruct (last (Stitcher.strips_ st)) as [prev|]; [|done].
  cbv zeta.
  destruct (Stitcher.success
              (Stitcher.alignStrips cv st (image prev) (image strip))) eqn:Hs;
    simpl; [|intros H; discriminate H].
  intros _. unfold Stitcher.alignStrips in *.
  apply phaseCorrelation_success_iff in Hs
    as (b1 & b2 & shift & max_val & Hb & Hp & Hm & Hq & Heq).
  assert (Heq0 : Stitcher.phaseCorrelation cv
                   (Stitcher.setCorrelationThreshold st threshold)
                   (image prev) (image strip)
                 = Stitcher.phaseCorrelation cv st (image prev) (image strip)).
  { rewrite Heq. unfold Stitcher.phaseCorrelation.
    change (Stitcher.overlap_bands
              (Stitcher.setCorrelationThreshold st threshold)
              (image prev) (image strip))
      with (Stitcher.overlap_bands st (image prev) (image strip)).
    rewrite Hb, Hp, Hm. f_equal. simpl.
    apply Qle_bool_iff. apply Qle_bool_iff in Hq.
    eapply Qle_trans; eassumption. }
  rewrite Heq0, Heq. simpl. repeat split; reflexivity.
Qed.

Lemma addStrip_threshold_monotone_witness :
  let st := seeded_stitcher 2 in
  let strip := gradient_strip 4 3 1 in
  fst (Stitcher.addStrip cv_accept
         (Stitcher.setCorrelationThreshold st (1 # 2)) strip) = SUCCESS.
Proof.
  intros st strip.
  apply (addStrip_threshold_monotone cv_accept st strip (1 # 2)).
  - vm_compute. intros H. discriminate H.
  - reflexivity.
Defined.

(** ** [linearBlend] *)

Section LinearBlend.

(** The first [k] iterations of the loop of [linearBlend]. *)
Lemma linearBlend_prefix (target source : list Z) (alpha : Float32.float)
      (k : nat) :
  Z.of_nat k <= Z.of_nat (length target) ->
  let r := fold_left (fun t i =>
                        Buffer.set t i
                          (Stitcher.linear_blend alpha (Buffer.get source i)
                                                 (Buffer.get t i)))
                     (seqZ 0 (Z.of_nat k)) target in
  length r = length target /\
  forall i, Buffer.get r i =
            if (0 <=? i) && (i <? Z.of_nat k)
            then Stitcher.linear_blend alpha (Buffer.get source i)
                                       (Buffer.get target i)
            else Buffer.get target i.
Proof.
  induction k as [|k IH]; intros Hk; cbv zeta.
  - simpl. split; [done|]. intros i. change (Z.of_nat 0) with 0.
    destruct (Z.leb_spec 0 i), (Z.ltb_spec i 0); simpl; try reflexivity; lia.
  - rewrite seqZ_S, fold_left_app. simpl fold_left. rewrite Z.add_0_l.
    destruct IH as [Hl Hg]; [lia|]. cbv zeta in Hl, Hg.
    set (r := fold_left _ (seqZ 0 (Z.of_nat k)) target) in *.
    split; [now rewrite length_set|]. intros i.
    destruct (Z.eq_dec i (Z.of_nat k)) as [->|Hne].
    + rewrite get_set_eq by (rewrite Hl; lia). rewrite Hg.
      rewrite Z.ltb_irrefl, andb_false_r.
      rewrite (proj2 (Z.leb_le 0 _)), (proj2 (Z.ltb_lt _ (Z.of_nat (S k))))
        by lia.
      reflexivity.
    + rewrite get_set_ne by lia. rewrite Hg.
      replace (i <? Z.of_nat (S k)) with (i <? Z.of_nat k); [done|].
      destruct (Z.ltb_spec i (Z.of_nat k)), (Z.ltb_spec i (Z.of_nat (S k)));
        lia || done.
Qed.

(** A buffer whose reads are all bytes is a buffer of bytes. *)
Lemma bytes_of_get (d : list Z) :
  (forall i, 0 <= i < Z.of_nat (length d) -> 0 <= Buffer.get d i <= 255) ->
  bytes d.
Proof.
  intros H. apply Forall_lookup. intros n v Hn.
  specialize (H (Z.of_nat n)). unfold Buffer.get in H.
  destruct (Z.ltb_spec (Z.of_nat n) 0); [lia|].
  rewrite Nat2Z.id, Hn in H. apply H.
  apply lookup_lt_Some in Hn. lia.
Qed.

(** The blend is a byte, whatever the weight. *)
Lemma linear_blend_byte (alpha : Float32.float) (s t : Z) :
  0 <= Stitcher.linear_blend alpha s t <= 255.
Proof.
  unfold Stitcher.linear_blend, Float32.to_byte.
  match goal with
  | |- _ <= ?v mod 256 <= _ =>
      pose proof (Z.mod_pos_bound v 256 ltac:(lia))
  end.
  lia.
Qed.

(** With weight 0.0f the blend is the existing sample, for all bytes
    (checked exhaustively). *)
Lemma linear_blend_weight_zero_table :
  forallb (fun s =>
             forallb (fun t =>
                        Stitcher.linear_blend (Float32.of_int 0) s t =? t)
                     (seqZ 0 256))
          (seqZ 0 256) = true.
Proof. vm_compute. reflexivity. Qed.

Lemma linear_blend_weight_zero (s t : Z) :
  0 <= s <= 255 -> 0 <= t <= 255 ->
  Stitcher.linear_blend (Float32.of_int 0) s t = t.
Proof.
  intros Hs Ht. pose proof linear_blend_weight_zero_table as Htab.
  rewrite forallb_forall in Htab.
  specialize (Htab s). rewrite forallb_forall in Htab.
  apply Z.eqb_eq. apply Htab.
  - apply list_elem_of_In, elem_of_seqZ. lia.
  - apply list_elem_of_In, elem_of_seqZ. lia.
Qed.

Lemma linear_blend_weight_one (s t : Z) :
  0 <= s <= 255 -> 0 <= t <= 255 ->
  Stitcher.linear_blend Float32.one s t = s.
Proof.
  intros Hs Ht.
  rewrite <- (blend_alpha_beyond_overlap 0 0 ltac:(lia)).
  now apply linear_blend_beyond_overlap.
Qed.

End LinearBlend.

(** X18.  On byte buffers that hold at least [width * height] samples,
    [linearBlend] keeps the target buffer's length and leaves a buffer of
    bytes: each of the first [width * height] samples is replaced by the
    binary32 blend of the source sample over the old target sample,
    truncated and stored in 8 bits, and the rest is left alone.  The
    weight [1.0f] copies the source samples exactly and the weight [0.0f]
    changes nothing. *)
Theorem linearBlend_samples
        (target source : list Z) (width height : Z) (alpha : Float32.float) :
  0 <= width * height <= Z.of_nat (length target) ->
  width * height <= Z.of_nat (length source) ->
  bytes target -> bytes source ->
  let r := linearBlend target source width height alpha in
  length r = length target /\
  bytes r /\
  (forall i, Buffer.get r i =
             if (0 <=? i) && (i <? width * height)
             then Stitcher.linear_blend alpha (Buffer.get source i)
                                        (Buffer.get target i)
             else Buffer.get target i) /\
  (alpha = Float32.one ->
   forall i, 0 <= i < width * height ->
             Buffer.get r i = Buffer.get source i) /\
  (alpha = Float32.of_int 0 -> r = target).
Proof.
  intros Hn _ Hbt Hbs r. subst r. unfold linearBlend.
  destruct (linearBlend_prefix target source alpha
              (Z.to_nat (width * height)) ltac:(lia)) as [Hl Hg].
  cbv zeta in Hl, Hg. rewrite Z2Nat.id in Hl, Hg by lia.
  split; [exact Hl|]. split; [|split; [exact Hg|split]].
  - apply bytes_of_get. intros i Hi. rewrite Hg.
    destruct ((0 <=? i) && (i <? width * height)).
    + apply linear_blend_byte.
    + now apply bytes_get.
  - intros -> i Hi. rewrite Hg.
    rewrite (proj2 (Z.leb_le 0 i)), (proj2 (Z.ltb_lt i _)) by lia. simpl.
    apply linear_blend_weight_one; now apply bytes_get.
  - intros ->. apply buffer_ext; [exact Hl|]. intros i _. rewrite Hg.
    destruct ((0 <=? i) && (i <? width * height)); [|reflexivity].
    apply linear_blend_weight_zero; now apply bytes_get.
Qed.

Lemma linearBlend_samples_witness :
  let target := [10; 20; 30; 40; 50; 60] in
  let source := [1; 2; 3; 4; 5; 6] in
  linearBlend target source 2 2 (Float32.of_int 0) = target /\
  Buffer.get (linearBlend target source 2 2 Float32.one) 3 = 4 /\
  Buffer.get (linearBlend target source 2 2 Float32.one) 4 = 50 /\
  Stitcher.linear_blend (Float32.of_int 2) 200 10 = 134 /\
  Stitcher.linear_blend (Float32.of_int 2) 10 200 = 76 /\
  linearBlend [10; 200] [200; 10] 2 1 (Float32.of_int 2) = [134; 76].
Proof.
  intros target source.
  assert (Hn : 0 <= 2 * 2 <= Z.of_nat (length target))
    by (vm_compute; split; discriminate).
  assert (Hs : 2 * 2 <= Z.of_nat (length source))
    by (vm_compute; discriminate).
  assert (Hbt : bytes target) by (apply bytes_check; vm_compute; reflexivity).
  assert (Hbs : bytes source) by (apply bytes_check; vm_compute; reflexivity).
  split; [|split; [|split; [|split; [|split]]]].
  - destruct (linearBlend_samples target source 2 2 (Float32.of_int 0)
                Hn Hs Hbt Hbs) as (_ & _ & _ & _ & Hzero).
    exact (Hzero eq_refl).
  - destruct (linearBlend_samples target source 2 2 Float32.one
                Hn Hs Hbt Hbs) as (_ & _ & _ & Hone & _).
    exact (Hone eq_refl 3
             ltac:(vm_compute; split; [discriminate | reflexivity])).
  - destruct (linearBlend_samples target source 2 2 Float32.one
                Hn Hs Hbt Hbs) as (_ & _ & Hg & _).
    rewrite Hg. reflexivity.
  - vm_compute. reflexivity.
  - vm_compute. reflexivity.
  - vm_compute. reflexivity.
Defined.

(** ** The printer interface *)

Section PrinterFacts.

Variable dll : Printer.DLL.

Lemma printer_invariant_new : printer_invariant Printer.PrinterInterface_new.
Proof.
  unfold printer_invariant. simpl.
  split; [reflexivity|]. split; [reflexivity|]. intros Hd. discriminate Hd.
Qed.

Lemma printer_invariant_close_raw p :
  Printer.printing (Printer.status_ p) = false ->
  printer_invariant (Printer.close p).
Proof.
  intros Hp. unfold printer_invariant. simpl.
  split; [reflexivity|]. split; [exact Hp|]. intros Hd. discriminate Hd.
Qed.

Lemma printer_invariant_close p :
  printer_invariant p -> printer_invariant (Printer.close p).
Proof. intros (_ & Hp & _). now apply printer_invariant_close_raw. Qed.

Lemma printer_invariant_initialize p dll_path config_file :
  printer_invariant p ->
  printer_invariant (snd (Printer.initialize dll p dll_path config_file)).
Proof.
  intros Hinv. pose proof Hinv as (Hc & Hp & Hf).
  unfold Printer.initialize.
  destruct (Printer.LoadLibraryA dll dll_path) as [h|]; [|exact Hinv].
  cbv zeta. cbn [Printer.send_image_func_ Printer.get_status_func_].
  destruct (Printer.GetProcAddress dll h "SendImage") as [f|] eqn:Ef;
    [destruct (Printer.GetProcAddress dll h "GetStatus") as [g|] eqn:Eg|].
  - unfold printer_invariant. simpl.
    split; [reflexivity|]. split; [exact Hp|]. intros _.
    repeat split; eexists; reflexivity.
  - apply printer_invariant_close_raw. exact Hp.
  - apply printer_invariant_close_raw. exact Hp.
Qed.

End PrinterFacts.

(** X19.  Every printer interface obtained from a fresh one by
    [initialize] and [close] calls, whatever the DLL does, never calls
    [SendImage] through a null pointer and, when initialized, holds a
    library handle; [isReady] is true exactly when the interface is
    initialized, since nothing ever sets [printing]; after [close] the
    interface is not ready. *)
Theorem printer_reachable_safe
        (dll : Printer.DLL) (p : Printer.PrinterInterface) (image : Image) :
  Printer.reachable dll p ->
  Printer.sendImage dll p image <> None /\
  Printer.isReady p = Printer.initialized_ p /\
  (Printer.initialized_ p = true -> is_Some (Printer.dll_handle_ p)) /\
  Printer.isReady (Printer.close p) = false.
Proof.
  intros Hr.
  assert (Hinv : printer_invariant p).
  { induction Hr.
    - apply printer_invariant_new.
    - now apply printer_invariant_initialize.
    - now apply printer_invariant_close. }
  destruct Hinv as (Hc & Hp & Hf).
  split; [|split; [|split]].
  - unfold Printer.sendImage.
    destruct (Printer.initialized_ p) eqn:Hi; simpl; [|discriminate].
    destruct (Hf eq_refl) as (_ & [f Hs] & _). rewrite Hs.
    destruct (_ =? 0); discriminate.
  - unfold Printer.isReady. rewrite Hc, Hp.
    now destruct (Printer.initialized_ p).
  - intros Hi. now destruct (Hf Hi).
  - reflexivity.
Qed.

Lemma printer_reachable_safe_witness :
  let p := snd (Printer.initialize dll_loads Printer.PrinterInterface_new
                                   "printer.dll" "") in
  Printer.reachable dll_loads p /\
  Printer.isReady p = true /\
  Printer.sendImage dll_loads p (gradient_image 4 3 0) = Some SUCCESS /\
  Printer.isReady
    (snd (Printer.initialize dll_loads p "missing.dll" "")) = true /\
  Printer.isReady
    (snd (Printer.initialize dll_loads p "other.dll" "")) = false.
Proof.
  intros p.
  assert (Hr : Printer.reachable dll_loads p)
    by (apply Printer.reachable_initialize, Printer.reachable_new).
  destruct (printer_reachable_safe dll_loads p (gradient_image 4 3 0) Hr)
    as (_ & Hready & _).
  split; [exact Hr|]. split; [rewrite Hready; reflexivity|].
  split; [reflexivity|]. split; reflexivity.
Defined.

(** ** The preprocessing pipeline *)

Section PreprocessingFacts.

Variable cv : Preprocessing.Filters.

Lemma image_of_mat_format (m : Mat) :
  channels (Preprocessing.image_of_mat m) = 1 /\
  bit_depth (Preprocessing.image_of_mat m) = 8 /\
  width (Preprocessing.image_of_mat m) = cols m /\
  height (Preprocessing.image_of_mat m) = rows m /\
  (0 <= cols m -> 0 <= rows m ->
   Stitcher.wf_image (Preprocessing.image_of_mat m)).
Proof.
  repeat split; try reflexivity; try lia; simpl; try lia.
  rewrite length_memcpy, length_zeros. nia.
Qed.

Lemma stage_cases (enable : bool)
      (f : Image -> Image -> StatusCode * Image) (temp : Image) :
  (forall i o, (fst (f i o) = SUCCESS /\ from_mat (snd (f i o))) \/
               fst (f i o) = ERROR_UNKNOWN) ->
  match Preprocessing.stage enable f temp with
  | Some temp' => if enable then from_mat temp' else temp' = temp
  | None => enable = true
  end.
Proof.
  intros Hf. unfold Preprocessing.stage. destruct enable; [|reflexivity].
  specialize (Hf temp temp). destruct (f temp temp) as [status temp'].
  simpl in Hf. destruct Hf as [[-> Hm] | ->]; simpl; done.
Qed.

Lemma filter_result (r : option Mat) (output : Image) :
  let res := match r with
             | Some output_mat =>
                 (SUCCESS, Preprocessing.image_of_mat output_mat)
             | None => (ERROR_UNKNOWN, output)
             end in
  (fst res = SUCCESS /\ from_mat (snd res)) \/ fst res = ERROR_UNKNOWN.
Proof. destruct r as [m|]; simpl; [left; split; [done | now exists m] | now right]. Qed.

Lemma make_odd_odd (k : Z) :
  Z.odd (Preprocessing.make_odd k) = true /\
  k <= Preprocessing.make_odd k <= k + 1.
Proof.
  unfold Preprocessing.make_odd.
  pose proof (Z.quot_rem' k 2) as Hk.
  pose proof (Z.rem_bound_abs k 2 ltac:(lia)) as Hb.
  destruct (Z.eqb_spec (Z.rem k 2) 0) as [H0|H0]; (split; [|lia]).
  - rewrite Hk, H0, Z.add_0_r.
    replace (2 * (k ÷ 2) + 1) with (1 + 2 * (k ÷ 2)) by lia.
    now rewrite Z.odd_add_mul_2.
  - rewrite Hk. rewrite Z.add_comm, Z.odd_add_mul_2.
    assert (Z.rem k 2 = 1 \/ Z.rem k 2 = -1) as [-> | ->] by lia;
      reflexivity.
Qed.

End PreprocessingFacts.

(** The answer of [applyPipeline] on an early return. *)
Ltac finish_error :=
  split; [now right|];
  split; [reflexivity|];
  split; [intros Hd; discriminate Hd|];
  split; [intros Hd; discriminate Hd | assumption].

(** X20.  [applyPipeline] is all or nothing.  It answers [SUCCESS] or
    [ERROR_UNKNOWN]; on [ERROR_UNKNOWN] the caller's output image is
    untouched, whichever stage raised; with every stage disabled the
    output is the input itself; and when it succeeds with some stage
    enabled the output is a single-channel 8-bit image with the size of
    the last OpenCV result, whatever the channel count and bit depth of
    the input.  The kernel sizes handed to [cv::GaussianBlur] and
    [cv::medianBlur] are odd. *)
Theorem applyPipeline_all_or_nothing
        (cv : Preprocessing.Filters) (input output : Image)
        (config : Preprocessing.PreprocessingConfig) :
  let code := fst (Preprocessing.applyPipeline cv input output config) in
  let out := snd (Preprocessing.applyPipeline cv input output config) in
  let any_enabled :=
    Preprocessing.enable_gaussian config
    || Preprocessing.enable_bilateral config
    || Preprocessing.enable_histogram_eq config
    || Preprocessing.enable_normalize config in
  (code = SUCCESS \/ code = ERROR_UNKNOWN) /\
  (code = ERROR_UNKNOWN -> out = output) /\
  (any_enabled = false -> code = SUCCESS /\ out = input) /\
  (code = SUCCESS -> any_enabled = true ->
   exists m, out = Preprocessing.image_of_mat m /\
             channels out = 1 /\ bit_depth out = 8 /\
             width out = cols m /\ height out = rows m) /\
  (forall sigma k,
      Z.odd (Preprocessing.gaussian_kernel_size sigma) = true /\
      Z.odd (Preprocessing.make_odd k) = true).
Proof.
  cbv zeta. unfold Preprocessing.applyPipeline.
  assert (Hodd : forall sigma k,
             Z.odd (Preprocessing.gaussian_kernel_size sigma) = true /\
             Z.odd (Preprocessing.make_odd k) = true)
    by (intros sigma k; split; apply make_odd_odd).
  pose proof (stage_cases (Preprocessing.enable_gaussian config)
                (fun i o => Preprocessing.gaussianBlur cv i o
                              (Preprocessing.gaussian_sigma config))
                input (fun i o => filter_result _ o)) as H1.
  destruct (Preprocessing.stage (Preprocessing.enable_gaussian config) _ input)
    as [t1|].
  2:{ rewrite H1. simpl. finish_error. }
  pose proof (stage_cases (Preprocessing.enable_bilateral config)
                (fun i o => Preprocessing.bilateralFilter_ cv i o
                              (Preprocessing.bilateral_spatial_sigma config)
                              (Preprocessing.bilateral_intensity_sigma config))
                t1 (fun i o => filter_result _ o)) as H2.
  destruct (Preprocessing.stage (Preprocessing.enable_bilateral config) _ t1)
    as [t2|].
  2:{ rewrite H2, orb_true_r. simpl. finish_error. }
  pose proof (stage_cases (Preprocessing.enable_histogram_eq config)
                (Preprocessing.histogramEqualization cv)
                t2 (fun i o => filter_result _ o)) as H3.
  destruct (Preprocessing.stage (Preprocessing.enable_histogram_eq config) _ t2)
    as [t3|].
  2:{ rewrite H3, !orb_true_r. simpl. finish_error. }
  pose proof (stage_cases (Preprocessing.enable_normalize config)
                (Preprocessing.normalize cv)
                t3 (fun i o => filter_result _ o)) as H4.
  destruct (Preprocessing.stage (Preprocessing.enable_normalize config) _ t3)
    as [t4|].
  2:{ rewrite H4, !orb_true_r. simpl. finish_error. }
  simpl. split; [now left|]. split; [intros H; discriminate H|].
  split; [|split].
  - intros Hno. apply orb_false_iff in Hno as [Hno Hd].
    apply orb_false_iff in Hno as [Hno Hc].
    apply orb_false_iff in Hno as [Ha Hb].
    rewrite Ha in H1. rewrite Hb in H2. rewrite Hc in H3. rewrite Hd in H4.
    split; [reflexivity | congruence].
  - intros _ Hany.
    assert (Hm : from_mat t4).
    { destruct (Preprocessing.enable_normalize config); [exact H4|].
      subst t4.
      destruct (Preprocessing.enable_histogram_eq config); [exact H3|].
      subst t3.
      destruct (Preprocessing.enable_bilateral config); [exact H2|].
      subst t2.
      destruct (Preprocessing.enable_gaussian config); [exact H1|].
      discriminate Hany. }
    destruct Hm as [m ->]. exists m.
    destruct (image_of_mat_format m) as (? & ? & ? & ? & _).
    repeat split; assumption.
  - exact Hodd.
Qed.

(** ** The camera's buffer callback *)

Section CameraFacts.

Implicit Types (cam : Camera.GidelCamera) (b : Camera.BUFFER_DATA).

Lemma processBuffers_cons cam b bs :
  Camera.processBuffers cam (b :: bs)
  = Camera.processBuffers (Camera.processBuffer cam b) bs.
Proof. reflexivity. Qed.

(** The callbacks never touch the configuration or the direction flag. *)
Lemma processBuffers_keeps cam bs :
  Camera.config_ (Camera.processBuffers cam bs) = Camera.config_ cam /\
  Camera.is_left_to_right_ (Camera.processBuffers cam bs)
  = Camera.is_left_to_right_ cam /\
  Camera.current_strip_id_ (Camera.processBuffers cam bs)
  = Camera.current_strip_id_ cam + Z.of_nat (length bs) /\
  Camera.frames_received (Camera.processBuffers cam bs)
  = Camera.frames_received cam + Z.of_nat (length bs).
Proof.
  revert cam. induction bs as [|b bs IH]; intros cam.
  - simpl. repeat split; lia.
  - rewrite processBuffers_cons.
    destruct (IH (Camera.processBuffer cam b)) as (-> & -> & -> & ->).
    simpl. repeat split; lia.
Qed.

(** The queue grows at its end. *)
Lemma processBuffers_queue cam bs :
  Camera.strip_queue_ (Camera.processBuffers cam bs)
  = Camera.strip_queue_ cam ++ Camera.delivered cam bs.
Proof.
  unfold Camera.delivered.
  assert (H : exists l, Camera.strip_queue_ (Camera.processBuffers cam bs)
                        = Camera.strip_queue_ cam ++ l).
  { revert cam. induction bs as [|b bs IH]; intros cam.
    - exists []. simpl. now rewrite app_nil_r.
    - rewrite processBuffers_cons.
      destruct (IH (Camera.processBuffer cam b)) as [l ->]. simpl.
      eexists. now rewrite <- app_assoc. }
  destruct H as [l ->]. now rewrite drop_app_length.
Qed.

Lemma delivered_cons cam b bs :
  Camera.delivered cam (b :: bs)
  = {| image := Camera.strip_image cam b;
       strip_id := Camera.current_strip_id_ cam;
       physical_position := Camera.current_position_mm_ cam;
       is_left_to_right := Camera.is_left_to_right_ cam |}
    :: Camera.delivered (Camera.processBuffer cam b) bs.
Proof.
  pose proof (processBuffers_queue cam (b :: bs)) as H1.
  rewrite processBuffers_cons in H1.
  rewrite (processBuffers_queue (Camera.processBuffer cam b) bs) in H1.
  simpl in H1. rewrite <- app_assoc in H1.
  apply app_inv_head in H1. simpl in H1. now rewrite <- H1.
Qed.

Lemma delivered_nil cam : Camera.delivered cam [] = [].
Proof. unfold Camera.delivered. simpl. apply drop_all. Qed.

(** The strip image only depends on the configuration. *)
Lemma strip_image_config cam cam' b :
  Camera.config_ cam' = Camera.config_ cam ->
  Camera.strip_image cam' b = Camera.strip_image cam b.
Proof. intros H. unfold Camera.strip_image. now rewrite H. Qed.

Lemma delivered_lookup cam bs (k : nat) b :
  bs !! k = Some b ->
  exists s, Camera.delivered cam bs !! k = Some s /\
            image s = Camera.strip_image cam b /\
            strip_id s = Camera.current_strip_id_ cam + Z.of_nat k /\
            is_left_to_right s = Camera.is_left_to_right_ cam.
Proof.
  revert cam k. induction bs as [|b0 bs IH]; intros cam k Hk;
    [now rewrite lookup_nil in Hk|].
  rewrite delivered_cons. destruct k as [|k].
  - injection Hk as ->. eexists. split; [reflexivity|]. simpl.
    repeat split; lia.
  - simpl in Hk.
    destruct (IH (Camera.processBuffer cam b0) k Hk)
      as (s & Hs & Hi & Hid & Hd).
    exists s. split; [exact Hs|]. split; [|split].
    + rewrite Hi. now apply strip_image_config.
    + rewrite Hid. simpl. lia.
    + rewrite Hd. reflexivity.
Qed.

Lemma delivered_length cam bs :
  length (Camera.delivered cam bs) = length bs.
Proof.
  revert cam. induction bs as [|b bs IH]; intros cam.
  - now rewrite delivered_nil.
  - rewrite delivered_cons. simpl. now rewrite IH.
Qed.

(** The image of a strip. *)
Lemma strip_image_spec cam b :
  0 <= Camera.BufferInfoWidth b -> 0 <= Camera.BufferInfoHeight b ->
  let img := Camera.strip_image cam b in
  let n := Z.min (Camera.BufferSizeBytes b)
                 (Camera.BufferInfoWidth b * Camera.BufferInfoHeight b) in
  Stitcher.wf_image img /\
  width img = Camera.BufferInfoWidth b /\
  height img = Camera.BufferInfoHeight b /\
  channels img = 1 /\
  bit_depth img = CameraConfig.bit_depth (Camera.config_ cam) /\
  (forall i, Buffer.get (data img) i
             = if (0 <=? i) && (i <? n)
               then Buffer.get (Camera.pBuffer b) (Camera.Offset b + i)
               else 0) /\
  (bytes (Camera.pBuffer b) -> bytes (data img)).
Proof.
  intros Hw Hh. cbv zeta. unfold Camera.strip_image. cbv zeta.
  set (fresh := Image_new (Camera.BufferInfoWidth b)
                          (Camera.BufferInfoHeight b) 1
                          (CameraConfig.bit_depth (Camera.config_ cam))).
  assert (Hwf : Stitcher.wf_image fresh) by (apply Image_new_wf; lia).
  assert (Hl : Z.of_nat (length (data fresh))
               = Camera.BufferInfoWidth b * Camera.BufferInfoHeight b).
  { destruct Hwf as (_ & _ & _ & ->). simpl. lia. }
  split; [|split; [|split; [|split; [|split; [|split]]]]]; try reflexivity.
  - eapply wf_image_same_shape; [|exact Hwf].
    apply same_shape_with_data, length_memcpy.
  - intros i. unfold with_data. cbn [data]. rewrite get_memcpy, !Hl.
    rewrite Z.sub_0_r, Z.add_0_l.
    assert (Hz : Buffer.get (data fresh) i = 0) by apply get_zeros.
    rewrite Hz.
    set (n := Z.min (Camera.BufferSizeBytes b)
                    (Camera.BufferInfoWidth b * Camera.BufferInfoHeight b)).
    destruct (Z.leb_spec 0 i); simpl; [|reflexivity].
    destruct (Z_le_gt_dec 0 n) as [Hn|Hn].
    + rewrite Z2Nat.id by exact Hn.
      destruct (Z.ltb_spec i n); simpl; [|reflexivity].
      rewrite (proj2 (Z.ltb_lt i _)) by lia. reflexivity.
    + replace (Z.to_nat n) with 0%nat by lia. change (Z.of_nat 0) with 0.
      rewrite (proj2 (Z.ltb_ge i 0)) by lia.
      rewrite (proj2 (Z.ltb_ge i n)) by lia. reflexivity.
  - intros Hb. simpl. apply bytes_memcpy; [apply bytes_zeros | exact Hb].
Qed.

(** The handles given back to the grabber. *)
Lemma processBuffers_requeued cam bs :
  Camera.has_prev cam = true ->
  Camera.requeued (Camera.processBuffers cam bs)
  = Camera.requeued cam
    ++ filter (fun h => h <> 0)
              (take (length bs)
                    (Camera.prev_handle cam :: map Camera.hBuffer bs)).
Proof.
  revert cam. induction bs as [|b bs IH]; intros cam Hp.
  - simpl. now rewrite app_nil_r.
  - rewrite processBuffers_cons, IH by reflexivity.
    cbn [Camera.requeued Camera.processBuffer Camera.prev_handle].
    rewrite Hp. cbn [andb length take map].
    rewrite filter_cons.
    destruct (Z.eqb_spec (Camera.prev_handle cam) 0) as [H0|H0]; simpl.
    + rewrite decide_False by (intros H; apply H; exact H0). reflexivity.
    + rewrite decide_True by exact H0. now rewrite <- app_assoc.
Qed.

End CameraFacts.

(** X21.  Each call of [processBuffer] appends exactly one strip to the
    end of the queue.  The strip of the [k]-th buffer carries the image
    built from that buffer and the identifier [current_strip_id_ + k]; its
    direction is the camera's flag, which no callback changes, so on a
    fresh camera the identifiers count from 0 and every strip is marked
    left-to-right. *)
Theorem processBuffers_delivers
        (cam : Camera.GidelCamera) (buffers : list Camera.BUFFER_DATA) :
  let cam' := Camera.processBuffers cam buffers in
  let strips := Camera.delivered cam buffers in
  Camera.strip_queue_ cam' = Camera.strip_queue_ cam ++ strips /\
  length strips = length buffers /\
  Camera.current_strip_id_ cam'
  = Camera.current_strip_id_ cam + Z.of_nat (length buffers) /\
  Camera.is_left_to_right_ cam' = Camera.is_left_to_right_ cam /\
  (forall (k : nat) b, buffers !! k = Some b ->
     exists s, strips !! k = Some s /\
               image s = Camera.strip_image cam b /\
               strip_id s = Camera.current_strip_id_ cam + Z.of_nat k /\
               is_left_to_right s = Camera.is_left_to_right_ cam) /\
  (forall config (k : nat) s,
     Camera.delivered (Camera.GidelCamera_new config) buffers !! k = Some s ->
     strip_id s = Z.of_nat k /\ is_left_to_right s = true).
Proof.
  cbv zeta. destruct (processBuffers_keeps cam buffers) as (_ & Hd & Hid & _).
  split; [apply processBuffers_queue|].
  split; [apply delivered_length|].
  split; [exact Hid|]. split; [exact Hd|].
  split; [intros k b; apply delivered_lookup|].
  intros config k s Hs.
  assert (Hk : (k < length buffers)%nat).
  { rewrite <- (delivered_length (Camera.GidelCamera_new config)).
    now apply lookup_lt_Some in Hs. }
  destruct (lookup_lt_is_Some_2 buffers k Hk) as [b Hb].
  destruct (delivered_lookup (Camera.GidelCamera_new config) buffers k b Hb)
    as (s' & Hs' & _ & Hid' & Hd').
  rewrite Hs in Hs'. injection Hs' as <-. simpl in Hid', Hd'.
  split; [lia | exact Hd'].
Qed.

(** X22.  The image of a camera strip, for a frame of non-negative size:
    a single-channel image of the frame's width and height with the bit
    depth of the configuration and a buffer of exactly [width * height]
    samples, whose first [min(BufferSizeBytes, width * height)] samples
    are the grabber's bytes from [Offset] on and whose remaining samples
    are zero. *)
Theorem strip_image_content
        (cam : Camera.GidelCamera) (b : Camera.BUFFER_DATA) :
  0 <= Camera.BufferInfoWidth b -> 0 <= Camera.BufferInfoHeight b ->
  let img := Camera.strip_image cam b in
  let n := Z.min (Camera.BufferSizeBytes b)
                 (Camera.BufferInfoWidth b * Camera.BufferInfoHeight b) in
  Stitcher.wf_image img /\
  width img = Camera.BufferInfoWidth b /\
  height img = Camera.BufferInfoHeight b /\
  channels img = 1 /\
  bit_depth img = CameraConfig.bit_depth (Camera.config_ cam) /\
  (forall i, Buffer.get (data img) i
             = if (0 <=? i) && (i <? n)
               then Buffer.get (Camera.pBuffer b) (Camera.Offset b + i)
               else 0) /\
  (bytes (Camera.pBuffer b) -> bytes (data img)).
Proof. intros Hw Hh. now apply strip_image_spec. Qed.

Lemma strip_image_content_witness :
  let cam := Camera.GidelCamera_new camera_config_8bit in
  let img := Camera.strip_image cam short_frame in
  Stitcher.wf_image img /\ data img = [7; 8; 9; 0; 0; 0].
Proof.
  intros cam img.
  destruct (strip_image_content cam short_frame
              ltac:(vm_compute; discriminate) ltac:(vm_compute; discriminate))
    as (Hwf & _).
  split; [exact Hwf | reflexivity].
Defined.

(** X23.  The callback gives a buffer back to the grabber one frame late:
    on a fresh camera (the first of the process: the two statics are
    shared), after any sequence of callbacks the handles passed to
    [QueueBuffer] are those of all buffers but the last, in order and
    without the null handles, and the last buffer's handle is held. *)
Theorem processBuffers_requeues_previous
        (config : CameraConfig.t) (buffers : list Camera.BUFFER_DATA) :
  let cam' := Camera.processBuffers (Camera.GidelCamera_new config) buffers in
  Camera.requeued cam'
  = filter (fun h => h <> 0)
           (take (length buffers - 1) (map Camera.hBuffer buffers)) /\
  (forall b, last buffers = Some b ->
             Camera.has_prev cam' = true /\
             Camera.prev_handle cam' = Camera.hBuffer b).
Proof.
  cbv zeta. split.
  - destruct buffers as [|b bs]; [reflexivity|].
    rewrite processBuffers_cons, processBuffers_requeued by reflexivity.
    simpl. now rewrite Nat.sub_0_r.
  - generalize (Camera.GidelCamera_new config).
    induction buffers as [|b0 bs IH]; intros cam b Hl; [discriminate Hl|].
    rewrite processBuffers_cons. destruct bs as [|b1 bs].
    + injection Hl as <-. split; reflexivity.
    + apply IH. exact Hl.
Qed.

(** ** From the camera to the stitcher *)

Lemma delivered_well_formed
      (cam : Camera.GidelCamera) (buffers : list Camera.BUFFER_DATA) :
  Forall (fun b => 0 <= Camera.BufferInfoWidth b /\
                   0 <= Camera.BufferInfoHeight b) buffers ->
  Forall (fun s => Stitcher.wf_image (image s) /\ channels (image s) = 1)
         (Camera.delivered cam buffers).
Proof.
  intros Hall. apply Forall_lookup. intros k s Hs.
  assert (Hk : (k < length buffers)%nat).
  { rewrite <- (delivered_length cam). now apply lookup_lt_Some in Hs. }
  destruct (lookup_lt_is_Some_2 buffers k Hk) as [b Hb].
  destruct (delivered_lookup cam buffers k b Hb) as (s' & Hs' & Hi & _).
  rewrite Hs in Hs'. injection Hs' as <-.
  destruct (proj1 (Forall_lookup _ _) Hall k b Hb) as [Hw Hh].
  destruct (strip_image_spec cam b Hw Hh) as (Hwf & _ & _ & Hc & _).
  rewrite Hi. split; assumption.
Qed.

(** X24.  Strips as the camera builds them are what the stitcher needs:
    for frames of non-negative size every queued strip is a well-formed
    single-channel image, and with blending enabled and a positive
    overlap, feeding the queued strips to [addStrip] in order, whatever
    each call answers, leaves a composite whose buffer holds exactly
    [width * height * channels] samples. *)
Theorem camera_strips_keep_composite_well_formed
        (cv : OpenCV) (st : Stitcher.StripStitcher)
        (cam : Camera.GidelCamera) (buffers : list Camera.BUFFER_DATA) :
  Stitcher.blending_enabled_ st = true ->
  0 < overlap_pixels (Stitcher.params_ st) ->
  Stitcher.wf_image (Stitcher.stitched_image_ st) ->
  Forall (fun b => 0 <= Camera.BufferInfoWidth b /\
                   0 <= Camera.BufferInfoHeight b) buffers ->
  let strips := Camera.delivered cam buffers in
  Forall (fun s => Stitcher.wf_image (image s) /\ channels (image s) = 1)
         strips /\
  Stitcher.wf_image
    (Stitcher.getStitchedImage (snd (Stitcher.addStrips cv st strips))).
Proof.
  intros _ _ Hwf Hall strips.
  pose proof (delivered_well_formed cam buffers Hall) as Hs. fold strips in Hs.
  split; [exact Hs|]. clearbody strips. clear Hall.
  revert st Hwf. induction strips as [|s l IH]; intros st Hwf; [exact Hwf|].
  apply Forall_cons in Hs as [[Hs _] Hl].
  rewrite addStrips_cons. cbn [snd]. apply IH; [exact Hl|].
  now apply addStrip_wf.
Qed.

Lemma camera_strips_keep_composite_well_formed_witness :
  let cam := Camera.GidelCamera_new camera_config_8bit in
  let buffers := [short_frame; short_frame] in
  Stitcher.wf_image
    (Stitcher.getStitchedImage
       (snd (Stitcher.addStrips cv_accept (stitcher_with_overlap 1)
                                (Camera.delivered cam buffers)))).
Proof.
  intros cam buffers.
  apply (camera_strips_keep_composite_well_formed
           cv_accept (stitcher_with_overlap 1) cam buffers).
  - reflexivity.
  - reflexivity.
  - vm_compute. repeat split; discriminate.
  - repeat constructor; vm_compute; discriminate.
Defined.

(** ** The registration wrapper *)

Section ElastixFacts.

Lemma zero_field_wf (w h : Z) : 0 <= w -> 0 <= h -> wf_field (zero_field w h).
Proof.
  intros Hw Hh. unfold wf_field, zero_field. simpl.
  rewrite !length_replicate. assert (0 <= w * h) by nia. repeat split; lia.
Qed.

Lemma getDisplacement_zero_field (w h x y : Z) :
  Warper.getDisplacement (zero_field w h) x y = (0%Q, 0%Q).
Proof.
  unfold Warper.getDisplacement, zero_field. simpl.
  destruct (y * w + x <? 0); [reflexivity|].
  destruct (replicate (Z.to_nat (w * h)) 0%Q !! Z.to_nat (y * w + x))
    as [q|] eqn:E; [|reflexivity].
  apply lookup_replicate in E as [-> _]. reflexivity.
Qed.

End ElastixFacts.

(** X25.  [registerImages] is a placeholder.  On an initialized wrapper
    it always answers [SUCCESS] with [success = true], a metric of 0.95
    and [max_iterations] iterations, and its deformation field has the
    size of the fixed image and is zero everywhere; the result does not
    depend on the moving image, nor on the samples of the fixed image.
    On a wrapper that is not initialized it answers
    [ERROR_INVALID_CONFIG] and leaves the result as it was. *)
Theorem registerImages_identity_field
        (e : Elastix.ElastixWrapper) (elapsed : Q) (fixed moving : Image)
        (result : Elastix.RegistrationResult) :
  0 <= width fixed -> 0 <= height fixed ->
  let code := fst (Elastix.registerImages e elapsed fixed moving result) in
  let r := snd (Elastix.registerImages e elapsed fixed moving result) in
  (Elastix.initialized_ e = false ->
   code = ERROR_INVALID_CONFIG /\ r = result) /\
  (Elastix.initialized_ e = true ->
   code = SUCCESS /\ Elastix.success r = true /\
   Elastix.metric_value r = 95 # 100 /\
   Elastix.iterations r = Elastix.max_iterations (Elastix.params_ e) /\
   wf_field (Elastix.deformation r) /\
   field_width (Elastix.deformation r) = width fixed /\
   field_height (Elastix.deformation r) = height fixed /\
   (forall x y, Warper.getDisplacement (Elastix.deformation r) x y
                = (0%Q, 0%Q))) /\
  (forall fixed' moving',
     width fixed' = width fixed -> height fixed' = height fixed ->
     Elastix.registerImages e elapsed fixed' moving' result
     = Elastix.registerImages e elapsed fixed moving result).
Proof.
  intros Hw Hh. cbv zeta. unfold Elastix.registerImages.
  destruct (Elastix.initialized_ e); simpl.
  - split; [intros H; discriminate H|]. split.
    + intros _. do 4 (split; [reflexivity|]).
      split; [now apply zero_field_wf|]. do 2 (split; [reflexivity|]).
      intros x y. apply getDisplacement_zero_field.
    + intros fixed' moving' -> ->. reflexivity.
  - split; [done|]. split; [intros H; discriminate H | done].
Qed.

Lemma registerImages_identity_field_witness :
  let e := snd (Elastix.initialize
                  (Elastix.ElastixWrapper_new
                     Elastix.RegistrationParams_default)
                  Elastix.RegistrationParams_default) in
  let r := snd (Elastix.registerImages e 3 (gradient_image 4 3 0)
                  (gradient_image 2 2 9) Elastix.RegistrationResult_default) in
  Elastix.iterations r = 500 /\
  Warper.getDisplacement (Elastix.deformation r) 3 2 = (0%Q, 0%Q).
Proof.
  intros e r.
  destruct (registerImages_identity_field e 3 (gradient_image 4 3 0)
              (gradient_image 2 2 9) Elastix.RegistrationResult_default
              ltac:(vm_compute; discriminate) ltac:(vm_compute; discriminate))
    as (_ & Hinit & _).
  destruct (Hinit eq_refl) as (_ & _ & _ & Hit & _ & _ & _ & Hz).
  split; [exact Hit | apply Hz].
Defined.

(** X26.  The parameter map after [initialize] holds the eight generated
    entries, taken from the parameters just passed, and keeps every other
    entry it held before; an earlier [setParameter] on a generated key is
    overwritten, a later one wins, and [setParameter] changes no other
    key. *)
Theorem initialize_parameter_map
        (e : Elastix.ElastixWrapper) (params : Elastix.RegistrationParams)
        (key value : string) :
  let e' := snd (Elastix.initialize e params) in
  let m' := Elastix.getParameterMap e' in
  fst (Elastix.initialize e params) = SUCCESS /\
  Elastix.initialized_ e' = true /\
  m' !! "Registration" = Some "MultiResolutionRegistration" /\
  m' !! "Transform" = Some "BSplineTransform" /\
  m' !! "Metric" = Some (Elastix.metric_type params) /\
  m' !! "Optimizer" = Some (Elastix.optimizer_type params) /\
  m' !! "NumberOfResolutions" = Some (pretty (Elastix.pyramid_levels params)) /\
  m' !! "FinalBSplineInterpolationOrder" = Some "3" /\
  m' !! "GridSpacingSchedule"
  = Some (pretty (Elastix.bspline_grid_spacing params)) /\
  m' !! "MaximumNumberOfIterations"
  = Some (pretty (Elastix.max_iterations params)) /\
  (key ∉ Elastix.generated_keys ->
   m' !! key = Elastix.getParameterMap e !! key) /\
  Elastix.getParameterMap
    (snd (Elastix.initialize (Elastix.setParameter e key value) params))
  !! key
  = (if bool_decide (key ∈ Elastix.generated_keys) then m' !! key
     else Some value) /\
  Elastix.getParameterMap (Elastix.setParameter e' key value) !! key
  = Some value /\
  (forall k, k <> key ->
     Elastix.getParameterMap (Elastix.setParameter e' key value) !! k
     = m' !! k).
Proof.
  cbv zeta. unfold Elastix.getParameterMap, Elastix.initialize,
    Elastix.generateParameterMaps, Elastix.setParameter. simpl.
  assert (Hother : forall (m : gmap string string) k v1 v2 v3 v4 v5 v6 v7 v8,
            k ∉ Elastix.generated_keys ->
            (<["MaximumNumberOfIterations" := v8]>
             (<["GridSpacingSchedule" := v7]>
             (<["FinalBSplineInterpolationOrder" := v6]>
             (<["NumberOfResolutions" := v5]>
             (<["Optimizer" := v4]>
             (<["Metric" := v3]>
             (<["Transform" := v2]>
             (<["Registration" := v1]> m)))))))) !! k = m !! k).
  { intros m k v1 v2 v3 v4 v5 v6 v7 v8 Hk.
    unfold Elastix.generated_keys in Hk.
    rewrite !not_elem_of_cons in Hk.
    destruct Hk as (H1 & H2 & H3 & H4 & H5 & H6 & H7 & H8 & _).
    rewrite !lookup_insert_ne by congruence. reflexivity. }
  split; [reflexivity|]. split; [reflexivity|].
  do 8 (split; [now simplify_map_eq|]).
  split; [apply Hother|]. split; [|split].
  - destruct (bool_decide_reflect (key ∈ Elastix.generated_keys)) as [Hin|Hout].
    + unfold Elastix.generated_keys in Hin.
      rewrite !elem_of_cons in Hin.
      destruct Hin as [->|[->|[->|[->|[->|[->|[->|[->|Hin]]]]]]]];
        [now simplify_map_eq.. | inversion Hin].
    + rewrite Hother by exact Hout. apply lookup_insert_eq.
  - apply lookup_insert_eq.
  - intros k Hk. now rewrite lookup_insert_ne by congruence.
Qed.

(** ** The interpolation mode *)

(** X27.  Only the exact string "nearest" selects the first sampler call
    of [warpImage]: with any other mode the direct path is the one taken
    for "bilinear".  The tiled path never reads the mode. *)
Theorem interpolation_mode_selects
        (codes : Torch.InterpolationCodes) (fuel : nat)
        (w : Warper.CudaWarper) (mode : string)
        (input : Image) (deformation : DeformationField) :
  mode <> "nearest" ->
  Warper.warp_direct codes (Warper.setInterpolationMode w mode)
                     input deformation
  = Warper.warp_direct codes (Warper.setInterpolationMode w "bilinear")
                       input deformation /\
  (forall mode',
     Warper.warpImageTiled codes fuel (Warper.setInterpolationMode w mode')
                           input deformation
     = Warper.warpImageTiled codes fuel w input deformation).
Proof.
  intros Hm. split; [|reflexivity].
  unfold Warper.warp_direct. cbv zeta.
  cbn [Warper.interpolation_mode_ Warper.setInterpolationMode].
  rewrite (proj2 (String.eqb_neq mode "nearest") Hm). reflexivity.
Qed.

Lemma interpolation_mode_selects_witness :
  Warper.warp_direct Torch.enum_torch
    (Warper.setInterpolationMode (warper_with GPUConfig_default "nearest")
                                 "Nearest")
    one_row_image one_row_field
  = Warper.warp_direct Torch.enum_torch
      (Warper.setInterpolationMode (warper_with GPUConfig_default "nearest")
                                   "bilinear")
      one_row_image one_row_field.
Proof.
  apply (interpolation_mode_selects Torch.enum_torch 0
           (warper_with GPUConfig_default "nearest") "Nearest"
           one_row_image one_row_field).
  intros H. discriminate H.
Defined.

(** ** The overlap bands *)

Section OverlapBands.

Lemma flat_map_bind {A B} (f : A -> list B) (l : list A) :
  flat_map f l = l ≫= f.
Proof. induction l as [|a l IH]; [done|]. simpl. now rewrite IH. Qed.

(** A matrix written row by row. *)
Lemma rows_length (f : Z -> Z -> Z) (w h : Z) :
  0 <= w -> 0 <= h ->
  Z.of_nat (length (flat_map (fun r => map (f r) (seqZ 0 w)) (seqZ 0 h)))
  = h * w.
Proof.
  intros Hw Hh. rewrite flat_map_bind.
  rewrite (length_bind_const _ _ (Z.to_nat w))
    by (intros r; now rewrite length_map, length_seqZ).
  rewrite length_seqZ. nia.
Qed.

Lemma rows_get (f : Z -> Z -> Z) (w h i : Z) :
  0 <= i < h * w -> 0 <= w ->
  Buffer.get (flat_map (fun r => map (f r) (seqZ 0 w)) (seqZ 0 h)) i
  = f (i / w) (i mod w).
Proof.
  intros Hi Hw.
  assert (Hw0 : 0 < w).
  { destruct (Z.eq_dec w 0) as [->|]; [rewrite Z.mul_0_r in Hi|]; lia. }
  assert (Hq : 0 <= i / w < h).
  { split; [apply Z.div_pos; lia|]. apply Z.div_lt_upper_bound; nia. }
  pose proof (Z.mod_pos_bound i w Hw0) as Hr.
  unfold Buffer.get. rewrite (proj2 (Z.ltb_ge i 0)) by lia.
  rewrite flat_map_bind.
  replace (Z.to_nat i)
    with (Z.to_nat (i / w) * Z.to_nat w + Z.to_nat (i mod w))%nat.
  2:{ rewrite (Z.div_mod i w) at 3 by lia. nia. }
  rewrite (lookup_bind_const _ _ (Z.to_nat w))
    by ((intros r; now rewrite length_map, length_seqZ) || lia).
  rewrite lookup_seqZ_lt by lia. simpl.
  change (map (f (0 + Z.of_nat (Z.to_nat (i / w)))) (seqZ 0 w))
    with (f (0 + Z.of_nat (Z.to_nat (i / w))) <$> seqZ 0 w).
  rewrite list_lookup_fmap, lookup_seqZ_lt by lia. simpl.
  f_equal; lia.
Qed.

Lemma get_drop (d : list Z) (n : nat) (i : Z) :
  0 <= i -> Buffer.get (drop n d) i = Buffer.get d (Z.of_nat n + i).
Proof.
  intros Hi. unfold Buffer.get.
  rewrite (proj2 (Z.ltb_ge i 0)), (proj2 (Z.ltb_ge (Z.of_nat n + i) 0)) by lia.
  rewrite lookup_drop. do 2 f_equal. lia.
Qed.

(** A band of whole rows of a single-channel image is a slice of its
    buffer. *)
Lemma Mat_roi_rows (img : Image) (y h : Z) :
  Stitcher.wf_image img -> channels img = 1 ->
  0 <= y -> 0 <= h -> y + h <= height img ->
  exists b,
    Mat_roi (Mat_of_image img) 0 y (width img) h = Some b /\
    rows b = h /\ cols b = width img /\
    pixels b = take (Z.to_nat (h * width img))
                    (drop (Z.to_nat (y * width img)) (data img)).
Proof.
  intros (Hw & Hh & _ & Hl) Hc Hy Hh0 Hyh. rewrite Hc, Z.mul_1_r in Hl.
  unfold Mat_roi, Mat_of_image. cbn [rows cols pixels].
  rewrite Z.leb_refl, (proj2 (Z.leb_le 0 (width img))),
    (proj2 (Z.leb_le (0 + width img) _)), (proj2 (Z.leb_le 0 y)),
    (proj2 (Z.leb_le 0 h)), (proj2 (Z.leb_le (y + h) _)) by lia.
  cbn [andb]. eexists. split; [reflexivity|]. cbn [rows cols pixels].
  split; [reflexivity|]. split; [reflexivity|].
  set (W := width img) in *.
  assert (Hyw : 0 <= y * W) by nia. assert (Hhw : 0 <= h * W) by nia.
  assert (Hfit : y * W + h * W <= W * height img) by nia.
  apply buffer_ext.
  - apply Nat2Z.inj. rewrite rows_length by lia.
    rewrite length_take, length_drop. lia.
  - intros i Hi. rewrite rows_length in Hi by lia.
    rewrite rows_get by lia.
    rewrite get_take by lia.
    rewrite get_drop by lia. f_equal.
    rewrite Z2Nat.id by lia.
    rewrite (Z.div_mod i W) at 3 by nia. lia.
Qed.

End OverlapBands.

(** X28.  What [phaseCorrelation] hands to OpenCV, for well-formed
    single-channel strips: with [n = min(overlap_pixels, height of the
    previous strip, height of the new strip)] not negative, the last [n]
    rows of the previous strip and the first [n] rows of the new strip,
    each with its own width.  With a negative [overlap_pixels] the
    sub-matrix raises, so that no strip is accepted after the first,
    whatever the library would report. *)
Theorem phaseCorrelation_bands
        (st : Stitcher.StripStitcher) (img1 img2 : Image) :
  Stitcher.wf_image img1 -> Stitcher.wf_image img2 ->
  channels img1 = 1 -> channels img2 = 1 ->
  let n := Stitcher.overlap_height st img1 img2 in
  (0 <= n ->
   exists b1 b2,
     Stitcher.overlap_bands st img1 img2 = Some (b1, b2) /\
     rows b1 = n /\ cols b1 = width img1 /\
     rows b2 = n /\ cols b2 = width img2 /\
     pixels b1 = drop (Z.to_nat ((height img1 - n) * width img1)) (data img1) /\
     pixels b2 = take (Z.to_nat (n * width img2)) (data img2)) /\
  (overlap_pixels (Stitcher.params_ st) < 0 ->
   n < 0 /\
   forall cv, Stitcher.phaseCorrelation cv st img1 img2
              = Stitcher.AlignmentStats_unset) /\
  (overlap_pixels (Stitcher.params_ st) < 0 ->
   forall cv strip prev,
     Stitcher.initialized_ st = true ->
     last (Stitcher.strips_ st) = Some prev ->
     image prev = img1 -> image strip = img2 ->
     fst (Stitcher.addStrip cv st strip) = ERROR_STITCHING_FAILED).
Proof.
  intros Hwf1 Hwf2 Hc1 Hc2 n.
  pose proof Hwf1 as (Hw1 & Hh1 & _ & Hl1).
  pose proof Hwf2 as (Hw2 & Hh2 & _ & Hl2).
  assert (Hneg : overlap_pixels (Stitcher.params_ st) < 0 ->
                 n < 0 /\
                 forall cv, Stitcher.phaseCorrelation cv st img1 img2
                            = Stitcher.AlignmentStats_unset).
  { intros Hov. assert (Hn : n < 0) by (subst n; unfold Stitcher.overlap_height; lia).
    split; [exact Hn|]. intros cv.
    unfold Stitcher.phaseCorrelation, Stitcher.overlap_bands. cbv zeta.
    fold n. unfold Mat_roi at 1. cbn [rows cols pixels Mat_of_image].
    rewrite (proj2 (Z.leb_gt 0 n)) by lia.
    now rewrite !andb_false_r. }
  split; [|split; [exact Hneg|]].
  - intros Hn. unfold Stitcher.overlap_bands. cbv zeta. fold n.
    assert (Hn1 : n <= height img1) by (subst n; unfold Stitcher.overlap_height; lia).
    assert (Hn2 : n <= height img2) by (subst n; unfold Stitcher.overlap_height; lia).
    destruct (Mat_roi_rows img1 (height img1 - n) n Hwf1 Hc1
                ltac:(lia) Hn ltac:(lia)) as (b1 & -> & Hr1 & Hcl1 & Hp1).
    destruct (Mat_roi_rows img2 0 n Hwf2 Hc2 ltac:(lia) Hn ltac:(lia))
      as (b2 & -> & Hr2 & Hcl2 & Hp2).
    exists b1, b2. split; [reflexivity|].
    split; [exact Hr1|]. split; [exact Hcl1|].
    split; [exact Hr2|]. split; [exact Hcl2|]. split.
    + rewrite Hp1. apply take_ge. rewrite length_drop.
      rewrite Hc1, Z.mul_1_r in Hl1. nia.
    + rewrite Hp2. now rewrite Z.mul_0_l.
  - intros Hov cv strip prev Hi Hl <- <-.
    rewrite (addStrip_rejected cv st strip prev Hi Hl); [reflexivity|].
    unfold Stitcher.alignStrips.
    now rewrite (proj2 (Hneg Hov) cv).
Qed.

Lemma phaseCorrelation_bands_witness :
  let st := stitcher_with_overlap 2 in
  let img1 := gradient_image 4 3 0 in
  let img2 := gradient_image 4 3 9 in
  exists b1 b2,
    Stitcher.overlap_bands st img1 img2 = Some (b1, b2) /\
    pixels b1 = [1; 2; 3; 4; 2; 3; 4; 5] /\
    pixels b2 = [9; 10; 11; 12; 10; 11; 12; 13].
Proof.
  intros st img1 img2.
  destruct (phaseCorrelation_bands st img1 img2
              ltac:(vm_compute; repeat split; discriminate)
              ltac:(vm_compute; repeat split; discriminate)
              eq_refl eq_refl) as (Hb & _).
  destruct (Hb ltac:(vm_compute; discriminate))
    as (b1 & b2 & Heq & _ & _ & _ & _ & Hp1 & Hp2).
  exists b1, b2. split; [exact Heq|]. split.
  - rewrite Hp1. reflexivity.
  - rewrite Hp2. reflexivity.
Defined.

(** ** The first row of a blended strip *)

Lemma all_from_spec (n : nat) (start : Z) (f : Z -> bool) :
  all_from n start f = true ->
  forall i, start <= i < start + Z.of_nat n -> f i = true.
Proof.
  revert start. induction n as [|n IH]; intros start H i Hi; [lia|].
  simpl in H. apply andb_true_iff in H as [H0 H].
  destruct (Z.eq_dec i start) as [->|Hne]; [exact H0|].
  apply (IH (start + 1) H). lia.
Qed.

(** The weight of source row 0 is [0.0f] for every [overlap_pixels] from 1
    to 65536 (checked exhaustively in binary32). *)
Lemma blend_alpha_row0_table :
  all_from (Z.to_nat 65536) 1
           (fun bh =>
              match Stitcher.blend_alpha 0 bh with
              | S754_zero false => true
              | _ => false
              end) = true.
Proof. vm_compute. reflexivity. Qed.

Lemma blend_alpha_row0 (bh : Z) :
  0 < bh <= 65536 -> Stitcher.blend_alpha 0 bh = Float32.of_int 0.
Proof.
  intros Hb.
  pose proof (all_from_spec _ _ _ blend_alpha_row0_table bh ltac:(lia))
    as Htab. cbv beta in Htab.
  destruct (Stitcher.blend_alpha 0 bh) as [[|]| | |]; try discriminate Htab.
  reflexivity.
Qed.

(** X29.  With blending enabled and [overlap_pixels] between 1 and 65536,
    the first row of an accepted strip of byte samples never reaches the
    composite: its weight is [0.0f], and the composite row it is blended
    into keeps the samples it had (zero where the growth added the
    row). *)
Theorem addStrip_blend_drops_first_row
        (cv : OpenCV) (st : Stitcher.StripStitcher) (strip prev : ScanStrip)
        (px : Z) :
  Stitcher.initialized_ st = true ->
  last (Stitcher.strips_ st) = Some prev ->
  Stitcher.success (Stitcher.alignStrips cv st (image prev) (image strip))
    = true ->
  Stitcher.blending_enabled_ st = true ->
  0 < overlap_pixels (Stitcher.params_ st) <= 65536 ->
  Stitcher.wf_image (Stitcher.stitched_image_ st) ->
  Stitcher.wf_image (image strip) ->
  bytes (data (Stitcher.stitched_image_ st)) ->
  bytes (data (image strip)) ->
  let st' := snd (Stitcher.addStrip cv st strip) in
  let py := Stitcher.insert_y st in
  in_bounds (Stitcher.getStitchedImage st') px py 0 ->
  at_ (Stitcher.getStitchedImage st') px py 0
  = if py <? height (Stitcher.stitched_image_ st)
    then at_ (Stitcher.stitched_image_ st) px py 0 else 0.
Proof.
  intros Hi Hl Hs Hb Hov Hwf Hws Hbc Hbs st' py. subst st' py.
  rewrite (addStrip_accepted cv st strip prev Hi Hl Hs). simpl.
  unfold Stitcher.getStitchedImage, Stitcher.fuse_strip. simpl.
  rewrite Hb, (proj2 (Z.ltb_lt 0 _)) by lia. simpl.
  set (stats := Stitcher.alignStrips cv st (image prev) (image strip)).
  set (grown := Stitcher.grow_composite st strip).
  destruct (grow_composite_spec st strip Hwf) as (_ & _ & _ & Hgwf & _).
  fold grown in Hgwf.
  destruct (blendOverlapRegion_spec st grown (image strip)
              (Stitcher.double_to_int (Stitcher.offset_x stats))
              (Stitcher.insert_y st) Hgwf Hws) as [Hshape Hpix].
  intros Hin.
  assert (Hing : in_bounds grown px (Stitcher.insert_y st) 0).
  { destruct Hshape as (Hw & Hh & Hc & _). unfold in_bounds in Hin |- *.
    now rewrite <- Hw, <- Hh, <- Hc. }
  rewrite (Hpix _ _ _ Hing). rewrite Z.sub_diag.
  rewrite <- (grow_composite_at st strip px (Stitcher.insert_y st) 0 Hwf Hing).
  fold grown.
  destruct (_ && _); [|reflexivity].
  rewrite blend_alpha_row0 by exact Hov.
  apply linear_blend_weight_zero.
  - now apply bytes_at.
  - apply bytes_at. now apply bytes_grow_composite.
Qed.

Lemma addStrip_blend_drops_first_row_witness :
  let st := seeded_stitcher 2 in
  let strip := gradient_strip 4 3 9 in
  let st' := snd (Stitcher.addStrip cv_accept st strip) in
  at_ (Stitcher.getStitchedImage st') 3 1 0
  = at_ (Stitcher.stitched_image_ st) 3 1 0.
Proof.
  intros st strip st'.
  apply (addStrip_blend_drops_first_row
           cv_accept st strip (gradient_strip 4 3 0) 3).
  - reflexivity.
  - reflexivity.
  - reflexivity.
  - reflexivity.
  - vm_compute. split; [reflexivity | discriminate].
  - vm_compute; repeat split; discriminate.
  - vm_compute; repeat split; discriminate.
  - apply bytes_check. vm_compute. reflexivity.
  - apply bytes_check. vm_compute. reflexivity.
  - vm_compute; repeat split; discriminate.
Defined.

(** ** What the fusion uses of the alignment *)

(** X30.  Of the alignment result, an accepted strip's fusion uses only
    the horizontal offset truncated to [int]: two libraries that both
    lead to acceptance and report horizontal shifts with the same integer
    part give the same composite, history and height counter, whatever
    vertical shifts, fractional parts and correlation scores they
    report. *)
Theorem addStrip_uses_truncated_offset_x
        (cv1 cv2 : OpenCV) (st : Stitcher.StripStitcher)
        (strip prev : ScanStrip) :
  Stitcher.initialized_ st = true ->
  last (Stitcher.strips_ st) = Some prev ->
  let a1 := Stitcher.alignStrips cv1 st (image prev) (image strip) in
  let a2 := Stitcher.alignStrips cv2 st (image prev) (image strip) in
  Stitcher.success a1 = true -> Stitcher.success a2 = true ->
  Stitcher.double_to_int (Stitcher.offset_x a1)
  = Stitcher.double_to_int (Stitcher.offset_x a2) ->
  let st1 := snd (Stitcher.addStrip cv1 st strip) in
  let st2 := snd (Stitcher.addStrip cv2 st strip) in
  Stitcher.getStitchedImage st1 = Stitcher.getStitchedImage st2 /\
  Stitcher.strips_ st1 = Stitcher.strips_ st2 /\
  Stitcher.current_height_ st1 = Stitcher.current_height_ st2.
Proof.
  intros Hi Hl a1 a2 H1 H2 Hx st1 st2. subst st1 st2.
  rewrite (addStrip_accepted cv1 st strip prev Hi Hl H1).
  rewrite (addStrip_accepted cv2 st strip prev Hi Hl H2).
  cbn [snd Stitcher.getStitchedImage Stitcher.stitched_image_
       Stitcher.strips_ Stitcher.current_height_].
  split; [|split; reflexivity].
  unfold Stitcher.fuse_strip. fold a1 a2. now rewrite Hx.
Qed.

Lemma addStrip_uses_truncated_offset_x_witness :
  let st := seeded_stitcher 2 in
  let strip := gradient_strip 4 3 9 in
  Stitcher.getStitchedImage (snd (Stitcher.addStrip cv_accept st strip))
  = Stitcher.getStitchedImage (snd (Stitcher.addStrip cv_shifted st strip)).
Proof.
  intros st strip.
  apply (addStrip_uses_truncated_offset_x
           cv_accept cv_shifted st strip (gradient_strip 4 3 0));
    reflexivity.
Defined.
